(** * soundDB: the lazy accessor engine ([soundDB/accessor.py])

    A shallow embedding of [Accessor]: the per-record pipeline
    ([__iter__]), the chain of deferred stages ([__getattr__],
    [__getitem__], [__call__], [group]), the default identity function
    ([ID]) and the result combiner ([combine]).

    Python generators are embedded as finite resumption trees ([gen]):
    the record source is materialised ([list(entries)]) before the first
    record is parsed, so every generator of the chain is finite.
    Exceptions are explicit ([result]); what is written to the progress
    bar, printed or warned is kept as a list of [event]s. *)

From Stdlib Require Import QArith.
From stdpp Require Import gmap strings list sorting.

Open Scope Z_scope.
Open Scope list_scope.

(** ** Exceptions and fallible calls *)

Inductive exn : Type :=
| GeneratorExit
| TypeError
| ValueError
| AttributeError
| KeyError
| IndexError
| UnboundLocalError
| ZeroDivisionError
| NotImplementedError
| Exception (msg : string).

#[global] Instance exn_eq_dec : EqDecision exn.
Proof. solve_decision. Defined.

Inductive result (A : Type) : Type :=
| Ok (a : A)
| Raise (e : exn).
Arguments Ok {A} a.
Arguments Raise {A} e.

#[global] Instance result_ret : MRet result := fun A a => Ok a.
#[global] Instance result_bind : MBind result := fun A B f m =>
  match m with
  | Ok a => f a
  | Raise e => Raise e
  end.

Definition is_Ok {A} (r : result A) : bool :=
  match r with Ok _ => true | Raise _ => false end.

(** ** Python values *)

Inductive dtype : Type := int64 | float64 | object_ | datetime64.

#[global] Instance dtype_eq_dec : EqDecision dtype.
Proof. solve_decision. Defined.

(** A pandas [Index]: its labels and its dtype. *)
Record Index : Type := mkIndex { labels : list string; index_dtype : dtype }.

(** An [iyore.Entry]: the fields parsed from its path (each of them is
    also an attribute of the entry) and the path, which is its [str]. *)
Record Entry : Type := mkEntry { fields : gmap string string; path : string }.

#[global] Instance Entry_eq_dec : EqDecision Entry.
Proof. solve_decision. Defined.

(** The payload of a record: what [parse] returns and what the stages
    and the finishing function turn it into. *)
#[warnings="-register-all"]
Inductive Structure : Type :=
| PyNone
| PyBool (b : bool)
| PyInt (z : Z)
| PyFloat (q : Q)
| PyStr (s : string)
| PyList (elems : list Structure)
| PyTuple (elems : list Structure)
| Timedelta (t : Z)
| Timestamp (t : Z)
| Period (t : Z)
| Series (index : Index) (cells : list Z)
| DataFrame (index columns : Index) (cells : list (list Z))
| Panel (items major_axis minor_axis : Index) (cells : list (list (list Z)))
| Panel4D (labels4 items major_axis minor_axis : Index)
| PyObject (cls : string) (ident : nat).

Inductive PyType : Type :=
| TNoneType | TBool | TInt | TFloat | TStr | TList | TTuple
| TTimedelta | TTimestamp | TPeriod
| TSeries | TDataFrame | TPanel | TPanel4D
| TObject (cls : string).

#[global] Instance PyType_eq_dec : EqDecision PyType.
Proof. solve_decision. Defined.

(** [type(data)] *)
Definition type_of (data : Structure) : PyType :=
  match data with
  | PyNone => TNoneType
  | PyBool _ => TBool
  | PyInt _ => TInt
  | PyFloat _ => TFloat
  | PyStr _ => TStr
  | PyList _ => TList
  | PyTuple _ => TTuple
  | Timedelta _ => TTimedelta
  | Timestamp _ => TTimestamp
  | Period _ => TPeriod
  | Series _ _ => TSeries
  | DataFrame _ _ _ => TDataFrame
  | Panel _ _ _ _ => TPanel
  | Panel4D _ _ _ _ => TPanel4D
  | PyObject cls _ => TObject cls
  end.

(** [np.isscalar(data)] *)
Definition np_isscalar (data : Structure) : bool :=
  match data with
  | PyBool _ | PyInt _ | PyFloat _ | PyStr _ => true
  | _ => false
  end.

(** What travels next to a Structure through the chain: the
    [iyore.Entry] itself, or, after a [group] stage, the key of the
    group. *)
Inductive Key : Type :=
| KEntry (e : Entry)
| KStr (s : string)
| KInt (z : Z)
| KTuple (elems : list string).

#[global] Instance Key_eq_dec : EqDecision Key.
Proof. solve_decision. Defined.

(** [getattr(key, name)] on what the chain carries, for the attributes
    the model has: the fields of an entry and its path. An attribute
    of any other kind (a method, an attribute of a group key) is not
    in the model; [AttributeError] stands for such a lookup, and the
    properties below are about lookups that return. *)
Definition key_getattr (key : Key) (name : string) : result string :=
  match key with
  | KEntry e =>
      if decide (name = "path") then Ok (path e)
      else match fields e !! name with
           | Some v => Ok v
           | None => Raise AttributeError
           end
  | _ => Raise AttributeError
  end.

Definition Kwargs : Type := list (string * Structure).

(** ** What the engine reports *)

Inductive event : Type :=
| ParseError (path : string) (e : exn)
    (* the two [_progbar.write] calls of [iterate] *)
| StageError (entry : Key) (e : exn) (data : Structure)
    (* the four [_progbar.write] calls of a stage: str(entry),
       the traceback, "Data was:", repr(data) *)
| ConcatWarning
    (* [warnings.warn] of [combine] *)
| FinisherError (ID_name : Key) (e : exn).
    (* the two [print] calls of [combine] *)

(** ** Generators

    A generator that always finishes, as the tree of what it does:
    it returns ([Stop]), an exception leaves it ([Throw]), it writes a
    report and goes on ([Write]), or it is suspended at a [yield]
    ([Yield]) and then resumed either by [next()] or by [close()], which
    raises [GeneratorExit] at the [yield]. *)
Inductive gen (A : Type) : Type :=
| Stop
| Throw (e : exn)
| Write (ev : event) (k : gen A)
| Yield (a : A) (next : gen A) (close : gen A).
Arguments Stop {A}.
Arguments Throw {A} e.
Arguments Write {A} ev k.
Arguments Yield {A} a next close.

(** A generator that is left suspended when its consumer finishes is
    closed when it is collected: [GeneratorExit] is raised at its
    [yield] and it runs to its end; an exception that leaves it then, or
    a further [yield], is ignored. [u] is the [close] branch of the
    suspended generator, [after] what the consumer goes on with. *)
Fixpoint finalize {A B} (u : gen A) (after : gen B) : gen B :=
  match u with
  | Stop => after
  | Throw _ => after
  | Write ev k => Write ev (finalize k after)
  | Yield _ _ _ => after
  end.

(** What a caller sees: reports and yielded values in the order they
    happen, and the exception that ended the run, if any. *)
Inductive obs (A : Type) : Type :=
| Logged (ev : event)
| Item (a : A).
Arguments Logged {A} ev.
Arguments Item {A} a.

Record outcome (A : Type) : Type :=
  mkOutcome { trace : list (obs A); raised : option exn }.
Arguments mkOutcome {A} trace raised.
Arguments trace {A} o.
Arguments raised {A} o.

Definition observe {A} (o : obs A) (r : outcome A) : outcome A :=
  mkOutcome (o :: trace r) (raised r).

(** [list(g)]: the caller calls [next()] until the generator ends. *)
Fixpoint consume {A} (g : gen A) : outcome A :=
  match g with
  | Stop => mkOutcome [] None
  | Throw e => mkOutcome [] (Some e)
  | Write ev k => observe (Logged ev) (consume k)
  | Yield a next _ => observe (Item a) (consume next)
  end.

Definition item_of {A} (o : obs A) : option A :=
  match o with Item a => Some a | Logged _ => None end.

Definition event_of {A} (o : obs A) : option event :=
  match o with Logged ev => Some ev | Item _ => None end.

(** The values yielded, and the reports made, during a run. *)
Definition items {A} (r : outcome A) : list A := omap item_of (trace r).
Definition events {A} (r : outcome A) : list event := omap event_of (trace r).

(** The caller takes [n] values and then closes the generator: what is
    left of the generator after [n] calls of [next()] is resumed by
    [close()]. [None]: the generator ended before. *)
Fixpoint close_after {A} (n : nat) (g : gen A) : option (gen A) :=
  match g with
  | Stop => None
  | Throw _ => None
  | Write _ k => close_after n k
  | Yield _ next close =>
      match n with
      | O => Some close
      | S n' => close_after n' next
      end
  end.

(** ** External collaborators

    The attribute, index and call protocol of the payloads, and the
    pandas functions the engine calls. *)
Class Runtime : Type := {
  py_getattr : Structure -> string -> result Structure;
  py_getitem : Structure -> list Structure -> result Structure;
  py_call : Structure -> list Structure -> Kwargs -> result Structure;
  pd_concat : list Structure -> result Structure;
  pd_concat_dict : list (Key * Structure) -> result Structure;
  pd_Series : list (Key * Structure) -> result Structure;
  pd_DataFrame_from_dict : list (Key * Structure) -> result Structure;
  pd_Panel_from_dict : list (Key * Structure) -> result Structure;
  pd_Panel4D_from_dict : list (Key * Structure) -> result Structure;
  Index_intersection : Index -> Index -> Index;
}.

Inductive SortSpec : Type :=
| SortField (name : string)
| SortFields (names : list string)
| SortFunc (f : Key -> result Key).

(** An [iyore.Endpoint], called as
    [endpoint(sort= ..., n= ..., **filters)]. *)
Definition Endpoint : Type :=
  option SortSpec -> option nat -> Kwargs -> result (list Entry).

(** What a subclass of [Accessor] supplies. [parse] is the call
    [self.parse(entry)]; [parse_with] is [self.parse(entry, state= state)],
    which may change the state it is given. *)
Record Parser : Type := {
  State : Type;
  parse : Entry -> result Structure;
  parse_with : Entry -> State -> result Structure * State;
  prepareState : Endpoint -> Kwargs -> Kwargs -> result (option State);
}.

Definition Pair : Type := Key * Structure.

Record Accessor : Type := mkAccessor {
  _endpoint : Endpoint;
  _filters : Kwargs;
  _prepareStateParams : Kwargs;
  _sort : option SortSpec;
  _chain : list (gen Pair -> gen Pair);
  _n : option nat;
  _progbar : option (list Entry);
}.

Definition set_chain (self : Accessor) (chain : list (gen Pair -> gen Pair)) : Accessor :=
  mkAccessor (_endpoint self) (_filters self) (_prepareStateParams self)
             (_sort self) chain (_n self) (_progbar self).

Definition set_sort (self : Accessor) (sort : option SortSpec) : Accessor :=
  mkAccessor (_endpoint self) (_filters self) (_prepareStateParams self)
             sort (_chain self) (_n self) (_progbar self).

Definition set_progbar (self : Accessor) (bar : option (list Entry)) : Accessor :=
  mkAccessor (_endpoint self) (_filters self) (_prepareStateParams self)
             (_sort self) (_chain self) (_n self) bar.

(** ** [Accessor.ID]: the default identity of a record *)

Definition in_fields (name : string) (key : Entry) : bool :=
  bool_decide (is_Some (fields key !! name)).

(** [if name in key.fields: id_elems.append(key.name)] *)
Definition append_field (key : Entry) (name : string) (id_elems : list string)
  : result (list string) :=
  if in_fields name key
  then v ← key_getattr (KEntry key) name; mret (id_elems ++ [v])
  else mret id_elems.

(** [if len(id_elems) > 0: id_elems.append(' ')] *)
Definition append_space (id_elems : list string) : list string :=
  if bool_decide (0 < length id_elems)%nat then id_elems ++ [" "] else id_elems.

(** The join of [id_elems] on the empty string. *)
Definition join (id_elems : list string) : string :=
  foldr String.append "" id_elems.

(** The local [month] is assigned only inside the branch of the "month"
    field: it is unbound ([None]) until then, and reading it unbound
    raises [UnboundLocalError]. *)
Definition ID (key : Key) : result Key :=
  match key with
  | KEntry key =>
      let id_elems : list string := [] in
      let month : option bool := None in
      id_elems ← append_field key "unit" id_elems;
      id_elems ← append_field key "site" id_elems;
      id_elems ← append_field key "year" id_elems;
      '(id_elems, month) ←
        (if in_fields "month" key
         then v ← key_getattr (KEntry key) "month";
              mret (append_space id_elems ++ [v], Some true)
         else mret (id_elems, month));
      id_elems ←
        (if in_fields "day" key
         then id_elems ←
                match month with
                | None => Raise UnboundLocalError
                | Some true => mret (id_elems ++ ["-"])
                | Some false => mret id_elems
                end;
              v ← key_getattr (KEntry key) "day";
              mret (id_elems ++ [v])
         else mret id_elems);
      id_elems ←
        (if in_fields "hour" key
         then v ← key_getattr (KEntry key) "hour";
              mret (append_space id_elems ++ [v +:+ ":"])
         else mret id_elems);
      if bool_decide (0 < length id_elems)%nat
      then mret (KStr (join id_elems))
      else mret (KStr (path key))
  | _ => mret key
  end.

Section Engine.

Context {rt : Runtime}.

(** ** The stages of the chain *)

(** The loop the three stages [do_getattr], [do_getitem] and [do_call]
    share:
<<
    for entry, data in iterator:
        try:
            yield entry, op(data)
        except GeneratorExit:
            raise GeneratorExit
        except:
            self._progbar.write(...)
>>
    The [yield] is inside the [try], so the [GeneratorExit] of a
    [close()] is raised there too. When the stage ends while
    [iterator] is suspended, [iterator] is closed. *)
Fixpoint per_pair (op : Structure -> result Structure) (iterator : gen Pair)
  : gen Pair :=
  match iterator with
  | Stop => Stop
  | Throw e => Throw e
  | Write ev k => Write ev (per_pair op k)
  | Yield (entry, data) next close =>
      match op data with
      | Ok v =>
          Yield (entry, v) (per_pair op next)
                (finalize close (Throw GeneratorExit))
      | Raise GeneratorExit => finalize close (Throw GeneratorExit)
      | Raise e => Write (StageError entry e data) (per_pair op next)
      end
  end.

Definition do_getattr (attr : string) : gen Pair -> gen Pair :=
  per_pair (fun data => py_getattr data attr).

Definition do_getitem (index : list Structure) : gen Pair -> gen Pair :=
  per_pair (fun data => py_getitem data index).

Definition do_call (args : list Structure) (kwargs : Kwargs) : gen Pair -> gen Pair :=
  per_pair (fun data => py_call data args kwargs).

Definition __getattr__ (self : Accessor) (attr : string) : Accessor :=
  set_chain self (_chain self ++ [do_getattr attr]).

Definition __getitem__ (self : Accessor) (index : list Structure) : Accessor :=
  set_chain self (_chain self ++ [do_getitem index]).

Definition __call__ (self : Accessor) (args : list Structure) (kwargs : Kwargs)
  : Accessor :=
  set_chain self (_chain self ++ [do_call args kwargs]).

(** ** The grouping stage *)

(** [concat_maybe] of [group], on the tuple of the Structures of a run. *)
Definition concat_maybe (datas : list Structure) : result Structure :=
  match datas with
  | [data] => Ok data
  | _ =>
      match pd_concat datas with
      | Ok v => Ok v
      | Raise TypeError => Ok (PyTuple datas)
      | Raise e => Raise e
      end
  end.

(** [yield key, concat_maybe(...)]: the run is complete; [upstream] is
    the [close] branch of the iterator the stage reads, which is
    suspended unless it is exhausted. The [yield] is in no [try]. *)
Definition emit_group (key : Key) (datas : list Structure)
    (next : gen Pair) (upstream : gen Pair) : gen Pair :=
  match concat_maybe datas with
  | Ok v => Yield (key, v) next (finalize upstream (Throw GeneratorExit))
  | Raise e => finalize upstream (Throw e)
  end.

(** [do_group]: [itertools.groupby] over [iterator], keyed by
    [groupFunc] of the first component. [run] is the run being
    collected: its key and the Structures seen so far. *)
Fixpoint group_runs (groupFunc : Key -> result Key)
    (run : option (Key * list Structure)) (iterator : gen Pair) : gen Pair :=
  match iterator with
  | Stop =>
      match run with
      | None => Stop
      | Some (key, datas) => emit_group key datas Stop Stop
      end
  | Throw e => Throw e
  | Write ev k => Write ev (group_runs groupFunc run k)
  | Yield (entry, data) next close =>
      match groupFunc entry with
      | Raise e => finalize close (Throw e)
      | Ok k =>
          match run with
          | None => group_runs groupFunc (Some (k, [data])) next
          | Some (key, datas) =>
              if decide (key = k)
              then group_runs groupFunc (Some (key, datas ++ [data])) next
              else emit_group key datas
                     (group_runs groupFunc (Some (k, [data])) next) close
          end
      end
  end.

Definition do_group (groupFunc : Key -> result Key) : gen Pair -> gen Pair :=
  group_runs groupFunc None.

(** An argument of [group]: a string, a callable, or anything else. *)
Inductive GroupArg : Type :=
| ByField (name : string)
| ByFunc (f : Key -> result Key)
| ByOther (v : Structure).

Definition is_basestring (g : GroupArg) : bool :=
  match g with ByField _ => true | _ => false end.

Definition field_name (g : GroupArg) : string :=
  match g with ByField name => name | _ => "" end.

(** [lambda e: tuple(getattr(e, group) for group in groups)] *)
Fixpoint getattrs (e : Key) (names : list string) : result (list string) :=
  match names with
  | [] => mret []
  | name :: names =>
      v ← key_getattr e name;
      vs ← getattrs e names;
      mret (v :: vs)
  end.

(** The key function [group] derives from its arguments. *)
Definition groupFunc_of (groups : list GroupArg) : result (Key -> result Key) :=
  match groups with
  | [] => Raise TypeError
  | [ByField name] => Ok (fun e => v ← key_getattr e name; mret (KStr v))
  | [ByFunc f] => Ok f
  | [ByOther _] => Raise ValueError
  | _ =>
      if forallb is_basestring groups
      then Ok (fun e => vs ← getattrs e (map field_name groups); mret (KTuple vs))
      else Raise TypeError
  end.

Definition group (self : Accessor) (groups : list GroupArg) : result Accessor :=
  groupFunc ← groupFunc_of groups;
  let self := set_sort self (Some (SortFunc groupFunc)) in
  mret (set_chain self (_chain self ++ [do_group groupFunc])).

(** ** [Accessor.__iter__] *)

Section Iter.

Variable P : Parser.

(** [self.parse(entry, state= state) if state is not None else
    self.parse(entry)] *)
Definition call_parse (state : option (State P)) (entry : Entry)
  : result Structure * option (State P) :=
  match state with
  | Some s => let '(r, s') := parse_with P entry s in (r, Some s')
  | None => (parse P entry, None)
  end.

(** The generator [iterate] of [__iter__], over the located entries. *)
Fixpoint iterate (state : option (State P)) (entries : list Entry) : gen Pair :=
  match entries with
  | [] => Stop
  | entry :: rest =>
      let '(r, state') := call_parse state entry in
      match r with
      | Ok data =>
          Yield (KEntry entry, data) (iterate state' rest) (Throw GeneratorExit)
      | Raise GeneratorExit => Throw GeneratorExit
      | Raise e => Write (ParseError (path entry) e) (iterate state' rest)
      end
  end.

(** [__iter__] returns the generator and leaves the progress bar on the
    object. Each call prepares a state and locates the entries anew. *)
Definition __iter__ (self : Accessor) : result (Accessor * gen Pair) :=
  state ← prepareState P (_endpoint self) (_filters self) (_prepareStateParams self);
  entries ← _endpoint self (_sort self) (_n self) (_filters self);
  let self := set_progbar self (Some entries) in
  let iterate := iterate state entries in
  mret (self, fold_left (fun iterate do => do iterate) (_chain self) iterate).

End Iter.

(** ** [Accessor.combine] *)

(** A computation that reports events on its way and ends with a value
    or with an exception. *)
Definition io (A : Type) : Type := (list event * result A)%type.

Definition io_ret {A} (a : A) : io A := ([], Ok a).

Definition io_bind {A B} (m : io A) (f : A -> io B) : io B :=
  match m with
  | (evs, Ok a) => let '(evs', r) := f a in (evs ++ evs', r)
  | (evs, Raise e) => (evs, Raise e)
  end.

Definition lift {A} (r : result A) : io A := ([], r).

Notation "x ⇐ m ; k" := (io_bind m (fun x => k))
  (at level 20, m at level 100, k at level 200, only parsing).

(** [results[name].append(data)] on the [defaultdict(list)]. The list
    keeps the keys in the order of their first insertion, the order in
    which CPython 3.6 and later iterate a dictionary; earlier versions
    iterate in an order of their own. *)
Fixpoint dict_append (results : list (Key * list Structure))
    (name : Key) (data : Structure) : list (Key * list Structure) :=
  match results with
  | [] => [(name, [data])]
  | (name', datas) :: rest =>
      if decide (name' = name)
      then (name', datas ++ [data]) :: rest
      else (name', datas) :: dict_append rest name data
  end.

(** [for key, data in iter(self): results[ID(key)].append(data)].
    When [ID] raises, the loop is left and the suspended generator is
    closed. *)
Fixpoint bucket (ID : Key -> result Key) (g : gen Pair)
    (results : list (Key * list Structure)) : io (list (Key * list Structure)) :=
  match g with
  | Stop => io_ret results
  | Throw e => lift (Raise e)
  | Write ev k => let '(evs, r) := bucket ID k results in (ev :: evs, r)
  | Yield (key, data) next close =>
      match ID key with
      | Ok name => bucket ID next (dict_append results name data)
      | Raise e => (events (consume (finalize close (@Stop Pair))), Raise e)
      end
  end.

(** The first [try] of the loop over the identities:
    [flat = pd.concat(datas, copy= False) if len(datas) > 1 else datas[0]],
    with the list itself and a warning on [TypeError]. *)
Definition flatten (datas : list Structure) : io Structure :=
  if bool_decide (1 < length datas)%nat
  then match pd_concat datas with
       | Ok flat => io_ret flat
       | Raise TypeError => ([ConcatWarning], Ok (PyList datas))
       | Raise e => lift (Raise e)
       end
  else match datas with
       | data :: _ => io_ret data
       | [] => lift (Raise IndexError)
       end.

(** The second [try]: [results[ID_name] = func(flat, *args, **kwargs)]
    under a bare [except] that prints. The slot of [ID_name] is
    assigned only when [func] returns: otherwise it keeps the list
    [datas] of the first loop. *)
Definition finish_slot (func : Structure -> result Structure)
    (ID_name : Key) (datas : list Structure) (flat : Structure) : io Structure :=
  match func flat with
  | Ok v => io_ret v
  | Raise e => ([FinisherError ID_name e], Ok (PyList datas))
  end.

(** [for ID_name, datas in iteritems(results): ...] *)
Fixpoint finish (func : Structure -> result Structure)
    (results : list (Key * list Structure)) : io (list (Key * Structure)) :=
  match results with
  | [] => io_ret []
  | (ID_name, datas) :: rest =>
      flat ⇐ flatten datas;
      slot ⇐ finish_slot func ID_name datas flat;
      rest' ⇐ finish func rest;
      io_ret ((ID_name, slot) :: rest')
  end.

(** What [combine] returns: the mapping [results] itself, or one value. *)
Inductive Combined : Type :=
| Mapping (results : list (Key * Structure))
| Value (v : Structure).

Definition overlapThreshold : Q := 0.75%Q.

(** What [operator.attrgetter(attr)] finds on a result: an axis of a
    pandas structure, or, on a list, the bound method [list.index]. *)
Inductive attr_value : Type :=
| AxisAttr (ix : Index)
| MethodAttr.

Definition getter (attr : string) (df : Structure) : result attr_value :=
  match df with
  | Series index _ =>
      if decide (attr = "index") then Ok (AxisAttr index) else Raise AttributeError
  | DataFrame index columns _ =>
      if decide (attr = "index") then Ok (AxisAttr index)
      else if decide (attr = "columns") then Ok (AxisAttr columns)
      else Raise AttributeError
  | Panel items major_axis minor_axis _ =>
      if decide (attr = "items") then Ok (AxisAttr items)
      else if decide (attr = "major_axis") then Ok (AxisAttr major_axis)
      else if decide (attr = "minor_axis") then Ok (AxisAttr minor_axis)
      else Raise AttributeError
  | PyList _ =>
      if decide (attr = "index") then Ok MethodAttr else Raise AttributeError
  | _ => Raise AttributeError
  end.

(** [len(getter(df))] *)
Definition len_attr (v : attr_value) : result nat :=
  match v with
  | AxisAttr ix => Ok (length (labels ix))
  | MethodAttr => Raise TypeError
  end.

(** [colA.intersection(colB)] *)
Definition intersection (colA colB : attr_value) : result attr_value :=
  match colA, colB with
  | AxisAttr a, AxisAttr b => Ok (AxisAttr (Index_intersection a b))
  | _, _ => Raise AttributeError
  end.

Fixpoint mapM {A B} (f : A -> result B) (l : list A) : result (list B) :=
  match l with
  | [] => mret []
  | a :: l => b ← f a; bs ← mapM f l; mret (b :: bs)
  end.

(** [functools.reduce(f, xs)] with no initial value *)
Fixpoint reduce_from {A} (f : A -> A -> result A) (acc : A) (xs : list A) : result A :=
  match xs with
  | [] => mret acc
  | x :: xs => acc' ← f acc x; reduce_from f acc' xs
  end.

Definition reduce {A} (f : A -> A -> result A) (xs : list A) : result A :=
  match xs with
  | [] => Raise TypeError
  | x :: xs => reduce_from f x xs
  end.

(** [max(...)] of a sequence of lengths *)
Definition max_of (ns : list nat) : result nat :=
  match ns with
  | [] => Raise ValueError
  | n :: ns => Ok (foldl Nat.max n ns)
  end.

(** True division of two lengths. *)
Definition truediv (a b : nat) : result Q :=
  if decide (b = 0%nat) then Raise ZeroDivisionError
  else Ok (inject_Z (Z.of_nat a) / inject_Z (Z.of_nat b))%Q.

Definition percentIndexOverlap (attr : string) (results : list (Key * Structure))
  : result Q :=
  lens ← mapM (fun df => v ← getter attr df; len_attr v) (map snd results);
  longest ← max_of lens;
  columnsIter ← mapM (getter attr) (map snd results);
  mutualColumns ← reduce intersection columnsIter;
  n ← len_attr mutualColumns;
  truediv n longest.

(** [all(test(x) for x in xs)]: stops at the first false or raising test. *)
Fixpoint all_of {A} (test : A -> result bool) (xs : list A) : result bool :=
  match xs with
  | [] => mret true
  | x :: xs => b ← test x; if (b : bool) then all_of test xs else mret false
  end.

Definition is_time_scalar (data : Structure) : bool :=
  match data with
  | Timedelta _ | Timestamp _ | Period _ => true
  | _ => false
  end.

(** [df.index.dtype] *)
Definition index_dtype_of (df : Structure) : result dtype :=
  v ← getter "index" df;
  match v with
  | AxisAttr ix => Ok (index_dtype ix)
  | MethodAttr => Raise AttributeError
  end.

(** The part of [combine] after the two early returns: two results or
    more, merged by what the first of them is. *)
Definition merge (results : list (Key * Structure)) : result Combined :=
  match results with
  | [] => Raise (Exception "StopIteration")
  | (_, exampleResult) :: _ =>
      if forallb (fun kv => bool_decide (type_of (snd kv) = type_of exampleResult)) results
      then
        if np_isscalar exampleResult || is_time_scalar exampleResult
        then v ← pd_Series results; mret (Value v)
        else match exampleResult with
        | Series _ _ | PyList _ =>
            match (overlap ← percentIndexOverlap "index" results;
                   if Qle_bool overlapThreshold overlap
                   then pd_DataFrame_from_dict results
                   else pd_concat_dict results) with
            | Ok v => Ok (Value v)
            | Raise AttributeError => Ok (Mapping results)
            | Raise e => Raise e
            end
        | DataFrame _ _ _ =>
            columns ← percentIndexOverlap "columns" results;
            if Qle_bool overlapThreshold columns
            then
              rows ← percentIndexOverlap "index" results;
              if Qle_bool overlapThreshold rows
              then v ← pd_Panel_from_dict results; mret (Value v)
              else
                same ← all_of (fun df => a ← index_dtype_of df;
                                         b ← index_dtype_of exampleResult;
                                         mret (bool_decide (a = b)))
                              (map snd results);
                if (same : bool)
                then v ← pd_concat_dict results; mret (Value v)
                else mret (Mapping results)
            else mret (Mapping results)
        | Panel _ _ _ _ =>
            enough ← all_of (fun attr => overlap ← percentIndexOverlap attr results;
                                         mret (Qle_bool overlapThreshold overlap))
                            ["items"; "major_axis"; "minor_axis"];
            if (enough : bool)
            then v ← pd_Panel4D_from_dict results; mret (Value v)
            else mret (Mapping results)
        | _ => mret (Mapping results)
        end
      else mret (Mapping results)
  end.

Section Combine.

Variable P : Parser.

(** The per-identity results [combine] holds after its two loops. *)
Definition finished (ID : Key -> result Key) (func : Structure -> result Structure)
    (g : gen Pair) : io (list (Key * Structure)) :=
  results ⇐ bucket ID g [];
  finish func results.

(** [combine(self, func, into, ID, *args, **kwargs)]; [ID_arg] is
    [None] when the caller gives no identity function. The object is
    returned as [__iter__] leaves it. *)
Definition combine (self : Accessor)
    (func : Structure -> list Structure -> Kwargs -> result Structure)
    (into : Structure) (ID_arg : option (Key -> result Key))
    (args : list Structure) (kwargs : Kwargs) : Accessor * io Combined :=
  let ID := match ID_arg with None => ID | Some f => f end in
  match __iter__ P self with
  | Raise e => (self, lift (Raise e))
  | Ok (self, g) =>
      (self,
       results ⇐ finished ID (fun flat => func flat args kwargs) g;
       match results with
       | [] => io_ret (Mapping results)
       | [(key, result)] => io_ret (Value result)
       | _ => lift (merge results)
       end)
  end.

End Combine.

End Engine.

(** ** A small runtime to run the engine on

    Payloads with just enough behaviour to evaluate the engine:
    sequences have a [size] attribute and can be indexed by an integer,
    nothing can be called, [pd.concat] appends Series and refuses
    anything else with a [TypeError]. *)
Module Toy.

Definition str_of (k : Key) : string :=
  match k with
  | KEntry e => path e
  | KStr s => s
  | KInt _ => "int"
  | KTuple elems => foldr String.append "" elems
  end.

Definition getattr (data : Structure) (attr : string) : result Structure :=
  if decide (attr = "size") then
    match data with
    | PyList elems | PyTuple elems => Ok (PyInt (Z.of_nat (length elems)))
    | Series _ cells => Ok (PyInt (Z.of_nat (length cells)))
    | _ => Raise AttributeError
    end
  else Raise AttributeError.

Definition getitem (data : Structure) (index : list Structure) : result Structure :=
  match data, index with
  | (PyList elems | PyTuple elems), [PyInt i] =>
      match elems !! Z.to_nat i with
      | Some v => Ok v
      | None => Raise IndexError
      end
  | _, _ => Raise TypeError
  end.

Definition call (data : Structure) (args : list Structure) (kwargs : Kwargs)
  : result Structure := Raise TypeError.

Fixpoint append_series (ix : Index) (cells : list Z) (datas : list Structure)
  : result Structure :=
  match datas with
  | [] => Ok (Series ix cells)
  | Series ix' cells' :: datas =>
      append_series (mkIndex (labels ix ++ labels ix') (index_dtype ix))
                    (cells ++ cells') datas
  | _ => Raise TypeError
  end.

Definition concat (datas : list Structure) : result Structure :=
  match datas with
  | [] => Raise ValueError
  | Series ix cells :: datas => append_series ix cells datas
  | _ => Raise TypeError
  end.

Definition keys_index (results : list (Key * Structure)) : Index :=
  mkIndex (map (fun kv => str_of (fst kv)) results) object_.

Definition cell_of (data : Structure) : Z :=
  match data with PyInt z => z | _ => 0 end.

Definition cells_of (data : Structure) : list Z :=
  match data with Series _ cells => cells | _ => [] end.

Definition frame_of (data : Structure) : list (list Z) :=
  match data with DataFrame _ _ cells => cells | _ => [] end.

Definition intersect (a b : Index) : Index :=
  mkIndex (filter (fun x => x ∈ labels b) (labels a)) (index_dtype a).

#[export] Instance runtime : Runtime := {|
  py_getattr := getattr;
  py_getitem := getitem;
  py_call := call;
  pd_concat := concat;
  pd_concat_dict results := concat (map snd results);
  pd_Series results := Ok (Series (keys_index results) (map (fun kv => cell_of (snd kv)) results));
  pd_DataFrame_from_dict results :=
    Ok (DataFrame (mkIndex [] object_) (keys_index results)
                  (map (fun kv => cells_of (snd kv)) results));
  pd_Panel_from_dict results :=
    Ok (Panel (keys_index results) (mkIndex [] object_) (mkIndex [] object_)
              (map (fun kv => frame_of (snd kv)) results));
  pd_Panel4D_from_dict results :=
    Ok (Panel4D (keys_index results) (mkIndex [] object_) (mkIndex [] object_)
                (mkIndex [] object_));
  Index_intersection := intersect;
|}.

(** Three records of two sites. *)
Definition e1 : Entry :=
  mkEntry {[ "site" := "A"; "year" := "2001" ]} "A2001.txt".
Definition e2 : Entry :=
  mkEntry {[ "site" := "A"; "year" := "2002" ]} "A2002.txt".
Definition e3 : Entry :=
  mkEntry {[ "site" := "B"; "year" := "2001" ]} "B2001.txt".

(** A record whose path gives a day but no month. *)
Definition e_day : Entry := mkEntry {[ "day" := "05" ]} "05.txt".

(** A parser without state: the year of the record as an integer
    series of one cell, and no data for a record without a year. *)
Definition year_of (entry : Entry) : result Structure :=
  match fields entry !! "year" with
  | Some "2001" => Ok (Series (mkIndex [path entry] object_) [2001])
  | Some "2002" => Ok (Series (mkIndex [path entry] object_) [2002])
  | _ => Raise (Exception "no year")
  end.

Definition parser : Parser := {|
  State := unit;
  parse := year_of;
  parse_with entry s := (year_of entry, s);
  prepareState _ _ _ := Ok None;
|}.

(** An accessor as [__init__] leaves it, over a record source that
    holds [entries]. *)
Definition accessor (entries : list Entry) : Accessor :=
  mkAccessor (fun _ _ _ => Ok entries) [] [] None [] None None.

(** A parser that gives the year as a plain integer, which
    [pd.concat] does not concatenate. *)
Definition year_int (entry : Entry) : result Structure :=
  match fields entry !! "year" with
  | Some "2001" => Ok (PyInt 2001)
  | Some "2002" => Ok (PyInt 2002)
  | _ => Raise (Exception "no year")
  end.

Definition ints : Parser := {|
  State := unit;
  parse := year_int;
  parse_with entry s := (year_int entry, s);
  prepareState _ _ _ := Ok None;
|}.

(** A parser that gives one table per site; the two tables share their
    rows and three of their four columns. *)
Definition table_A : Structure :=
  DataFrame (mkIndex ["r1"; "r2"] int64) (mkIndex ["c1"; "c2"; "c3"; "c4"] object_)
            [[1; 2; 3; 4]; [5; 6; 7; 8]].

Definition table_B : Structure :=
  DataFrame (mkIndex ["r1"; "r2"] int64) (mkIndex ["c1"; "c2"; "c3"; "c5"] object_)
            [[0; 0; 0; 0]; [1; 1; 1; 1]].

Definition table_of (entry : Entry) : result Structure :=
  match fields entry !! "site" with
  | Some "A" => Ok table_A
  | Some "B" => Ok table_B
  | _ => Raise (Exception "no site")
  end.

Definition tables : Parser := {|
  State := unit;
  parse := table_of;
  parse_with entry s := (table_of entry, s);
  prepareState _ _ _ := Ok None;
|}.

(** The default finishing function of [combine], [lambda x: x]. *)
Definition unchanged (flat : Structure) (args : list Structure) (kwargs : Kwargs)
  : result Structure := Ok flat.

(** A finishing function that refuses the data of the year 2002. *)
Definition no_2002 (flat : Structure) (args : list Structure) (kwargs : Kwargs)
  : result Structure :=
  match flat with
  | Series _ [2002] => Raise (Exception "2002")
  | _ => Ok flat
  end.

(** The key function of [group("site")]. *)
Definition by_site (e : Key) : result Key :=
  v ← key_getattr e "site"; mret (KStr v).

(** String keys in lexicographic order. *)
Definition key_le (a b : Key) : Prop :=
  match a, b with
  | KStr x, KStr y => String.leb x y = true
  | _, _ => a = b
  end.

(** A parser with a state, the number of records parsed so far, which
    it gives as the data of the record. *)
Definition counting : Parser := {|
  State := nat;
  parse entry := Ok (PyInt 0);
  parse_with entry s := (Ok (PyInt (Z.of_nat s)), S s);
  prepareState _ _ _ := Ok (Some 0%nat);
|}.

(** A parser whose [parse] returns [None] for every record. *)
Definition none_of (entry : Entry) : result Structure := Ok PyNone.

Definition nones : Parser := {|
  State := unit;
  parse := none_of;
  parse_with entry s := (none_of entry, s);
  prepareState _ _ _ := Ok None;
|}.

(** [pd.concat] on objects that are all [None]: [ValueError]. *)
Definition concat_not_none (datas : list Structure) : result Structure :=
  if forallb (fun data => bool_decide (type_of data = TNoneType)) datas
  then Raise ValueError
  else concat datas.

(** The runtime above, with that [pd.concat]. *)
Definition with_none_check : Runtime := {|
  py_getattr := getattr;
  py_getitem := getitem;
  py_call := call;
  pd_concat := concat_not_none;
  pd_concat_dict results := concat_not_none (map snd results);
  pd_Series := pd_Series (Runtime := runtime);
  pd_DataFrame_from_dict := pd_DataFrame_from_dict (Runtime := runtime);
  pd_Panel_from_dict := pd_Panel_from_dict (Runtime := runtime);
  pd_Panel4D_from_dict := pd_Panel4D_from_dict (Runtime := runtime);
  Index_intersection := intersect;
|}.

End Toy.

(** * The vocabulary of the properties *)

Section Vocabulary.

Context {rt : Runtime}.

(** ** Building a pipeline *)

(** A call that appends a stage to the chain. *)
Inductive StageCall : Type :=
| GetAttr (attr : string)
| GetItem (index : list Structure)
| Call (args : list Structure) (kwargs : Kwargs)
| Group (groups : list GroupArg).

Definition append_stage (self : Accessor) (c : StageCall) : result Accessor :=
  match c with
  | GetAttr attr => Ok (__getattr__ self attr)
  | GetItem index => Ok (__getitem__ self index)
  | Call args kwargs => Ok (__call__ self args kwargs)
  | Group groups => group self groups
  end.

(** The calls [calls] made one after the other on [self]. *)
Fixpoint build (self : Accessor) (calls : list StageCall) : result Accessor :=
  match calls with
  | [] => Ok self
  | c :: calls => self' ← append_stage self c; build self' calls
  end.

Definition is_group (c : StageCall) : bool :=
  match c with Group _ => true | _ => false end.

(** The operation of a stage that is not a grouping stage. *)
Definition op_of (c : StageCall) : Structure -> result Structure :=
  match c with
  | GetAttr attr => fun data => py_getattr data attr
  | GetItem index => fun data => py_getitem data index
  | Call args kwargs => fun data => py_call data args kwargs
  | Group _ => fun data => Ok data
  end.

(** ** Observations of a run *)

(** What a stage makes of one observation of the iterator it reads: a
    report passes through, a pair is transformed or reported. *)
Definition stage_obs (op : Structure -> result Structure) (o : obs Pair) : obs Pair :=
  match o with
  | Logged ev => Logged ev
  | Item (entry, data) =>
      match op data with
      | Ok v => Item (entry, v)
      | Raise e => Logged (StageError entry e data)
      end
  end.

(** One observation taken through the stages [ops], first to last. *)
Definition through (ops : list (Structure -> result Structure)) (o : obs Pair)
  : obs Pair :=
  foldl (fun o op => stage_obs op o) o ops.

Section Parsed.

Variable P : Parser.

(** What [parse] gives for each located entry, in the words of the
    specification: [parse] applied to that record. When a state has
    been prepared it is [parse] applied to the record and the state,
    as the records before it have left it. *)
Fixpoint parsed_from (s : State P) (entries : list Entry)
  : list (Entry * result Structure) :=
  match entries with
  | [] => []
  | entry :: rest =>
      (entry, fst (parse_with P entry s))
      :: parsed_from (snd (parse_with P entry s)) rest
  end.

Definition parsed (state : option (State P)) (entries : list Entry)
  : list (Entry * result Structure) :=
  match state with
  | None => map (fun entry => (entry, parse P entry)) entries
  | Some s => parsed_from s entries
  end.

(** What [iterate] makes of one call of [parse]. *)
Definition parse_obs (er : Entry * result Structure) : obs Pair :=
  match snd er with
  | Ok data => Item (KEntry (fst er), data)
  | Raise e => Logged (ParseError (path (fst er)) e)
  end.

(** A second use of the pipeline object yields nothing: after a first
    [__iter__], whatever a further [__iter__] returns is a generator
    that yields no pair. *)
Definition second_iteration_is_empty (self : Accessor) : Prop :=
  forall self1 g1 self2 g2,
    __iter__ P self = Ok (self1, g1) ->
    __iter__ P self1 = Ok (self2, g2) ->
    items (consume g2) = [].

End Parsed.

(** ** Cancellation *)

(** The exception a report is about. *)
Definition exn_of (ev : event) : option exn :=
  match ev with
  | ParseError _ e => Some e
  | StageError _ e _ => Some e
  | ConcatWarning => None
  | FinisherError _ e => Some e
  end.

(** Every report a generator can make, however it is resumed. *)
Fixpoint reports {A} (g : gen A) : list event :=
  match g with
  | Stop => []
  | Throw _ => []
  | Write ev k => ev :: reports k
  | Yield _ next close => reports next ++ reports close
  end.

(** Wherever the generator is suspended, [close()] makes
    [GeneratorExit] leave it at once. *)
Fixpoint cancels {A} (g : gen A) : Prop :=
  match g with
  | Stop => True
  | Throw _ => True
  | Write _ k => cancels k
  | Yield _ next close => close = Throw GeneratorExit /\ cancels next
  end.

(** A generator is tidy when [close()] ends it at once wherever it is
    suspended and none of its reports is about [GeneratorExit]. *)
Definition tidy {A} (g : gen A) : Prop :=
  cancels g /\ Forall (fun ev => exn_of ev <> Some GeneratorExit) (reports g).

(** ** Adjacent runs *)

(** The runs of adjacent pairs with equal keys of a keyed sequence;
    [run] is the run being collected. *)
Fixpoint runs_from (run : option (Key * list Structure))
    (keyed : list (Key * Structure)) : list (Key * list Structure) :=
  match keyed with
  | [] =>
      match run with
      | None => []
      | Some r => [r]
      end
  | (k, data) :: rest =>
      match run with
      | None => runs_from (Some (k, [data])) rest
      | Some (key, datas) =>
          if decide (key = k)
          then runs_from (Some (key, datas ++ [data])) rest
          else (key, datas) :: runs_from (Some (k, [data])) rest
      end
  end.

Definition adjacent_runs (keyed : list (Key * Structure)) : list (Key * list Structure) :=
  runs_from None keyed.

(** The pairs of a run, each under the key of the run. *)
Definition expand (r : Key * list Structure) : list (Key * Structure) :=
  map (pair (fst r)) (snd r).

(** No two neighbours of the list are equal. *)
Inductive distinct_neighbours : list Key -> Prop :=
| dn_nil : distinct_neighbours []
| dn_one k : distinct_neighbours [k]
| dn_cons k1 k2 ks :
    k1 <> k2 -> distinct_neighbours (k2 :: ks) -> distinct_neighbours (k1 :: k2 :: ks).

(** ** Concatenation failures of the grouping stage *)

(** A concatenation failure never makes the grouping stage raise: over
    an iterator that ends normally and a key function that returns on
    every pair, the stage ends normally, and every run of more than one
    Structure whose concatenation fails is yielded as the tuple of its
    Structures. *)
Definition concat_failure_gives_tuple (groupFunc : Key -> result Key) (g : gen Pair)
  : Prop :=
  forall keyed : list (Key * Structure),
    raised (consume g) = None ->
    Forall2 (fun p kd => groupFunc (fst p) = Ok (fst kd) /\ snd kd = snd p)
            (items (consume g)) keyed ->
    raised (consume (do_group groupFunc g)) = None /\
    Forall2 (fun r o =>
               fst o = fst r /\
               ((1 < length (snd r))%nat -> is_Ok (pd_concat (snd r)) = false ->
                snd o = PyTuple (snd r)))
            (adjacent_runs keyed) (items (consume (do_group groupFunc g))).

(** ** Overlap of the labels of an axis *)

Definition columns_of (df : Structure) : Index :=
  match df with
  | DataFrame _ columns _ => columns
  | _ => mkIndex [] object_
  end.

Definition index_of (df : Structure) : Index :=
  match df with
  | DataFrame index _ _ => index
  | _ => mkIndex [] object_
  end.

(** The size of the largest of the axes. *)
Definition largest (axes : list Index) : nat :=
  max_list (map (fun ix => length (labels ix)) axes).

(** The labels common to all the axes. *)
Definition mutual (axes : list Index) : Index :=
  match axes with
  | [] => mkIndex [] object_
  | a :: rest => foldl Index_intersection a rest
  end.

(** The overlap fraction, in the words of the specification: the size
    of the intersection of the labels of the axis across all results,
    divided by the size of the largest single result's labels. *)
Definition overlap_fraction (axes : list Index) : Q :=
  (inject_Z (Z.of_nat (length (labels (mutual axes))))
   / inject_Z (Z.of_nat (largest axes)))%Q.

(** ** The mapping of [combine] *)

(** The identity [name] is absent from the mapping [combine] returns. *)
Definition slot_absent (run : io Combined) (name : Key) : Prop :=
  forall evs results, run = (evs, Ok (Mapping results)) -> name ∉ map fst results.

(** The slot [r] the two loops of [combine] leave for the bucket [b]:
    under the same identity, what [func] returned for the flattened
    Structures of the bucket, or, when [func] raised, the list of these
    Structures as it was, the failure being among the reports [evs]. *)
Definition slot_after (func : Structure -> result Structure) (evs : list event)
    (b : Key * list Structure) (r : Key * Structure) : Prop :=
  fst r = fst b /\
  exists evs1 flat,
    flatten (snd b) = (evs1, Ok flat) /\
    match func flat with
    | Ok v => snd r = v
    | Raise e => snd r = PyList (snd b) /\ FinisherError (fst b) e ∈ evs
    end.

End Vocabulary.

(** * More of the accessor

    The construction of an accessor ([AccessorMetaclass.__new__],
    [Accessor.__init__]), the methods a subclass inherits, the state
    the NVSPL parser prepares, and the calls of the engine on the
    functions of the shipped parsers ([parsers.py]). *)

(** ** Keyword dictionaries *)

(** [d.get(k)] on the keywords of a call, kept in their order. *)
Fixpoint dict_get (d : Kwargs) (k : string) : option Structure :=
  match d with
  | [] => None
  | (k', v) :: d => if decide (k' = k) then Some v else dict_get d k
  end.

(** What is left of [d] after [d.pop(k)]. *)
Definition dict_pop (d : Kwargs) (k : string) : Kwargs :=
  filter (fun kv => fst kv <> k) d.

(** [d[k] = v] *)
Fixpoint dict_set (d : Kwargs) (k : string) (v : Structure) : Kwargs :=
  match d with
  | [] => [(k, v)]
  | (k', v') :: d =>
      if decide (k' = k) then (k, v) :: d else (k', v') :: dict_set d k v
  end.

(** [{ kwarg: filters.pop(kwarg) for kwarg in kwargs if kwarg in filters }]:
    the dictionary built, key after key from [params], and what is left
    of [filters]. *)
Fixpoint pop_params_into (params : Kwargs) (kwargs : list string) (filters : Kwargs)
  : Kwargs * Kwargs :=
  match kwargs with
  | [] => (params, filters)
  | kwarg :: kwargs =>
      match dict_get filters kwarg with
      | Some v => pop_params_into (dict_set params kwarg v) kwargs (dict_pop filters kwarg)
      | None => pop_params_into params kwargs filters
      end
  end.

Definition pop_params (kwargs : list string) (filters : Kwargs) : Kwargs * Kwargs :=
  pop_params_into [] kwargs filters.

(** ** [AccessorMetaclass.__new__] *)

(** What [inspect.getargspec] tells of a function: the names of its
    parameters and the defaults of the last of them ([None] when no
    parameter has a default). *)
Record ArgSpec : Type := mkArgSpec {
  spec_args : list string;
  spec_defaults : option (list Structure);
}.

(** The entries of the class body the metaclass reads. For
    [prepareState] it is what [inspect.getargspec] makes of the entry:
    the signature of a Python function, or the exception the call
    raises ([TypeError] on what is not a Python function, [ValueError]
    on a signature it does not describe). *)
Record ClassDict : Type := mkClassDict {
  dct_endpointName : option string;
  dct_prepareState : option (result ArgSpec);
  dct_doc : option string;
}.

(** The class the metaclass makes: [_prepareStateKwargs] is set on
    subclasses only. *)
Record AccessorClass : Type := mkClass {
  cls_name : string;
  endpointName : option string;
  cls_doc : option string;
  _prepareStateKwargs : option (list string);
}.

(** [args[-len(defaults):]] *)
Definition last_args (args : list string) (defaults : list Structure) : list string :=
  if decide (length defaults = 0%nat) then args
  else drop (length args - length defaults) args.

(** [s[1:-1]] *)
Definition strip_ends (s : string) : string :=
  String.substring 1 (String.length s - 2) s.

(** The signature of [Accessor.__init__]. *)
Definition init_argspec : ArgSpec :=
  mkArgSpec ["self"; "ds"; "n"; "items"; "sort"] (Some [PyNone; PyNone; PyNone]).

Section Metaclass.

(** [inspect.formatargspec(args, None, None, defaults)],
    [inspect.cleandoc] and the filling of [subclassDocTemplate] with
    the endpoint name, the docstring of the subclass, the class name
    and the formatted keyword arguments. *)
Variable formatargspec : list string -> list Structure -> string.
Variable cleandoc : string -> string.
Variable fill_template : string -> string -> string -> string -> string.

(** The keyword arguments of [prepareState], formatted and listed. *)
Definition prepareState_kwargs (dct : ClassDict) (clsname : string)
  : result (string * list string) :=
  match dct_prepareState dct with
  | Some getargspec =>
      prepareArgspec ← getargspec;
      match spec_defaults prepareArgspec with
      | Some defaults =>
          let initKwargs :=
            last_args (spec_args init_argspec)
                      (default [] (spec_defaults init_argspec)) in
          let prepareStateKwargs := last_args (spec_args prepareArgspec) defaults in
          if existsb (fun reserved => bool_decide (reserved ∈ prepareStateKwargs))
                     initKwargs
          then Raise TypeError
          else Ok (" " +:+ strip_ends (formatargspec prepareStateKwargs defaults) +:+ ",",
                   prepareStateKwargs)
      | None => Ok ("", [])
      end
  | None => Ok ("", [])
  end.

Definition metaclass_new (clsname : string) (dct : ClassDict) : result AccessorClass :=
  if decide (clsname <> "Accessor")
  then
    match dct_endpointName dct with
    | None => Raise NotImplementedError
    | Some name =>
        '(prepareStateArgspec, prepareStateKwargs) ← prepareState_kwargs dct clsname;
        let newdoc :=
          fill_template name (cleandoc (default "" (dct_doc dct))) clsname
                        prepareStateArgspec in
        mret (mkClass clsname (Some name) (Some newdoc) (Some prepareStateKwargs))
    end
  else mret (mkClass clsname (dct_endpointName dct) (dct_doc dct) None).

End Metaclass.

(** ** [Accessor.__init__] *)

(** An endpoint of the dataset: what calling it returns, and its
    fields. *)
Record EndpointObject : Type := mkEndpointObject {
  ep_call : Endpoint;
  ep_fields : list string;
}.

(** An [iyore.Dataset]: [getattr(ds, name)], [None] when the dataset
    has no such attribute. *)
Definition Dataset : Type := string -> option EndpointObject.

Section Init.

(** [items.columns.intersection(endpoint.fields)] and
    [paramColumns.iterrows()], when [items] is a DataFrame. *)
Variable columns_intersection : Index -> list string -> Index.
Variable Index_iterrows : Index -> result Structure.

Definition __init__ (cls : AccessorClass) (ds : Dataset) (n : option nat)
    (items : option Structure) (sort : option SortSpec) (filters : Kwargs)
  : result Accessor :=
  endpoint ←
    match endpointName cls with
    | None => Raise TypeError
    | Some name =>
        match ds name with
        | Some endpoint => Ok endpoint
        | None => Raise ValueError
        end
    end;
  filters ←
    match items with
    | None => Ok filters
    | Some (DataFrame _ columns _) =>
        let paramColumns := columns_intersection columns (ep_fields endpoint) in
        items ← Index_iterrows paramColumns;
        mret (dict_set filters "items" items)
    | Some items => Ok (dict_set filters "items" items)
    end;
  kwargs ←
    match _prepareStateKwargs cls with
    | Some kwargs => Ok kwargs
    | None => Raise AttributeError
    end;
  let '(params, filters) := pop_params kwargs filters in
  mret (mkAccessor (ep_call endpoint) filters params sort [] n None).

End Init.

(** ** What a subclass inherits *)

(** [Accessor.parse] and [Accessor.prepareState], for a subclass that
    overrides neither. *)
Definition Accessor_parse (entry : Entry) : result Structure :=
  Raise NotImplementedError.

Definition Accessor_prepareState (endpoint : Endpoint) (endpointParams kwargs : Kwargs)
  : result (option Structure) := Ok None.

Definition inherited : Parser := {|
  State := Structure;
  parse := Accessor_parse;
  parse_with entry state := (Accessor_parse entry, state);
  prepareState := Accessor_prepareState;
|}.

(** ** [NVSPL.prepareState] *)

(** [isinstance(column, basestring)] *)
Definition is_basestring_value (column : Structure) : bool :=
  match column with PyStr _ => true | _ => false end.

(** [isinstance(column, int)]: a bool is an int. *)
Definition is_int_value (column : Structure) : bool :=
  match column with PyInt _ | PyBool _ => true | _ => false end.

(** The value of an int. *)
Definition int_value (column : Structure) : Z :=
  match column with
  | PyInt z => z
  | PyBool true => 1
  | _ => 0
  end.

(** [x in columns], for a list of ints. *)
Definition int_in (x : Z) (columns : list Structure) : bool :=
  existsb (fun column => bool_decide (int_value column = x)) columns.

(** [s in columns], for a list of strings. *)
Definition str_in (s : string) (columns : list Structure) : bool :=
  existsb (fun column => match column with
                        | PyStr s' => bool_decide (s' = s)
                        | _ => false
                        end) columns.

(** [columns.sort()] on ints: a stable sort. *)
Fixpoint insert_int (x : Structure) (sorted : list Structure) : list Structure :=
  match sorted with
  | [] => [x]
  | y :: rest =>
      if bool_decide (int_value x <= int_value y)
      then x :: y :: rest
      else y :: insert_int x rest
  end.

Definition sort_ints (columns : list Structure) : list Structure :=
  foldr insert_int [] columns.

(** [columns.index(x)] on ints *)
Fixpoint int_index (x : Z) (columns : list Structure) : result nat :=
  match columns with
  | [] => Raise ValueError
  | column :: rest =>
      if bool_decide (int_value column = x) then Ok 0%nat
      else i ← int_index x rest; mret (S i)
  end.

(** The state is the tuple [(timestamps, columns, index_index)]. The
    function looks at [columns] only; what its other parameters are
    bound to is left open. *)
Definition NVSPL_prepareState {E P T : Type} (endpoint : E) (endpointParams : P)
    (timestamps : option T) (columns : option (list Structure))
  : result (option T * option (list Structure) * nat) :=
  let index_index := 1%nat in
  match columns with
  | Some columns =>
      if forallb is_basestring_value columns
      then
        let columns :=
          if negb (str_in "STime" columns) then PyStr "STime" :: columns else columns in
        let index_index := 0%nat in
        mret (timestamps, Some columns, index_index)
      else if forallb is_int_value columns
      then
        let columns :=
          if negb (int_in 1 columns) then sort_ints (PyInt 1 :: columns) else columns in
        index_index ← int_index 1 columns;
        mret (timestamps, Some columns, index_index)
      else Raise TypeError
  | None => mret (timestamps, None, index_index)
  end.

(** ** The calls of the engine on the shipped parsers *)

(** What the engine passes in its calls of [parse] and [prepareState]:
    the accessor itself, its endpoint, a located record, the
    dictionary of filters, a value given by the user or a default, and
    the state [prepareState] returned. *)
Inductive Arg : Type :=
| ArgInstance
| ArgEndpoint (endpoint : Endpoint)
| ArgEntry (entry : Entry)
| ArgFilters (filters : Kwargs)
| ArgData (v : Structure)
| ArgState.

(** [d.get(k)] *)
Fixpoint lookup_keyword (keywords : list (string * Arg)) (k : string) : option Arg :=
  match keywords with
  | [] => None
  | (k', v) :: keywords => if decide (k' = k) then Some v else lookup_keyword keywords k
  end.

(** The value the [i]-th parameter of a function gets in a call
    [f] with the arguments [positional] and the keyword arguments [keywords], for a function that takes neither
    [*args] nor [**kwargs]: [TypeError] when it is given by position
    and by keyword, and when it is not given and has no default. The
    defaults are those of the last parameters. *)
Definition bind_param (spec : ArgSpec) (positional : list Arg)
    (keywords : list (string * Arg)) (i : nat) (param : string) : result Arg :=
  let defaults := default [] (spec_defaults spec) in
  let first_default := (length (spec_args spec) - length defaults)%nat in
  match positional !! i with
  | Some v => if decide (param ∈ map fst keywords) then Raise TypeError else Ok v
  | None =>
      match lookup_keyword keywords param with
      | Some v => Ok v
      | None =>
          if decide (first_default <= i)%nat
          then match defaults !! (i - first_default)%nat with
               | Some v => Ok (ArgData v)
               | None => Raise TypeError
               end
          else Raise TypeError
      end
  end.

(** The binding of the arguments of the call to the parameters:
    [TypeError] also for more positional arguments than parameters and
    for a keyword that names no parameter. *)
Definition bind_call (spec : ArgSpec) (positional : list Arg)
    (keywords : list (string * Arg)) : result (list (string * Arg)) :=
  let params := spec_args spec in
  if decide (length params < length positional)%nat then Raise TypeError
  else if forallb (fun kv : string * Arg => bool_decide (fst kv ∈ params)) keywords
  then mapM (fun '(i, param) =>
               v ← bind_param spec positional keywords i param; mret (param, v))
            (imap pair params)
  else Raise TypeError.

(** A call [self.f] with the arguments [args] and the keyword arguments
    [keywords], for a function [f] found on the class: the instance is
    the first positional argument. *)
Definition method_call (spec : ArgSpec) (args : list Arg)
    (keywords : list (string * Arg)) : result (list (string * Arg)) :=
  bind_call spec (ArgInstance :: args) keywords.

(** The signatures of the functions the shipped subclasses define. *)
Definition NVSPL_parse_argspec : ArgSpec :=
  mkArgSpec ["nvsplFileEntry"; "state"] (Some [PyTuple [PyNone; PyNone; PyInt 1]]).

Definition NVSPL_prepareState_argspec : ArgSpec :=
  mkArgSpec ["endpoint"; "endpointParams"; "timestamps"; "columns"] (Some [PyNone; PyNone]).

Definition SRCID_parse_argspec : ArgSpec := mkArgSpec ["entry"] None.

Definition LoudEvents_parse_argspec : ArgSpec := mkArgSpec ["entry"] None.

(** The body of the class [NVSPL], as the metaclass reads it. *)
Definition NVSPL_dict (doc : option string) : ClassDict :=
  mkClassDict (Some "nvspl") (Some (Ok NVSPL_prepareState_argspec)) doc.

Section Shipped.

(** A subclass whose [parse] has the signature [parse_spec]. What the
    function does once its arguments are bound is left open: it works
    on pandas structures read from a file. *)
Variable St : Type.
Variable parse_spec : ArgSpec.
Variable parse_body : list (string * Arg) -> result Structure.
Variable parse_body_with : list (string * Arg) -> St -> result Structure * St.

(** [self.parse(entry)] *)
Definition called_parse (entry : Entry) : result Structure :=
  bound ← method_call parse_spec [ArgEntry entry] [];
  parse_body bound.

(** [self.parse(entry, state= state)] *)
Definition called_parse_with (entry : Entry) (state : St) : result Structure * St :=
  match method_call parse_spec [ArgEntry entry] [("state", ArgState)] with
  | Ok bound => parse_body_with bound state
  | Raise e => (Raise e, state)
  end.

Definition shipped (prepare : Endpoint -> Kwargs -> Kwargs -> result (option St))
  : Parser := {|
  State := St;
  parse := called_parse;
  parse_with := called_parse_with;
  prepareState := prepare;
|}.

End Shipped.

(** The state of an NVSPL accessor. *)
Definition NVSPL_State : Type := (option Arg * option (list Structure) * nat)%type.

Section NVSPLCalled.

(** What [NVSPL.prepareState] makes of a [columns] that is neither
    [None] nor a list is left open; the tuple is the only thing the
    function returns, and it never assigns [timestamps]. *)
Variable other_columns : Arg -> result (option (list Structure) * nat).

(** The call of [self.prepareState] in [__iter__], on an NVSPL
    accessor: [self._endpoint] and [self._filters] by position,
    [self._prepareStateParams] by keyword. *)
Definition NVSPL_called_prepareState (endpoint : Endpoint) (filters params : Kwargs)
  : result (option NVSPL_State) :=
  bound ← method_call NVSPL_prepareState_argspec [ArgEndpoint endpoint; ArgFilters filters]
                      (map (fun kv => (fst kv, ArgData (snd kv))) params);
  match bound with
  | [(_, endpoint); (_, endpointParams); (_, timestamps); (_, columns)] =>
      let timestamps :=
        match timestamps with ArgData PyNone => None | _ => Some timestamps end in
      state ←
        match columns with
        | ArgData PyNone => NVSPL_prepareState endpoint endpointParams timestamps None
        | ArgData (PyList columns) =>
            NVSPL_prepareState endpoint endpointParams timestamps (Some columns)
        | _ =>
            '(columns, index_index) ← other_columns columns;
            mret (timestamps, columns, index_index)
        end;
      mret (Some state)
  | _ => Raise TypeError
  end.

(** An NVSPL accessor. *)
Definition NVSPL_parser
    (parse_body : list (string * Arg) -> result Structure)
    (parse_body_with : list (string * Arg) -> NVSPL_State -> result Structure * NVSPL_State)
  : Parser :=
  shipped NVSPL_State NVSPL_parse_argspec parse_body parse_body_with
          NVSPL_called_prepareState.

End NVSPLCalled.

(** ** More vocabulary *)

(** The identities of [names] that are not among [seen], each once, in
    the order in which they first come. *)
Fixpoint first_seen (seen : list Key) (names : list Key) : list Key :=
  match names with
  | [] => []
  | name :: names =>
      if decide (name ∈ seen) then first_seen seen names
      else name :: first_seen (seen ++ [name]) names
  end.

(** The filters [__init__] splits: the keyword arguments it is given,
    with [items] among them when it is given. *)
Definition given_filters (items : option Structure) (filters : Kwargs) : Kwargs :=
  match items with
  | None => filters
  | Some items => dict_set filters "items" items
  end.

(** The order of [columns.sort()] on ints. *)
Definition by_value (a b : Structure) : Prop := int_value a <= int_value b.

(** The keyword arguments of [Accessor.__init__]. *)
Definition reserved_keywords : list string := ["n"; "items"; "sort"].

(** Two per-pair operations, one after the other. *)
Definition and_then (op1 op2 : Structure -> result Structure) (data : Structure)
  : result Structure :=
  v ← op1 data; op2 v.

(** The value of a field of a record, the empty string when the record
    has no such field. *)
Definition field_or_empty (key : Entry) (name : string) : string :=
  default "" (fields key !! name).

(** The label of a record: unit, site and year run together, then the
    month after a space, the day after a dash, and the hour after a
    space and before a colon; a space is there only when something
    stands before it. *)
Definition has_head (key : Entry) : bool :=
  in_fields "unit" key || in_fields "site" key || in_fields "year" key.

Definition label (key : Entry) : string :=
  field_or_empty key "unit" +:+ field_or_empty key "site" +:+ field_or_empty key "year"
  +:+ (if in_fields "month" key
       then (if has_head key then " " else "") +:+ field_or_empty key "month"
       else "")
  +:+ (if in_fields "day" key then "-" +:+ field_or_empty key "day" else "")
  +:+ (if in_fields "hour" key
       then (if has_head key || in_fields "month" key || in_fields "day" key
             then " " else "")
            +:+ field_or_empty key "hour" +:+ ":"
       else "").

(** The buckets of the first loop of [combine] after the pairs
    [named], each under its identity, have been appended to [acc]. *)
Definition bucketed (acc : list (Key * list Structure)) (named : list (Key * Structure))
  : list (Key * list Structure) :=
  foldl (fun acc nd => dict_append acc (fst nd) (snd nd)) acc named.

(** The axis of a pandas structure that the attribute [attr] names. *)
Definition axis_of (attr : string) (df : Structure) : Index :=
  match getter attr df with
  | Ok (AxisAttr ix) => ix
  | _ => mkIndex [] object_
  end.

(** The types [combine] merges nothing of. *)
Definition unmerged (t : PyType) : bool :=
  match t with
  | TNoneType | TTuple | TPanel4D | TObject _ => true
  | _ => false
  end.

(** What [combine] makes of the call that merges Series: the result,
    or the mapping itself on an [AttributeError]. *)
Definition or_mapping (results : list (Key * Structure)) (r : result Structure)
  : result Combined :=
  match r with
  | Ok v => Ok (Value v)
  | Raise AttributeError => Ok (Mapping results)
  | Raise e => Raise e
  end.

(** The arguments of the last [group] call among [calls], if any. *)
Fixpoint last_group (calls : list StageCall) : option (list GroupArg) :=
  match calls with
  | [] => None
  | c :: calls =>
      match last_group calls with
      | Some groups => Some groups
      | None => match c with Group groups => Some groups | _ => None end
      end
  end.

(** ** More sample data *)

Module Samples.

Import Toy.

(** A key function that gives the site of a record and fails on the
    records of the year 2002. *)
Definition site_until_2002 (e : Key) : result Key :=
  year ← key_getattr e "year";
  if decide (year = "2002") then Raise KeyError else by_site e.

(** Two finishing functions: one returns [None], one always raises. *)
Definition to_none (flat : Structure) (args : list Structure) (kwargs : Kwargs)
  : result Structure := Ok PyNone.

Definition refuse (flat : Structure) (args : list Structure) (kwargs : Kwargs)
  : result Structure := Raise (Exception "refused").

(** A parser that gives one cube per site, all with the same axes. *)
Definition panel_A : Structure :=
  Panel (mkIndex ["above"; "all"] object_) (mkIndex ["d1"] datetime64)
        (mkIndex ["0"; "1"] int64) [[[1; 2]]; [[3; 4]]].

Definition panel_B : Structure :=
  Panel (mkIndex ["above"; "all"] object_) (mkIndex ["d1"] datetime64)
        (mkIndex ["0"; "1"] int64) [[[0; 0]]; [[5; 5]]].

Definition panel_of (entry : Entry) : result Structure :=
  match fields entry !! "site" with
  | Some "A" => Ok panel_A
  | Some "B" => Ok panel_B
  | _ => Raise (Exception "no site")
  end.

Definition panels : Parser := {|
  State := unit;
  parse := panel_of;
  parse_with entry s := (panel_of entry, s);
  prepareState _ _ _ := Ok None;
|}.

(** A parser that gives a table of one row and no column. *)
Definition bare_of (entry : Entry) : result Structure :=
  Ok (DataFrame (mkIndex [path entry] object_) (mkIndex [] object_) [[]]).

Definition bares : Parser := {|
  State := unit;
  parse := bare_of;
  parse_with entry s := (bare_of entry, s);
  prepareState _ _ _ := Ok None;
|}.

(** A dataset with one endpoint, [nvspl], that holds three records. *)
Definition nvspl_endpoint : EndpointObject :=
  mkEndpointObject (fun _ _ _ => Ok [e1; e2; e3]) ["site"; "year"].

Definition dataset : Dataset :=
  fun name => if decide (name = "nvspl") then Some nvspl_endpoint else None.

(** Stand-ins for the formatting of the docstring. *)
Definition formatargspec (args : list string) (defaults : list Structure) : string :=
  "(" +:+ String.concat ", " args +:+ ")".

Definition cleandoc (doc : string) : string := doc.

Definition fill_template (endpointName doc clsname argspec : string) : string :=
  endpointName +:+ "(ds, n=None, items=None, sort=None," +:+ argspec +:+ " **filters)".

(** The columns of [items] that are fields of the endpoint; an Index
    has no [iterrows]. *)
Definition columns_intersection (columns : Index) (fields : list string) : Index :=
  mkIndex (filter (fun c => c ∈ fields) (labels columns)) (index_dtype columns).

Definition Index_iterrows (columns : Index) : result Structure := Raise AttributeError.

(** The filters of a call [NVSPL(ds, site= "A", columns= ["dbA"])]. *)
Definition site_and_columns : Kwargs :=
  [("site", PyStr "A"); ("columns", PyList [PyStr "dbA"])].

(** The class [NVSPL] as the metaclass leaves it, its docstring apart. *)
Definition NVSPL_class : AccessorClass :=
  mkClass "NVSPL" (Some "nvspl") None (Some ["timestamps"; "columns"]).

(** The series the parser [Toy.parser] reads from the three records. *)
Definition series_A2001 : Structure := Series (mkIndex ["A2001.txt"] object_) [2001].
Definition series_A2002 : Structure := Series (mkIndex ["A2002.txt"] object_) [2002].
Definition series_B2001 : Structure := Series (mkIndex ["B2001.txt"] object_) [2001].

(** Stand-ins for what the model leaves open. *)
Definition unread (bound : list (string * Arg)) : result Structure :=
  Raise (Exception "unread").

Definition unread_with {St : Type} (bound : list (string * Arg)) (state : St)
  : result Structure * St := (Raise (Exception "unread"), state).

Definition rejected (columns : Arg) : result (option (list Structure) * nat) :=
  Raise TypeError.

End Samples.

(** * Properties *)

Section Runs.

Context {rt : Runtime}.

(** ** Runs of the stages *)

Lemma consume_per_pair (op : Structure -> result Structure) (g : gen Pair) :
  (forall data, op data <> Raise GeneratorExit) ->
  consume (per_pair op g)
  = mkOutcome (map (stage_obs op) (trace (consume g))) (raised (consume g)).
Proof.
  intros Hop. induction g as [| e | ev k IH | [entry data] next IHn close _]; simpl.
  - reflexivity.
  - reflexivity.
  - rewrite IH. reflexivity.
  - specialize (Hop data).
    destruct (op data) as [v | e] eqn:E; [| destruct e]; simpl;
      try congruence; rewrite IHn; reflexivity.
Qed.

Lemma consume_stages (calls : list StageCall) (g : gen Pair) :
  (forall c data, c ∈ calls -> op_of c data <> Raise GeneratorExit) ->
  consume (fold_left (fun iterate do => do iterate)
                     (map (fun c => per_pair (op_of c)) calls) g)
  = mkOutcome (map (through (map op_of calls)) (trace (consume g)))
              (raised (consume g)).
Proof.
  revert g. induction calls as [| c calls IH]; intros g Hop; simpl.
  - unfold through. simpl. rewrite map_id. by destruct (consume g).
  - rewrite IH; [| intros c' d Hc'; apply Hop; by right].
    rewrite consume_per_pair; [| intros d; apply Hop; by left].
    simpl. by rewrite map_map.
Qed.

(** A chain built without [group] is the list of its per-pair stages;
    nothing else of the object changes. *)
Lemma build_per_pair (calls : list StageCall) (self : Accessor) :
  Forall (fun c => is_group c = false) calls ->
  build self calls
  = Ok (set_chain self (_chain self ++ map (fun c => per_pair (op_of c)) calls)).
Proof.
  revert self. induction calls as [| c calls IH]; intros self H; simpl.
  - rewrite app_nil_r. by destruct self.
  - apply Forall_cons in H as [Hc H].
    destruct c; simpl in Hc; try discriminate; simpl; rewrite (IH _ H);
      simpl; by rewrite <- app_assoc.
Qed.

Section Parsed.

Variable P : Parser.

(** The engine's calls are those of the specification: without a
    state [self.parse(entry)], with one [self.parse(entry, state=
    state)]. *)
Lemma parsed_cons state entry rest :
  parsed P state (entry :: rest)
  = (entry, fst (call_parse P state entry))
    :: parsed P (snd (call_parse P state entry)) rest.
Proof.
  destruct state as [s |]; [| reflexivity].
  cbn [parsed parsed_from call_parse]. by destruct (parse_with P entry s).
Qed.

Lemma parsed_nil state : parsed P state [] = [].
Proof. by destruct state. Qed.

Lemma parsed_entries state entries : map fst (parsed P state entries) = entries.
Proof.
  revert state. induction entries as [| entry rest IH]; intros state.
  - by rewrite parsed_nil.
  - rewrite parsed_cons. cbn [map fst]. by rewrite IH.
Qed.

Lemma parsed_length state entries :
  length (parsed P state entries) = length entries.
Proof.
  rewrite <- (parsed_entries state entries) at 2. by rewrite length_map.
Qed.

Lemma parsed_stateless entries :
  parsed P None entries = map (fun entry => (entry, parse P entry)) entries.
Proof. reflexivity. Qed.

Lemma consume_iterate state entries :
  Forall (fun er => snd er <> Raise GeneratorExit) (parsed P state entries) ->
  consume (iterate P state entries)
  = mkOutcome (map parse_obs (parsed P state entries)) None.
Proof.
  revert state. induction entries as [| entry rest IH]; intros state.
  - by rewrite parsed_nil.
  - rewrite parsed_cons. cbn [iterate].
    destruct (call_parse P state entry) as [r state']. cbn [fst snd]. intros H.
    apply Forall_cons in H as [Hr H]. simpl in Hr.
    destruct r as [data | e]; [| destruct e]; simpl; try congruence;
      rewrite (IH _ H); reflexivity.
Qed.

(** When every call of [parse] returns, each observation is a pair. *)
Lemma parse_obs_all_ok (l : list (Entry * result Structure)) :
  Forall (fun er => is_Ok (snd er) = true) l ->
  exists pairs : list Pair,
    map parse_obs l = map Item pairs /\
    map fst pairs = map (fun er => KEntry (fst er)) l /\
    map (fun p => Ok (snd p)) pairs = map snd l.
Proof.
  induction l as [| [entry r] l IH]; intros H.
  - by exists [].
  - apply Forall_cons in H as [Hr H]. destruct (IH H) as (pairs & E1 & E2 & E3).
    destruct r as [data | e]; [| discriminate].
    exists ((KEntry entry, data) :: pairs). simpl.
    unfold parse_obs at 1. simpl. by rewrite E1, E2, E3.
Qed.

(** C1. Direct iteration of a pipeline with no stage: when no call of
    [parse] raises, the run yields exactly one pair per located record,
    in the order of the record source, nothing is reported, no
    exception leaves the run, and the Structure of each pair is what
    [parse] returns for its record: with no state, [parse] of the
    record alone; with a prepared state, [parse] of the record and the
    state as the records before it have left it. *)
Theorem iter_one_pair_per_record
    (self : Accessor) (state : option (State P)) (entries : list Entry) :
  _chain self = [] ->
  prepareState P (_endpoint self) (_filters self) (_prepareStateParams self) = Ok state ->
  _endpoint self (_sort self) (_n self) (_filters self) = Ok entries ->
  Forall (fun er => is_Ok (snd er) = true) (parsed P state entries) ->
  exists (self' : Accessor) (g : gen Pair) (pairs : list Pair),
    __iter__ P self = Ok (self', g) /\
    consume g = mkOutcome (map Item pairs) None /\
    length pairs = length entries /\
    map fst pairs = map KEntry entries /\
    map (fun p => Ok (snd p)) pairs = map snd (parsed P state entries) /\
    (state = None -> map (fun p => Ok (snd p)) pairs = map (parse P) entries) /\
    (forall s, state = Some s ->
       map (fun p => Ok (snd p)) pairs = map snd (parsed_from P s entries)).
Proof.
  intros Hchain Hstate Hentries Hok.
  destruct (parse_obs_all_ok _ Hok) as (pairs & E1 & E2 & E3).
  exists (set_progbar self (Some entries)), (iterate P state entries), pairs.
  assert (Hfst : map fst pairs = map KEntry entries).
  { rewrite E2, <- (map_map fst KEntry). by rewrite parsed_entries. }
  repeat split.
  - unfold __iter__. rewrite Hstate, Hentries. simpl. by rewrite Hchain.
  - rewrite consume_iterate, E1; [done |].
    eapply Forall_impl; [exact Hok |]. intros [? r] Hr. simpl in *.
    destruct r; [congruence | discriminate].
  - apply (f_equal length) in Hfst. by rewrite !length_map in Hfst.
  - exact Hfst.
  - exact E3.
  - intros ->. rewrite E3, parsed_stateless. by rewrite map_map.
  - intros s ->. exact E3.
Qed.

Lemma through_logged ops ev : through ops (Logged ev) = Logged (A:=Pair) ev.
Proof. induction ops as [| op ops IH]; [done |]. exact IH. Qed.

Lemma trace_accounts {A} (t : list (obs A)) :
  (length (omap item_of t) + length (omap event_of t) = length t)%nat.
Proof. induction t as [| [ev | a] t IH]; csimpl; lia. Qed.

Lemma parse_obs_one_failure (l : list (Entry * result Structure)) :
  (length (omap item_of (map parse_obs l))
   + length (filter (fun er => is_Ok (snd er) = false) l) = length l)%nat.
Proof.
  induction l as [| [entry r] l IH]; [done |].
  rewrite filter_cons. destruct r as [data | e].
  - change (omap item_of (map parse_obs ((entry, Ok data) :: l)))
      with ((KEntry entry, data) :: omap item_of (map parse_obs l)).
    rewrite decide_False by (simpl; discriminate). cbn [length]. lia.
  - change (omap item_of (map parse_obs ((entry, Raise e) :: l)))
      with (omap item_of (map parse_obs l)).
    rewrite decide_True by done. cbn [length]. lia.
Qed.

(** C2. A pipeline whose stages are attribute-get, index and call
    stages: when what [parse] and the stages' operations raise is never
    the cancellation signal, no exception leaves the run, and each
    located record gives exactly one observation, in order: its pair,
    taken through every stage, or the report of the one failure that
    skipped it. A failing [parse] is reported with the path of its
    record. Each stage isolates the failures of its operation whatever
    the iterator it reads. With no stage and exactly one failing
    [parse], the run yields [length entries - 1] pairs and reports one
    failure. Without a state, every record on which [parse] raises is
    reported, and with no stage the pairs yielded are those of the
    other records, each with what [parse] returned for it, in
    order. *)
Theorem failures_skip_one_record
    (self0 : Accessor) (calls : list StageCall)
    (state : option (State P)) (entries : list Entry) :
  _chain self0 = [] ->
  Forall (fun c => is_group c = false) calls ->
  prepareState P (_endpoint self0) (_filters self0) (_prepareStateParams self0) = Ok state ->
  _endpoint self0 (_sort self0) (_n self0) (_filters self0) = Ok entries ->
  Forall (fun er => snd er <> Raise GeneratorExit) (parsed P state entries) ->
  (forall c data, c ∈ calls -> op_of c data <> Raise GeneratorExit) ->
  exists (self self' : Accessor) (g : gen Pair),
    build self0 calls = Ok self /\
    __iter__ P self = Ok (self', g) /\
    raised (consume g) = None /\
    trace (consume g)
    = map (fun er => through (map op_of calls) (parse_obs er)) (parsed P state entries) /\
    (length (items (consume g)) + length (events (consume g)) = length entries)%nat /\
    (forall entry e, (entry, Raise e) ∈ parsed P state entries ->
                     ParseError (path entry) e ∈ events (consume g)) /\
    (forall c (upstream : gen Pair), c ∈ calls ->
       consume (per_pair (op_of c) upstream)
       = mkOutcome (map (stage_obs (op_of c)) (trace (consume upstream)))
                   (raised (consume upstream))) /\
    (calls = [] ->
     length (filter (fun er => is_Ok (snd er) = false) (parsed P state entries)) = 1%nat ->
     length (items (consume g)) = (length entries - 1)%nat /\
     length (events (consume g)) = 1%nat) /\
    (state = None ->
     (forall entry e, entry ∈ entries -> parse P entry = Raise e ->
                      ParseError (path entry) e ∈ events (consume g)) /\
     (calls = [] ->
      items (consume g)
      = omap (fun entry => match parse P entry with
                           | Ok data => Some (KEntry entry, data)
                           | Raise _ => None
                           end) entries)).
Proof.
  intros Hchain Hcalls Hstate Hentries Hparse Hops.
  set (stages := map (fun c => per_pair (op_of c)) calls).
  set (g := fold_left (fun iterate do => do iterate) stages (iterate P state entries)).
  exists (set_chain self0 stages), (set_progbar (set_chain self0 stages) (Some entries)), g.
  assert (Hrun : consume g
                 = mkOutcome (map (fun er => through (map op_of calls) (parse_obs er))
                                  (parsed P state entries)) None).
  { unfold g, stages. rewrite consume_stages by exact Hops.
    rewrite consume_iterate by exact Hparse. simpl. by rewrite map_map. }
  assert (Hlen : (length (items (consume g)) + length (events (consume g))
                  = length entries)%nat).
  { unfold items, events. rewrite trace_accounts, Hrun. simpl.
    by rewrite length_map, parsed_length. }
  assert (Hreported : forall entry e, (entry, Raise e) ∈ parsed P state entries ->
                                      ParseError (path entry) e ∈ events (consume g)).
  { intros entry e Hin. unfold events. rewrite Hrun. simpl.
    apply list_elem_of_omap. exists (Logged (ParseError (path entry) e)).
    split; [| done]. apply list_elem_of_fmap.
    exists (entry, Raise e). split; [| done].
    unfold parse_obs. simpl. by rewrite through_logged. }
  split; [| split; [| split; [| split; [| split; [| split; [| split; [| split]]]]]]].
  - rewrite build_per_pair by exact Hcalls. by rewrite Hchain.
  - unfold __iter__. simpl. by rewrite Hstate, Hentries.
  - by rewrite Hrun.
  - by rewrite Hrun.
  - exact Hlen.
  - exact Hreported.
  - intros c upstream Hc. apply consume_per_pair. intros data. by apply Hops.
  - intros -> Hone.
    assert (Hitems : (length (items (consume g)) + 1 = length entries)%nat).
    { unfold items. rewrite Hrun. simpl.
      rewrite <- Hone, <- (parsed_length state entries).
      exact (parse_obs_one_failure (parsed P state entries)). }
    lia.
  - intros Hnone. split.
    + intros entry e Hin He. apply Hreported. rewrite Hnone, parsed_stateless.
      apply list_elem_of_fmap. exists entry. by rewrite He.
    + intros Hno. unfold items. rewrite Hrun, Hnone, Hno, parsed_stateless. simpl.
      clear. induction entries as [| entry rest IH]; [done |].
      cbn [map]. unfold parse_obs at 1. cbn [fst snd].
      destruct (parse P entry) as [data | e] eqn:E; csimpl; rewrite E; by rewrite IH.
Qed.

End Parsed.

End Runs.

(** ** Cancellation *)

Section Cancellation.

Context {rt : Runtime}.

Lemma tidy_stop {A} : tidy (@Stop A).
Proof. by split. Qed.

Lemma tidy_throw {A} e : tidy (@Throw A e).
Proof. by split. Qed.

Lemma tidy_write {A} ev (k : gen A) :
  exn_of ev <> Some GeneratorExit -> tidy k -> tidy (Write ev k).
Proof. intros Hev [Hc Hr]. split; [exact Hc |]. by constructor. Qed.

Lemma tidy_yield {A} (a : A) next :
  tidy next -> tidy (Yield a next (Throw GeneratorExit)).
Proof.
  intros [Hc Hr]. split; [by split |]. simpl. by rewrite app_nil_r.
Qed.

Lemma tidy_inv_write {A} ev (k : gen A) : tidy (Write ev k) -> tidy k.
Proof. intros [Hc Hr]. split; [exact Hc |]. by apply Forall_cons in Hr as [_ Hr]. Qed.

Lemma tidy_inv_yield {A} (a : A) next close :
  tidy (Yield a next close) -> close = Throw GeneratorExit /\ tidy next.
Proof.
  intros [[Hclose Hc] Hr]. split; [exact Hclose |]. split; [exact Hc |].
  simpl in Hr. by apply Forall_app in Hr as [Hr _].
Qed.

Lemma cancels_close_after {A} (g : gen A) n c :
  cancels g -> close_after n g = Some c -> c = Throw GeneratorExit.
Proof.
  revert n. induction g as [| e | ev k IH | a next IHn close _]; intros n; simpl.
  - discriminate.
  - discriminate.
  - apply IH.
  - intros [Hclose Hnext]. destruct n as [| n].
    + intros [= <-]. exact Hclose.
    + by apply IHn.
Qed.

Lemma stage_error_not_cancel entry e data :
  e <> GeneratorExit -> exn_of (StageError entry e data) <> Some GeneratorExit.
Proof. intros He [= ->]. by apply He. Qed.

Lemma per_pair_tidy op (g : gen Pair) : tidy g -> tidy (per_pair op g).
Proof.
  induction g as [| e | ev k IH | [entry data] next IHn close _]; simpl; intros H.
  - exact H.
  - exact H.
  - destruct H as [Hc Hr]. apply Forall_cons in Hr as [Hev Hr].
    apply tidy_write; [exact Hev |]. by apply IH.
  - apply tidy_inv_yield in H as [-> Hnext]. simpl.
    destruct (op data) as [v | e].
    + apply tidy_yield. by apply IHn.
    + destruct (decide (e = GeneratorExit)) as [-> | He]; [apply tidy_throw |].
      assert (tidy (Write (StageError entry e data) (per_pair op next))).
      { apply tidy_write; [by apply stage_error_not_cancel | by apply IHn]. }
      by destruct e.
Qed.

Lemma emit_group_tidy key datas (next : gen Pair) :
  tidy next ->
  tidy (emit_group key datas next Stop) /\
  tidy (emit_group key datas next (Throw GeneratorExit)).
Proof.
  intros Hnext. unfold emit_group.
  destruct (concat_maybe datas) as [v | e]; simpl;
    split; (apply tidy_yield; exact Hnext) || apply tidy_throw.
Qed.

Lemma group_runs_tidy groupFunc (g : gen Pair) :
  tidy g -> forall run, tidy (group_runs groupFunc run g).
Proof.
  induction g as [| e | ev k IH | [entry data] next IHn close _]; simpl; intros H run.
  - destruct run as [[key datas] |]; [| apply tidy_stop].
    apply emit_group_tidy, tidy_stop.
  - exact H.
  - destruct H as [Hc Hr]. apply Forall_cons in Hr as [Hev Hr].
    apply tidy_write; [exact Hev |]. by apply IH.
  - apply tidy_inv_yield in H as [-> Hnext].
    destruct (groupFunc entry) as [k | e]; [| apply tidy_throw].
    destruct run as [[key datas] |]; [| by apply IHn].
    case_decide; [by apply IHn |].
    apply emit_group_tidy. by apply IHn.
Qed.

(** Every stage a builder call appends keeps generators tidy. *)
Lemma build_tidy (calls : list StageCall) (self self' : Accessor) :
  build self calls = Ok self' ->
  Forall (fun do => forall g, tidy g -> tidy (do g)) (_chain self) ->
  Forall (fun do => forall g, tidy g -> tidy (do g)) (_chain self').
Proof.
  revert self. induction calls as [| c calls IH]; intros self; simpl.
  - by intros [= ->].
  - destruct (append_stage self c) as [self1 |] eqn:E; [| discriminate].
    simpl. intros Hb Hself. apply (IH _ Hb). clear IH Hb.
    destruct c; simpl in E.
    + injection E as <-. simpl. apply Forall_app. split; [exact Hself |].
      apply Forall_singleton. intros g. apply per_pair_tidy.
    + injection E as <-. simpl. apply Forall_app. split; [exact Hself |].
      apply Forall_singleton. intros g. apply per_pair_tidy.
    + injection E as <-. simpl. apply Forall_app. split; [exact Hself |].
      apply Forall_singleton. intros g. apply per_pair_tidy.
    + unfold group in E. destruct (groupFunc_of groups) as [groupFunc |]; [| discriminate].
      simpl in E. injection E as <-. simpl. apply Forall_app. split; [exact Hself |].
      apply Forall_singleton. intros g Hg. by apply group_runs_tidy.
Qed.

Lemma chain_tidy (chain : list (gen Pair -> gen Pair)) (g : gen Pair) :
  Forall (fun do => forall g, tidy g -> tidy (do g)) chain ->
  tidy g -> tidy (fold_left (fun iterate do => do iterate) chain g).
Proof.
  revert g. induction chain as [| do chain IH]; intros g Hchain Hg; simpl.
  - exact Hg.
  - apply Forall_cons in Hchain as [Hdo Hchain]. apply IH; [exact Hchain |].
    by apply Hdo.
Qed.

Section Parsed.

Variable P : Parser.

Lemma iterate_tidy state entries : tidy (iterate P state entries).
Proof.
  revert state. induction entries as [| entry rest IH]; intros state; simpl.
  - apply tidy_stop.
  - destruct (call_parse P state entry) as [r state'].
    destruct r as [data | e].
    + apply tidy_yield, IH.
    + destruct (decide (e = GeneratorExit)) as [-> | He]; [apply tidy_throw |].
      assert (tidy (Write (ParseError (path entry) e) (iterate P state' rest))).
      { apply tidy_write; [| apply IH]. intros [= ->]. by apply He. }
      by destruct e.
Qed.

(** A [GeneratorExit] that [parse] raises leaves [iterate]. *)
Lemma iterate_cancelled state entries :
  Exists (fun er => snd er = Raise GeneratorExit) (parsed P state entries) ->
  raised (consume (iterate P state entries)) = Some GeneratorExit.
Proof.
  revert state. induction entries as [| entry rest IH]; intros state.
  - rewrite parsed_nil. intros H. by apply Exists_nil in H.
  - rewrite parsed_cons. cbn [iterate].
    destruct (call_parse P state entry) as [r state']. cbn [fst snd]. intros H.
    apply Exists_cons in H. simpl in H.
    destruct r as [data | e]; [| destruct e]; simpl; try done;
      destruct H as [H | H]; try discriminate; by apply IH.
Qed.

(** C5. Whatever the stages of the chain, grouping stages included:
    wherever the caller stops and closes the generator, the
    [GeneratorExit] raised at the [yield] leaves the generator at once,
    with no report on the way and every stage below closed in the same
    way; no report of the run is ever about [GeneratorExit]; and a
    [GeneratorExit] raised by [parse] itself ends the run of a chain of
    attribute-get, index and call stages as the exception the caller
    receives. *)
Theorem cancellation_propagates
    (self0 : Accessor) (calls : list StageCall) (self : Accessor)
    (state : option (State P)) (entries : list Entry) :
  _chain self0 = [] ->
  build self0 calls = Ok self ->
  prepareState P (_endpoint self) (_filters self) (_prepareStateParams self) = Ok state ->
  _endpoint self (_sort self) (_n self) (_filters self) = Ok entries ->
  exists (self' : Accessor) (g : gen Pair),
    __iter__ P self = Ok (self', g) /\
    (forall n c, close_after n g = Some c -> c = Throw GeneratorExit) /\
    Forall (fun ev => exn_of ev <> Some GeneratorExit) (reports g) /\
    (Forall (fun c => is_group c = false) calls ->
     (forall c data, c ∈ calls -> op_of c data <> Raise GeneratorExit) ->
     Exists (fun er => snd er = Raise GeneratorExit) (parsed P state entries) ->
     raised (consume g) = Some GeneratorExit).
Proof.
  intros Hchain Hbuild Hstate Hentries.
  set (g := fold_left (fun iterate do => do iterate) (_chain self)
                      (iterate P state entries)).
  exists (set_progbar self (Some entries)), g.
  assert (Htidy : tidy g).
  { apply chain_tidy; [| apply iterate_tidy].
    apply (build_tidy calls self0 self Hbuild). rewrite Hchain. constructor. }
  split; [| split; [| split]].
  - unfold __iter__. by rewrite Hstate, Hentries.
  - intros n c. apply cancels_close_after, Htidy.
  - apply Htidy.
  - intros Hcalls Hops Hparse. unfold g.
    rewrite (build_per_pair calls self0 Hcalls) in Hbuild.
    injection Hbuild as <-. simpl. rewrite Hchain. simpl.
    rewrite consume_stages by exact Hops. simpl.
    by apply iterate_cancelled.
Qed.

End Parsed.

End Cancellation.

(** ** Adjacent runs *)

Section AdjacentRuns.

Lemma runs_from_head key datas keyed :
  exists ds rest, runs_from (Some (key, datas)) keyed = (key, ds) :: rest.
Proof.
  revert key datas. induction keyed as [| [k d] keyed IH]; intros key datas; simpl.
  - by exists datas, [].
  - case_decide; [apply IH |]. by exists datas, (runs_from (Some (k, [d])) keyed).
Qed.

(** The runs, laid end to end, are the sequence itself. *)
Lemma runs_from_expand key datas keyed :
  flat_map expand (runs_from (Some (key, datas)) keyed)
  = map (pair key) datas ++ keyed.
Proof.
  revert key datas. induction keyed as [| [k d] keyed IH]; intros key datas; simpl.
  - reflexivity.
  - case_decide as E.
    + subst k. rewrite IH, map_app, <- app_assoc. reflexivity.
    + simpl. rewrite IH. reflexivity.
Qed.

Lemma adjacent_runs_expand keyed : flat_map expand (adjacent_runs keyed) = keyed.
Proof.
  unfold adjacent_runs. destruct keyed as [| [k d] keyed]; simpl; [done |].
  by rewrite runs_from_expand.
Qed.

Lemma runs_from_nonempty key datas keyed :
  datas <> [] ->
  Forall (fun r => snd r <> []) (runs_from (Some (key, datas)) keyed).
Proof.
  revert key datas. induction keyed as [| [k d] keyed IH]; intros key datas H; simpl.
  - by constructor.
  - case_decide.
    + apply IH. by destruct datas.
    + constructor; [exact H |]. by apply IH.
Qed.

Lemma adjacent_runs_nonempty keyed :
  Forall (fun r => snd r <> []) (adjacent_runs keyed).
Proof.
  unfold adjacent_runs. destruct keyed as [| [k d] keyed]; simpl; [constructor |].
  by apply runs_from_nonempty.
Qed.

(** The runs are maximal: two runs that follow each other differ in
    their key. *)
Lemma runs_from_distinct key datas keyed :
  distinct_neighbours (map fst (runs_from (Some (key, datas)) keyed)).
Proof.
  revert key datas. induction keyed as [| [k d] keyed IH]; intros key datas; simpl.
  - constructor.
  - case_decide as E; [apply IH |].
    specialize (IH k [d]).
    destruct (runs_from_head k [d] keyed) as (ds & rest & Hhead).
    rewrite Hhead in *. simpl in *. by constructor.
Qed.

Lemma adjacent_runs_distinct keyed :
  distinct_neighbours (map fst (adjacent_runs keyed)).
Proof.
  unfold adjacent_runs. destruct keyed as [| [k d] keyed]; simpl; [constructor |].
  apply runs_from_distinct.
Qed.

Lemma runs_from_keys key datas keyed x :
  x ∈ map fst (runs_from (Some (key, datas)) keyed) ->
  x = key \/ x ∈ map fst keyed.
Proof.
  revert key datas. induction keyed as [| [k d] keyed IH]; intros key datas; simpl.
  - intros H. apply list_elem_of_singleton in H. by left.
  - case_decide as E.
    + intros H. destruct (IH _ _ H) as [-> | H']; [by left |]. right. by right.
    + intros H. apply elem_of_cons in H as [-> | H]; [by left |].
      destruct (IH _ _ H) as [-> | H']; right; [by left | by right].
Qed.

(** On a sequence sorted by its key, no key has two runs. *)
Lemma runs_from_sorted (le : Key -> Key -> Prop) key datas keyed :
  (forall a b, le a b -> le b a -> a = b) ->
  StronglySorted le (key :: map fst keyed) ->
  NoDup (map fst (runs_from (Some (key, datas)) keyed)).
Proof.
  intros Hanti. revert key datas.
  induction keyed as [| [k d] keyed IH]; intros key datas Hs; simpl.
  - apply NoDup_singleton.
  - apply StronglySorted_inv in Hs as [Hs Hkey]. simpl in Hs, Hkey.
    apply StronglySorted_inv in Hs as Hs'. destruct Hs' as [Hs' Hk].
    apply Forall_cons in Hkey as [Hkk Hkey].
    case_decide as E.
    + apply IH. by constructor.
    + simpl. constructor; [| by apply IH].
      intros Hin. apply runs_from_keys in Hin as [-> | Hin]; [done |].
      apply E, Hanti; [exact Hkk |].
      rewrite Forall_forall in Hk. by apply Hk.
Qed.

Lemma adjacent_runs_sorted (le : Key -> Key -> Prop) keyed :
  (forall a b, le a b -> le b a -> a = b) ->
  StronglySorted le (map fst keyed) ->
  NoDup (map fst (adjacent_runs keyed)).
Proof.
  intros Hanti Hs. unfold adjacent_runs.
  destruct keyed as [| [k d] keyed]; simpl; [constructor |].
  by apply (runs_from_sorted le).
Qed.

Lemma filter_expand (k : Key) (r : Key * list Structure) :
  filter (fun kd => fst kd = k) (expand r)
  = if decide (fst r = k) then expand r else [].
Proof.
  destruct r as [k' ds]. unfold expand. simpl.
  induction ds as [| d ds IH]; simpl.
  - by case_decide.
  - rewrite filter_cons, IH. simpl. by case_decide.
Qed.

Lemma filter_other_runs (k : Key) (runs : list (Key * list Structure)) :
  k ∉ map fst runs ->
  filter (fun kd => fst kd = k) (flat_map expand runs) = [].
Proof.
  induction runs as [| r runs IH]; simpl; [done |]. intros H.
  apply not_elem_of_cons in H as [Hr H].
  rewrite filter_app, filter_expand, decide_False by done. by apply IH.
Qed.

Lemma snd_expand (r : Key * list Structure) : map snd (expand r) = snd r.
Proof. unfold expand. rewrite map_map. simpl. apply map_id. Qed.

(** When no key has two runs, the run of a key holds every Structure
    of that key, in the order of the sequence. *)
Lemma run_is_filter (runs : list (Key * list Structure)) k ds :
  NoDup (map fst runs) ->
  (k, ds) ∈ runs ->
  map snd (filter (fun kd => fst kd = k) (flat_map expand runs)) = ds.
Proof.
  induction runs as [| r runs IH]; simpl; intros Hnd Hin.
  - by apply elem_of_nil in Hin.
  - apply NoDup_cons in Hnd as [Hr Hnd]. rewrite filter_app, filter_expand.
    apply elem_of_cons in Hin as [<- | Hin].
    + simpl. rewrite decide_True by done.
      rewrite filter_other_runs by exact Hr. rewrite app_nil_r.
      apply (snd_expand (k, ds)).
    + rewrite decide_False.
      * simpl. by apply IH.
      * intros E. apply Hr. rewrite E.
        apply list_elem_of_fmap. by exists (k, ds).
Qed.

(** Reading on from any point, the run of the next pair is collected
    under that pair's key. *)
Lemma runs_from_app run l1 k a rest :
  exists pre ds,
    runs_from run (l1 ++ (k, a) :: rest) = pre ++ runs_from (Some (k, ds)) rest.
Proof.
  revert run. induction l1 as [| [k0 d0] l1 IH]; intros run; simpl.
  - destruct run as [[key datas] |].
    + case_decide as E.
      * subst. by exists [], (datas ++ [a]).
      * by exists [(key, datas)], [a].
    + by exists [], [a].
  - destruct run as [[key datas] |].
    + case_decide as E; [apply IH |].
      destruct (IH (Some (k0, [d0]))) as (pre & ds & ->).
      by exists ((key, datas) :: pre), ds.
    + apply IH.
Qed.

(** A key that comes back after another key has two runs. *)
Lemma runs_from_split k ds l2 b l3 c :
  c ∈ l2 -> fst c <> k ->
  exists ds1 mid ds2 post,
    runs_from (Some (k, ds)) (l2 ++ (k, b) :: l3)
    = (k, ds1) :: mid ++ (k, ds2) :: post.
Proof.
  revert ds. induction l2 as [| [k0 d0] l2 IH]; intros ds Hin Hne; simpl.
  - by apply elem_of_nil in Hin.
  - case_decide as E.
    + apply IH; [| exact Hne].
      apply elem_of_cons in Hin as [-> | Hin]; [| exact Hin].
      simpl in Hne. by subst.
    + destruct (runs_from_app (Some (k0, [d0])) l2 k b l3) as (pre & ds' & ->).
      destruct (runs_from_head k ds' l3) as (ds2 & post & ->).
      by exists ds, pre, ds2, post.
Qed.

Lemma adjacent_runs_split k a b l1 l2 l3 c :
  c ∈ l2 -> fst c <> k ->
  exists pre ds1 mid ds2 post,
    adjacent_runs (l1 ++ (k, a) :: l2 ++ (k, b) :: l3)
    = pre ++ (k, ds1) :: mid ++ (k, ds2) :: post.
Proof.
  intros Hin Hne. unfold adjacent_runs.
  destruct (runs_from_app None l1 k a (l2 ++ (k, b) :: l3)) as (pre & ds & ->).
  destruct (runs_from_split k ds l2 b l3 c Hin Hne) as (ds1 & mid & ds2 & post & ->).
  by exists pre, ds1, mid, ds2, post.
Qed.

End AdjacentRuns.

(** ** The grouping stage *)

Section Grouping.

Context {rt : Runtime}.

Lemma items_item {A} (a : A) (r : outcome A) :
  items (observe (Item a) r) = a :: items r.
Proof. reflexivity. Qed.

Lemma items_logged {A} ev (r : outcome A) :
  items (observe (Logged ev) r) = items r.
Proof. reflexivity. Qed.

Lemma concat_maybe_single data : concat_maybe [data] = Ok data.
Proof. reflexivity. Qed.

Lemma concat_maybe_concat datas v :
  length datas <> 1%nat -> pd_concat datas = Ok v -> concat_maybe datas = Ok v.
Proof.
  intros Hlen E. unfold concat_maybe. rewrite E.
  destruct datas as [| d [| d' datas]]; try done.
Qed.

Lemma concat_maybe_tuple datas :
  (1 < length datas)%nat -> pd_concat datas = Raise TypeError ->
  concat_maybe datas = Ok (PyTuple datas).
Proof.
  intros Hlen E. unfold concat_maybe. rewrite E.
  destruct datas as [| d [| d' datas]]; simpl in Hlen; try lia; done.
Qed.

(** [concat_maybe] raises only what [pd.concat] raises that is not a
    [TypeError]. *)
Lemma concat_maybe_total datas :
  (forall e, pd_concat datas = Raise e -> e = TypeError) ->
  is_Ok (concat_maybe datas) = true.
Proof.
  intros H. unfold concat_maybe.
  destruct datas as [| d [| d' datas]]; try done;
    (destruct (pd_concat _) as [v | e]; [done |]);
    by rewrite (H e eq_refl).
Qed.

(** The run of the grouping stage over an iterator that ends
    normally: one pair per adjacent run, in order. *)
Lemma consume_group_runs groupFunc (g : gen Pair) :
  raised (consume g) = None ->
  forall run keyed,
    Forall2 (fun p kd => groupFunc (fst p) = Ok (fst kd) /\ snd kd = snd p)
            (items (consume g)) keyed ->
    Forall (fun r => is_Ok (concat_maybe (snd r)) = true) (runs_from run keyed) ->
    raised (consume (group_runs groupFunc run g)) = None /\
    Forall2 (fun r o => fst o = fst r /\ concat_maybe (snd r) = Ok (snd o))
            (runs_from run keyed)
            (items (consume (group_runs groupFunc run g))).
Proof.
  induction g as [| e | ev k IH | [entry data] next IHn close _];
    simpl; intros Hraised run keyed Hkeys Hconcat.
  - apply Forall2_nil_inv_l in Hkeys as ->. simpl in *.
    destruct run as [[key datas] |]; [| by split; [| constructor]].
    apply Forall_cons in Hconcat as [Hrun _]. simpl in Hrun. unfold emit_group.
    destruct (concat_maybe datas) as [v | e] eqn:E;
      [| simpl in Hrun; discriminate Hrun]. simpl.
    split; [done |]. by repeat constructor.
  - discriminate.
  - rewrite items_logged in *. by apply IH.
  - rewrite items_item in Hkeys.
    apply Forall2_cons_inv_l in Hkeys as ([k d] & keyed' & [Hk Hd] & Hkeys & ->).
    simpl in Hk, Hd. subst d. rewrite Hk.
    destruct run as [[key datas] |]; simpl in Hconcat |- *; [| by apply IHn].
    case_decide as E; [by apply IHn |].
    apply Forall_cons in Hconcat as [Hrun Hconcat]. simpl in Hrun.
    unfold emit_group.
    destruct (concat_maybe datas) as [v | e] eqn:Ev;
      [| simpl in Hrun; discriminate Hrun]. simpl.
    destruct (IHn Hraised (Some (k, [data])) keyed' Hkeys Hconcat) as [Hr Hitems].
    split; [exact Hr |]. rewrite items_item. by constructor.
Qed.

Lemma runs_keys (runs : list (Key * list Structure)) k :
  Forall (fun r => snd r <> []) runs ->
  k ∈ map fst runs <-> k ∈ map fst (flat_map expand runs).
Proof.
  induction runs as [| [k' ds] runs IH]; simpl; intros H; [done |].
  apply Forall_cons in H as [Hds H]. simpl in Hds.
  rewrite map_app, elem_of_cons, elem_of_app, (IH H).
  assert (Hk : k = k' <-> k ∈ map fst (expand (k', ds))).
  { unfold expand. simpl. rewrite map_map. simpl.
    destruct ds as [| d ds]; [done |]. simpl. split.
    - intros ->. by left.
    - intros Hin. apply elem_of_cons in Hin as [-> | Hin]; [done |].
      apply list_elem_of_fmap in Hin as (? & -> & _). done. }
  by rewrite Hk.
Qed.

Lemma Forall2_fst_eq {A B} (P : Key * A -> Key * B -> Prop) l1 l2 :
  Forall2 (fun r o => fst o = fst r /\ P r o) l1 l2 -> map fst l2 = map fst l1.
Proof.
  induction 1 as [| r o l1 l2 [H _] _ IH]; simpl; [done |]. by rewrite H, IH.
Qed.

(** C4. The grouping stage over an iterator that ends normally, with a
    key function that returns on every pair and no concatenation that
    raises: the stage yields one pair per run, in order, the runs being
    the partition of the sequence into maximal runs of adjacent pairs
    with equal keys (laid end to end they give the sequence back, none
    is empty, two that follow each other differ in their key); the
    combined Structure of a run is [concat_maybe] of its Structures,
    the single Structure of a one-element run and otherwise their
    concatenation. On a sequence sorted by the key there is exactly one
    group per distinct key, made of all the Structures of that key in
    their original order; a key that comes back after another key has
    two groups. *)
Theorem group_emits_adjacent_runs
    (groupFunc : Key -> result Key) (g : gen Pair) (keyed : list (Key * Structure)) :
  raised (consume g) = None ->
  Forall2 (fun p kd => groupFunc (fst p) = Ok (fst kd) /\ snd kd = snd p)
          (items (consume g)) keyed ->
  Forall (fun r => is_Ok (concat_maybe (snd r)) = true) (adjacent_runs keyed) ->
  let runs := adjacent_runs keyed in
  let out := items (consume (do_group groupFunc g)) in
  raised (consume (do_group groupFunc g)) = None /\
  Forall2 (fun r o => fst o = fst r /\ concat_maybe (snd r) = Ok (snd o)) runs out /\
  flat_map expand runs = keyed /\
  Forall (fun r => snd r <> []) runs /\
  distinct_neighbours (map fst runs) /\
  (forall data, concat_maybe [data] = Ok data) /\
  (forall datas v, length datas <> 1%nat -> pd_concat datas = Ok v ->
                   concat_maybe datas = Ok v) /\
  (forall le : Key -> Key -> Prop,
      (forall a b, le a b -> le b a -> a = b) ->
      StronglySorted le (map fst keyed) ->
      NoDup (map fst out) /\
      (forall k, k ∈ map fst out <-> k ∈ map fst keyed) /\
      (forall k v, (k, v) ∈ out ->
         concat_maybe (map snd (filter (fun kd => fst kd = k) keyed)) = Ok v)) /\
  (forall k a b l1 l2 l3 c,
      keyed = l1 ++ (k, a) :: l2 ++ (k, b) :: l3 -> c ∈ l2 -> fst c <> k ->
      exists pre v1 mid v2 post, out = pre ++ (k, v1) :: mid ++ (k, v2) :: post).
Proof.
  intros Hraised Hkeys Hconcat runs out.
  destruct (consume_group_runs groupFunc g Hraised None keyed Hkeys Hconcat)
    as [Hr Hout].
  fold (adjacent_runs keyed) in Hout. fold (do_group groupFunc g) in Hr, Hout.
  fold runs in Hout. fold out in Hout.
  assert (Hfst : map fst out = map fst runs) by exact (Forall2_fst_eq _ _ _ Hout).
  split; [exact Hr |]. split; [exact Hout |].
  split; [apply adjacent_runs_expand |].
  split; [apply adjacent_runs_nonempty |].
  split; [apply adjacent_runs_distinct |].
  split; [exact concat_maybe_single |].
  split; [exact concat_maybe_concat |].
  split.
  - intros le Hanti Hsorted.
    assert (Hnd : NoDup (map fst runs)) by by apply (adjacent_runs_sorted le).
    split; [by rewrite Hfst |]. split.
    + intros k. rewrite Hfst. unfold runs.
      rewrite (runs_keys _ k (adjacent_runs_nonempty keyed)).
      by rewrite adjacent_runs_expand.
    + intros k v Hin.
      assert (Hrun : exists ds, (k, ds) ∈ runs /\ concat_maybe ds = Ok v).
      { clear -Hin Hout. induction Hout as [| [k' ds] o rs os [Hk Hv] _ IH].
        - by apply elem_of_nil in Hin.
        - apply elem_of_cons in Hin as [<- | Hin].
          + simpl in Hk, Hv. subst k'. exists ds. split; [by left | done].
          + destruct (IH Hin) as (ds' & Hin' & Hv'). exists ds'.
            split; [by right | done]. }
      destruct Hrun as (ds & Hin' & Hv).
      rewrite <- (run_is_filter runs k ds Hnd Hin') in Hv.
      unfold runs in Hv. by rewrite adjacent_runs_expand in Hv.
  - intros k a b l1 l2 l3 c -> Hin Hne.
    destruct (adjacent_runs_split k a b l1 l2 l3 c Hin Hne)
      as (pre & ds1 & mid & ds2 & post & Hsplit).
    unfold runs in Hout. rewrite Hsplit in Hout.
    apply Forall2_app_inv_l in Hout as (pre' & out1 & _ & Hout & ->).
    apply Forall2_cons_inv_l in Hout as ([k1 v1] & out2 & [Hk1 _] & Hout & ->).
    apply Forall2_app_inv_l in Hout as (mid' & out3 & _ & Hout & ->).
    apply Forall2_cons_inv_l in Hout as ([k2 v2] & post' & [Hk2 _] & _ & ->).
    simpl in Hk1, Hk2. subst k1 k2.
    by exists pre', v1, mid', v2, post'.
Qed.

(** What [pd.concat] raises that is not a [TypeError] leaves the stage. *)
Lemma concat_other_error_raises key datas (next upstream : gen Pair) e :
  length datas <> 1%nat -> pd_concat datas = Raise e -> e <> TypeError ->
  emit_group key datas next upstream = finalize upstream (Throw e).
Proof.
  intros Hlen E He. unfold emit_group, concat_maybe. rewrite E.
  destruct datas as [| d [| d' datas]]; try done; by destruct e.
Qed.

(** C7 (as amended). The grouping stage over an iterator that ends
    normally, when a concatenation that fails fails with a [TypeError]
    (the objects are not of types [pd.concat] concatenates): the stage
    does not raise; it yields one pair per run and goes on; and for
    every run of more than one Structure whose concatenation fails, the
    pair it yields holds the tuple of the Structures of the run, as
    they are. Any other exception of [pd.concat] is not caught: it
    leaves the stage and ends the run. *)
Theorem concat_failure_yields_tuple
    (groupFunc : Key -> result Key) (g : gen Pair) (keyed : list (Key * Structure)) :
  raised (consume g) = None ->
  Forall2 (fun p kd => groupFunc (fst p) = Ok (fst kd) /\ snd kd = snd p)
          (items (consume g)) keyed ->
  Forall (fun r => forall e, pd_concat (snd r) = Raise e -> e = TypeError)
         (adjacent_runs keyed) ->
  raised (consume (do_group groupFunc g)) = None /\
  Forall2 (fun r o =>
             fst o = fst r /\
             ((1 < length (snd r))%nat -> pd_concat (snd r) = Raise TypeError ->
              snd o = PyTuple (snd r)))
          (adjacent_runs keyed) (items (consume (do_group groupFunc g))) /\
  (forall key datas (next upstream : gen Pair),
      (1 < length datas)%nat -> pd_concat datas = Raise TypeError ->
      emit_group key datas next upstream
      = Yield (key, PyTuple datas) next (finalize upstream (Throw GeneratorExit))) /\
  (forall key datas (next upstream : gen Pair) e,
      (1 < length datas)%nat -> pd_concat datas = Raise e -> e <> TypeError ->
      emit_group key datas next upstream = finalize upstream (Throw e)).
Proof.
  intros Hraised Hkeys Hconcat.
  assert (Htotal : Forall (fun r => is_Ok (concat_maybe (snd r)) = true)
                          (adjacent_runs keyed)).
  { eapply Forall_impl; [exact Hconcat |]. intros r Hr. by apply concat_maybe_total. }
  destruct (consume_group_runs groupFunc g Hraised None keyed Hkeys Htotal)
    as [Hr Hout].
  split; [exact Hr |]. split; [| split].
  - eapply Forall2_impl; [exact Hout |]. intros r o [Hk Hv]. split; [exact Hk |].
    intros Hlen E. rewrite (concat_maybe_tuple _ Hlen E) in Hv. by injection Hv.
  - intros key datas next upstream Hlen E. unfold emit_group.
    by rewrite (concat_maybe_tuple _ Hlen E).
  - intros key datas next upstream e Hlen E He.
    apply (concat_other_error_raises key datas next upstream e); [lia | done | done].
Qed.

End Grouping.

(** ** The combiner *)

Section Combining.

Context {rt : Runtime}.

Lemma bind_Ok {A B} (a : A) (f : A -> result B) : (Ok a ≫= f) = f a.
Proof. reflexivity. Qed.

Lemma foldl_max n ns : foldl Nat.max n ns = Nat.max n (max_list ns).
Proof.
  revert n. induction ns as [| m ns IH]; intros n; simpl; [lia |].
  rewrite IH. lia.
Qed.

Lemma table_inv df :
  type_of df = TDataFrame -> exists index columns cells, df = DataFrame index columns cells.
Proof. destruct df; try discriminate. intros _. by eexists _, _, _. Qed.

Lemma reduce_axes a rest :
  reduce_from intersection (AxisAttr a) (map AxisAttr rest)
  = Ok (AxisAttr (foldl Index_intersection a rest)).
Proof.
  revert a. induction rest as [| b rest IH]; intros a; simpl; [done |].
  rewrite ?bind_Ok. apply IH.
Qed.

Section Axis.

(** An axis of the tables and the attribute that names it. *)
Variable attr : string.
Variable axis : Structure -> Index.
Hypothesis getter_axis :
  forall df, type_of df = TDataFrame -> getter attr df = Ok (AxisAttr (axis df)).

Lemma lens_tables dfs :
  Forall (fun df => type_of df = TDataFrame) dfs ->
  mapM (fun df => v ← getter attr df; len_attr v) dfs
  = Ok (map (fun df => length (labels (axis df))) dfs).
Proof.
  induction 1 as [| df dfs Hdf _ IH]; simpl; [done |].
  rewrite (getter_axis df Hdf), IH. reflexivity.
Qed.

Lemma getters_tables dfs :
  Forall (fun df => type_of df = TDataFrame) dfs ->
  mapM (getter attr) dfs = Ok (map AxisAttr (map axis dfs)).
Proof.
  induction 1 as [| df dfs Hdf _ IH]; simpl; [done |].
  rewrite (getter_axis df Hdf), IH. reflexivity.
Qed.

(** On tables, [percentIndexOverlap] computes the overlap fraction of
    the specification; it divides by zero when the largest axis has no
    label. *)
Lemma percentIndexOverlap_tables (results : list (Key * Structure)) :
  results <> [] ->
  Forall (fun df => type_of df = TDataFrame) (map snd results) ->
  percentIndexOverlap attr results
  = if decide (largest (map axis (map snd results)) = 0%nat)
    then Raise ZeroDivisionError
    else Ok (overlap_fraction (map axis (map snd results))).
Proof.
  intros Hne Htables. unfold percentIndexOverlap.
  rewrite (lens_tables _ Htables), ?bind_Ok, (getters_tables _ Htables).
  destruct results as [| [k df] results]; [done |]. simpl.
  rewrite ?bind_Ok, reduce_axes, ?bind_Ok. simpl. rewrite ?bind_Ok.
  unfold truediv, overlap_fraction, largest. simpl.
  rewrite !foldl_max, (map_map axis (fun ix => length (labels ix))). reflexivity.
Qed.

End Axis.

Lemma getter_columns df :
  type_of df = TDataFrame -> getter "columns" df = Ok (AxisAttr (columns_of df)).
Proof. intros H. by destruct (table_inv df H) as (? & ? & ? & ->). Qed.

Lemma getter_index df :
  type_of df = TDataFrame -> getter "index" df = Ok (AxisAttr (index_of df)).
Proof. intros H. by destruct (table_inv df H) as (? & ? & ? & ->). Qed.

Lemma index_dtype_of_table df :
  type_of df = TDataFrame -> index_dtype_of df = Ok (index_dtype (index_of df)).
Proof. intros H. by destruct (table_inv df H) as (? & ? & ? & ->). Qed.

Lemma same_dtypes (example : Structure) (dfs : list Structure) :
  type_of example = TDataFrame ->
  Forall (fun df => type_of df = TDataFrame) dfs ->
  all_of (fun df => a ← index_dtype_of df;
                    b ← index_dtype_of example;
                    mret (bool_decide (a = b))) dfs
  = Ok (forallb (fun df => bool_decide (index_dtype (index_of df)
                                         = index_dtype (index_of example))) dfs).
Proof.
  intros Hex. induction 1 as [| df dfs Hdf _ IH]; simpl; [done |].
  rewrite (index_dtype_of_table df Hdf), (index_dtype_of_table example Hex) in *.
  rewrite ?bind_Ok. unfold mret, result_ret. rewrite ?bind_Ok.
  case_bool_decide; [exact IH | done].
Qed.

(** What [merge] does on tables. *)
Lemma merge_tables (results : list (Key * Structure)) :
  results <> [] ->
  Forall (fun df => type_of df = TDataFrame) (map snd results) ->
  merge results
  = (columns ← percentIndexOverlap "columns" results;
     if Qle_bool overlapThreshold columns
     then
       rows ← percentIndexOverlap "index" results;
       if Qle_bool overlapThreshold rows
       then v ← pd_Panel_from_dict results; mret (Value v)
       else
         if forallb (fun df =>
                       bool_decide (index_dtype (index_of df)
                                    = index_dtype (index_of (default PyNone (head (map snd results))))))
                    (map snd results)
         then v ← pd_concat_dict results; mret (Value v)
         else mret (Mapping results)
     else mret (Mapping results)).
Proof.
  intros Hne Htables. destruct results as [| [k example] rest]; [done |].
  pose proof Htables as Hall. apply Forall_cons in Hall as [Hex _]. simpl in Hex.
  destruct (table_inv example Hex) as (index & columns & cells & ->).
  unfold merge.
  assert (Htypes : forallb (fun kv : Key * Structure =>
                              bool_decide (type_of (snd kv)
                                           = type_of (DataFrame index columns cells)))
                           ((k, DataFrame index columns cells) :: rest) = true).
  { apply forallb_forall. intros kv Hin. apply bool_decide_eq_true.
    rewrite Forall_forall in Htables. apply Htables.
    apply list_elem_of_fmap. exists kv. split; [done |]. by apply list_elem_of_In. }
  rewrite Htypes. cbn [np_isscalar is_time_scalar orb].
  destruct (percentIndexOverlap "columns" _) as [c |]; [| done].
  rewrite ?bind_Ok. destruct (Qle_bool overlapThreshold c); [| done].
  destruct (percentIndexOverlap "index" _) as [r |]; [| done].
  rewrite ?bind_Ok. destruct (Qle_bool overlapThreshold r); [done |].
  rewrite (same_dtypes _ _ Hex Htables), ?bind_Ok. reflexivity.
Qed.

Lemma Qle_bool_false (a b : Q) : (b < a)%Q -> Qle_bool a b = false.
Proof.
  intros H. destruct (Qle_bool a b) eqn:E; [| done].
  apply Qle_bool_iff in E. by apply Qlt_not_le in H.
Qed.

Lemma Qle_bool_true (a b : Q) : (a <= b)%Q -> Qle_bool a b = true.
Proof. apply Qle_bool_iff. Qed.

Section Combined.

Variable P : Parser.

Lemma combine_merges self self' g func into ID_arg args kwargs evs results :
  __iter__ P self = Ok (self', g) ->
  finished (match ID_arg with None => ID | Some f => f end)
           (fun flat => func flat args kwargs) g = (evs, Ok results) ->
  (2 <= length results)%nat ->
  snd (combine P self func into ID_arg args kwargs) = (evs, merge results).
Proof.
  intros Hiter Hfin Hlen. unfold combine. rewrite Hiter. simpl. rewrite Hfin.
  unfold io_bind. destruct results as [| [k1 v1] [| [k2 v2] rest]]; simpl in Hlen; try lia.
  unfold lift. by rewrite app_nil_r.
Qed.

(** C3. In [combine], with two identities or more whose results are
    all 2-D tables, the overlap fraction of an axis being the size of
    the intersection of its labels across all the results divided by
    the size of the largest single result's labels (the widest table
    has a column, and, where the rows are looked at, the longest a
    row): below 0.75 on the columns the per-identity mapping is
    returned as it is; at 0.75 or above on the columns and on the rows
    the result is what [pd.Panel.from_dict] builds from the mapping;
    at 0.75 or above on the columns and below on the rows, when the
    row indexes all have the same dtype, it is what [pd.concat] makes
    of the mapping (the tables stacked under a two-level index). The
    comparison includes 0.75 itself. *)
Theorem tables_merge_by_overlap
    self self' g func into ID_arg args kwargs evs (results : list (Key * Structure)) :
  __iter__ P self = Ok (self', g) ->
  finished (match ID_arg with None => ID | Some f => f end)
           (fun flat => func flat args kwargs) g = (evs, Ok results) ->
  (2 <= length results)%nat ->
  Forall (fun df => type_of df = TDataFrame) (map snd results) ->
  let tables := map snd results in
  let columns := overlap_fraction (map columns_of tables) in
  let rows := overlap_fraction (map index_of tables) in
  let run := snd (combine P self func into ID_arg args kwargs) in
  (0 < largest (map columns_of tables))%nat ->
  (overlapThreshold == 3 # 4)%Q /\
  ((columns < overlapThreshold)%Q -> run = (evs, Ok (Mapping results))) /\
  ((0 < largest (map index_of tables))%nat ->
   ((overlapThreshold <= columns)%Q -> (overlapThreshold <= rows)%Q ->
    run = (evs, v ← pd_Panel_from_dict results; mret (Value v))) /\
   ((overlapThreshold <= columns)%Q -> (rows < overlapThreshold)%Q ->
    (forall a b, a ∈ tables -> b ∈ tables ->
                 index_dtype (index_of a) = index_dtype (index_of b)) ->
    run = (evs, v ← pd_concat_dict results; mret (Value v))) /\
   ((columns == overlapThreshold)%Q -> (rows == overlapThreshold)%Q ->
    run = (evs, v ← pd_Panel_from_dict results; mret (Value v)))).
Proof.
  intros Hiter Hfin Hlen Htables tables columns rows run Hwide.
  assert (Hne : results <> []) by (destruct results; [simpl in Hlen; lia | done]).
  assert (Hrun : run = (evs, merge results)) by by eapply combine_merges.
  assert (Hcols : percentIndexOverlap "columns" results = Ok columns).
  { rewrite (percentIndexOverlap_tables "columns" columns_of getter_columns _ Hne Htables).
    fold tables. case_decide; [lia | done]. }
  rewrite Hrun, (merge_tables _ Hne Htables), Hcols, bind_Ok.
  split; [done |]. split.
  { intros Hlow. by rewrite (Qle_bool_false _ _ Hlow). }
  intros Hlong.
  assert (Hrows : percentIndexOverlap "index" results = Ok rows).
  { rewrite (percentIndexOverlap_tables "index" index_of getter_index _ Hne Htables).
    fold tables. case_decide; [lia | done]. }
  rewrite Hrows.
  assert (Hpanel : (overlapThreshold <= columns)%Q -> (overlapThreshold <= rows)%Q ->
            (evs, if Qle_bool overlapThreshold columns
                  then Ok rows ≫= (fun rows0 : Q =>
                         if Qle_bool overlapThreshold rows0
                         then v ← pd_Panel_from_dict results; mret (Value v)
                         else if forallb (fun df => bool_decide
                                     (index_dtype (index_of df)
                                      = index_dtype (index_of (default PyNone (head (map snd results))))))
                                   (map snd results)
                              then v ← pd_concat_dict results; mret (Value v)
                              else mret (Mapping results))
                  else mret (Mapping results))
            = (evs, v ← pd_Panel_from_dict results; mret (Value v))).
  { intros Hc Hr. by rewrite (Qle_bool_true _ _ Hc), bind_Ok, (Qle_bool_true _ _ Hr). }
  split; [exact Hpanel |]. split.
  - intros Hc Hr Hsame.
    rewrite (Qle_bool_true _ _ Hc), bind_Ok, (Qle_bool_false _ _ Hr).
    assert (Hall : forallb (fun df => bool_decide
                     (index_dtype (index_of df)
                      = index_dtype (index_of (default PyNone (head (map snd results))))))
                   (map snd results) = true).
    { apply forallb_forall. intros df Hin. apply bool_decide_eq_true.
      apply list_elem_of_In in Hin. apply Hsame; [exact Hin |].
      destruct results as [| [k df0] rest]; [done |]. simpl. by left. }
    by rewrite Hall.
  - intros Hc Hr. apply Hpanel.
    + rewrite Hc. apply Qle_refl.
    + rewrite Hr. apply Qle_refl.
Qed.

(** C10. The argument [into] of [combine] has no part in what
    [combine] returns, nor in what it reports or leaves on the
    object. *)
Theorem into_is_ignored self func (into : Structure) ID_arg args kwargs :
  combine P self func into ID_arg args kwargs
  = combine P self func PyNone ID_arg args kwargs.
Proof. reflexivity. Qed.

(** C9 (as amended). A pipeline object holds no cursor: [__iter__]
    prepares the state, locates the records and builds the generators
    anew on every call. After a first use, a second [__iter__] on the
    same object returns the same generator as the first, and a second
    [combine] returns and reports what the first did. *)
Theorem second_use_repeats_first
    (self self1 : Accessor) (g1 : gen Pair) func into ID_arg args kwargs :
  __iter__ P self = Ok (self1, g1) ->
  __iter__ P self1 = Ok (self1, g1) /\
  combine P self1 func into ID_arg args kwargs
  = combine P self func into ID_arg args kwargs.
Proof.
  intros H.
  assert (H1 : __iter__ P self1 = Ok (self1, g1)).
  { unfold __iter__ in *.
    destruct (prepareState P _ _ _) as [state |] eqn:Es; [| discriminate].
    rewrite bind_Ok in H.
    destruct (_endpoint self _ _ _) as [entries |] eqn:Ee; [| discriminate].
    rewrite bind_Ok in H. injection H as <- <-. simpl. rewrite Es, Ee. reflexivity. }
  split; [exact H1 |]. unfold combine. by rewrite H, H1.
Qed.

End Combined.

End Combining.

(** ** The finishing loop of the combiner *)

Section Finishing.

Context {rt : Runtime}.

Lemma dict_append_nonempty results name data :
  Forall (fun b : Key * list Structure => snd b <> []) results ->
  Forall (fun b : Key * list Structure => snd b <> []) (dict_append results name data).
Proof.
  induction 1 as [| [name' datas] results Hb Hrest IH]; simpl.
  - by repeat constructor.
  - case_decide; constructor; try done. simpl in *. by destruct datas.
Qed.

(** Every bucket of the first loop holds a Structure. *)
Lemma bucket_nonempty ID (g : gen Pair) acc evs buckets :
  bucket ID g acc = (evs, Ok buckets) ->
  Forall (fun b => snd b <> []) acc ->
  Forall (fun b => snd b <> []) buckets.
Proof.
  revert acc evs. induction g as [| e | ev k IH | [key data] next IHn close _];
    intros acc evs; simpl.
  - by intros [= _ <-].
  - discriminate.
  - destruct (bucket ID k acc) as [evs' r] eqn:E. intros [= _ ->]. by eapply IH.
  - destruct (ID key) as [name | e]; [| discriminate].
    intros H Hacc. eapply IHn; [exact H |]. by apply dict_append_nonempty.
Qed.

Lemma flatten_total datas :
  datas <> [] ->
  (forall e, pd_concat datas = Raise e -> e = TypeError) ->
  exists evs flat, flatten datas = (evs, Ok flat).
Proof.
  intros Hne Hconcat. unfold flatten. case_bool_decide.
  - destruct (pd_concat datas) as [flat | e]; [by eexists _, _ |].
    rewrite (Hconcat e eq_refl). by eexists _, _.
  - destruct datas; [done |]. by eexists _, _.
Qed.

Lemma slot_after_more func evs evs' b r :
  evs ⊆ evs' -> slot_after func evs b r -> slot_after func evs' b r.
Proof.
  intros Hsub (Hk & evs1 & flat & Hflat & Hslot). split; [exact Hk |].
  exists evs1, flat. split; [exact Hflat |].
  destruct (func flat); [exact Hslot |]. destruct Hslot as [Hs Hin].
  split; [exact Hs |]. by apply Hsub.
Qed.

(** The second loop never raises for what [func] raises: it leaves one
    slot per bucket. *)
Lemma finish_slots func (buckets : list (Key * list Structure)) :
  Forall (fun b => snd b <> []) buckets ->
  Forall (fun b => forall e, pd_concat (snd b) = Raise e -> e = TypeError) buckets ->
  exists evs results,
    finish func buckets = (evs, Ok results) /\
    Forall2 (slot_after func evs) buckets results.
Proof.
  induction buckets as [| [name datas] buckets IH]; intros Hne Hconcat.
  - exists [], []. by split; [| constructor].
  - apply Forall_cons in Hne as [Hd Hne]. apply Forall_cons in Hconcat as [Hc Hconcat].
    destruct (IH Hne Hconcat) as (evs3 & results & Hrest & Hslots).
    destruct (flatten_total datas Hd Hc) as (evs1 & flat & Hflat).
    simpl. rewrite Hflat. unfold io_bind at 1. unfold finish_slot.
    destruct (func flat) as [v | e] eqn:Ef.
    + exists (evs1 ++ [] ++ evs3 ++ []), ((name, v) :: results). split.
      * unfold io_ret. simpl. by rewrite Hrest.
      * constructor.
        -- split; [done |]. exists evs1, flat. split; [done |]. by rewrite Ef.
        -- eapply Forall2_impl; [exact Hslots |]. intros b r.
           apply slot_after_more. intros x Hx. rewrite !elem_of_app. tauto.
    + exists (evs1 ++ [FinisherError name e] ++ evs3 ++ []),
        ((name, PyList datas) :: results). split.
      * simpl. by rewrite Hrest.
      * constructor.
        -- split; [done |]. exists evs1, flat. split; [done |]. rewrite Ef.
           split; [done |]. apply elem_of_app. right. by left.
        -- eapply Forall2_impl; [exact Hslots |]. intros b r.
           apply slot_after_more. intros x Hx. rewrite !elem_of_app. tauto.
Qed.

(** C6 (as amended). In [combine], once the results are bucketed by
    identity, and when a concatenation that fails fails with a
    [TypeError]: the loop that applies the finishing function does not
    raise; it leaves one slot per identity, in order; the slot of an
    identity whose finisher call raised keeps the list of the Structures
    of that identity, unfinished, and the failure is reported; the slot
    of every other identity holds what the finisher returned for it. *)
Theorem finisher_failure_keeps_list
    (ID : Key -> result Key) (func : Structure -> result Structure)
    (g : gen Pair) evs0 (buckets : list (Key * list Structure)) :
  bucket ID g [] = (evs0, Ok buckets) ->
  Forall (fun b => forall e, pd_concat (snd b) = Raise e -> e = TypeError) buckets ->
  exists evs results,
    finished ID func g = (evs0 ++ evs, Ok results) /\
    map fst results = map fst buckets /\
    Forall2 (slot_after func evs) buckets results.
Proof.
  intros Hbucket Hconcat.
  assert (Hne : Forall (fun b => snd b <> []) buckets).
  { eapply bucket_nonempty; [exact Hbucket | constructor]. }
  destruct (finish_slots func buckets Hne Hconcat) as (evs & results & Hfin & Hslots).
  exists evs, results. split; [| split; [| exact Hslots]].
  - unfold finished. rewrite Hbucket. unfold io_bind. by rewrite Hfin.
  - clear -Hslots. induction Hslots as [| b r bs rs [Hk _] _ IH]; simpl; [done |].
    by rewrite Hk, IH.
Qed.

End Finishing.

(** ** The default identity *)

Section Identity.

Lemma key_getattr_field key name :
  in_fields name key = true -> exists v, key_getattr (KEntry key) name = Ok v.
Proof.
  intros H. unfold key_getattr. case_decide; [by eexists |].
  apply bool_decide_eq_true in H as [v Hv]. rewrite Hv. by eexists.
Qed.

Lemma append_field_returns key name id_elems :
  exists elems, append_field key name id_elems = Ok elems.
Proof.
  unfold append_field. destruct (in_fields name key) eqn:E; [| by eexists].
  destruct (key_getattr_field key name E) as [v ->]. by eexists.
Qed.

(** C8. A record that has a "day" field and no "month" field: the
    default identity function reads its local [month] before any
    assignment and raises [UnboundLocalError]. *)
Theorem ID_day_without_month_raises (key : Entry) :
  in_fields "day" key = true ->
  in_fields "month" key = false ->
  ID (KEntry key) = Raise UnboundLocalError.
Proof.
  intros Hday Hmonth. unfold ID.
  destruct (append_field_returns key "unit" []) as [l1 ->].
  destruct (append_field_returns key "site" l1) as [l2 E2].
  destruct (append_field_returns key "year" l2) as [l3 E3].
  cbn [mbind result_bind]. rewrite E2. cbn [mbind result_bind]. rewrite E3.
  cbn [mbind result_bind]. rewrite Hmonth, Hday. reflexivity.
Qed.

(** In every other case the default identity is a label. *)
Lemma ID_returns_otherwise (key : Entry) :
  in_fields "day" key = false \/ in_fields "month" key = true ->
  exists label, ID (KEntry key) = Ok (KStr label).
Proof.
  intros H. unfold ID.
  destruct (append_field_returns key "unit" []) as [l1 ->].
  destruct (append_field_returns key "site" l1) as [l2 E2].
  destruct (append_field_returns key "year" l2) as [l3 E3].
  cbn [mbind result_bind]. rewrite E2. cbn [mbind result_bind]. rewrite E3.
  cbn [mbind result_bind].
  destruct (in_fields "month" key) eqn:Em.
  - destruct (key_getattr_field key "month" Em) as [m ->]. cbn [mbind result_bind mret result_ret].
    destruct (in_fields "day" key) eqn:Ed.
    + destruct (key_getattr_field key "day" Ed) as [d ->]. cbn [mbind result_bind mret result_ret].
      destruct (in_fields "hour" key) eqn:Eh.
      * destruct (key_getattr_field key "hour" Eh) as [h ->]. cbn [mbind result_bind mret result_ret].
        case_bool_decide; by eexists.
      * cbn [mbind result_bind mret result_ret]. case_bool_decide; by eexists.
    + cbn [mbind result_bind mret result_ret].
      destruct (in_fields "hour" key) eqn:Eh.
      * destruct (key_getattr_field key "hour" Eh) as [h ->]. cbn [mbind result_bind mret result_ret].
        case_bool_decide; by eexists.
      * cbn [mbind result_bind mret result_ret]. case_bool_decide; by eexists.
  - destruct H as [Hd | Hm]; [| discriminate]. rewrite Hd.
    cbn [mbind result_bind mret result_ret].
    destruct (in_fields "hour" key) eqn:Eh.
    + destruct (key_getattr_field key "hour" Eh) as [h ->]. cbn [mbind result_bind mret result_ret].
      case_bool_decide; by eexists.
    + cbn [mbind result_bind mret result_ret]. case_bool_decide; by eexists.
Qed.

End Identity.

(** * Worked runs

    The properties above, at concrete pipelines over the small
    runtime. *)

Section WorkedRuns.

Import Toy.

Lemma toy_getattr_never_cancels data attr : getattr data attr <> Raise GeneratorExit.
Proof. unfold getattr. case_decide; [| done]. by destruct data. Qed.

Lemma toy_concat_type_error datas e : concat datas = Raise e -> e = TypeError \/ e = ValueError.
Proof.
  destruct datas as [| d datas]; simpl; [intros [= <-]; by right |].
  destruct d; try (intros [= <-]; by left).
  revert index cells. induction datas as [| d datas IH]; intros index cells; simpl.
  - discriminate.
  - destruct d; try (intros [= <-]; by left). apply IH.
Qed.

Lemma key_le_antisym a b : key_le a b -> key_le b a -> a = b.
Proof.
  destruct a, b; simpl; try done. intros H1 H2. f_equal. by apply String.leb_antisym.
Qed.

(** Three records parsed with a state that counts them: three pairs,
    in order, each with the count the records before it have left. *)
Lemma iter_one_pair_per_record_witness :
  exists (self' : Accessor) (g : gen Pair) (pairs : list Pair),
    __iter__ counting (accessor [e1; e2; e3]) = Ok (self', g) /\
    consume g = mkOutcome (map Item pairs) None /\
    length pairs = 3%nat /\
    map fst pairs = map KEntry [e1; e2; e3] /\
    map (fun p => Ok (snd p)) pairs = [Ok (PyInt 0); Ok (PyInt 1); Ok (PyInt 2)].
Proof.
  destruct (iter_one_pair_per_record counting (accessor [e1; e2; e3]) (Some 0%nat)
              [e1; e2; e3])
    as (self' & g & pairs & Hiter & Hrun & Hlen & Hkeys & _ & _ & Hdata).
  - reflexivity.
  - reflexivity.
  - reflexivity.
  - vm_compute. repeat constructor.
  - exists self', g, pairs. split; [exact Hiter |]. split; [exact Hrun |].
    split; [exact Hlen |]. split; [exact Hkeys |]. exact (Hdata 0%nat eq_refl).
Defined.

(** Three records, the second without a year, through a [size] stage:
    two pairs and one report. *)
Lemma failures_skip_one_record_witness :
  exists (self self' : Accessor) (g : gen Pair),
    build (accessor [e1; e_day; e3]) [GetAttr "size"] = Ok self /\
    __iter__ parser self = Ok (self', g) /\
    raised (consume g) = None /\
    length (items (consume g)) = 2%nat /\
    events (consume g) = [ParseError "05.txt" (Exception "no year")].
Proof.
  destruct (failures_skip_one_record parser (accessor [e1; e_day; e3])
              [GetAttr "size"] None [e1; e_day; e3])
    as (self & self' & g & Hbuild & Hiter & Hraised & Htrace & _).
  - reflexivity.
  - repeat constructor.
  - reflexivity.
  - reflexivity.
  - vm_compute. repeat constructor; discriminate.
  - intros c data Hc. apply list_elem_of_singleton in Hc as ->. simpl.
    apply toy_getattr_never_cancels.
  - exists self, self', g. unfold items, events. rewrite Htrace.
    repeat split; try done.
Defined.

(** A chain with a [size] stage and a grouping by site: closing the
    generator after the first group ends it with [GeneratorExit]. *)
Lemma cancellation_propagates_witness :
  exists (self self' : Accessor) (g : gen Pair),
    build (accessor [e1; e2; e3]) [GetAttr "size"; Group [ByField "site"]] = Ok self /\
    __iter__ parser self = Ok (self', g) /\
    close_after 0 g = Some (Throw GeneratorExit) /\
    Forall (fun ev => exn_of ev <> Some GeneratorExit) (reports g).
Proof.
  eexists. 
  destruct (cancellation_propagates parser (accessor [e1; e2; e3])
              [GetAttr "size"; Group [ByField "site"]] _ None [e1; e2; e3]
              eq_refl eq_refl eq_refl eq_refl)
    as (self' & g & Hiter & Hclose & Hreports & _).
  exists self', g. split; [reflexivity |]. split; [exact Hiter |].
  split; [| exact Hreports].
  injection Hiter as _ <-. reflexivity.
Defined.

(** Grouping three records by site: one group per site on this sorted
    input, the group of site A made of the two series of that site. *)
Lemma group_emits_adjacent_runs_witness :
  raised (consume (do_group by_site (iterate parser None [e1; e2; e3]))) = None /\
  NoDup (map fst (items (consume (do_group by_site (iterate parser None [e1; e2; e3]))))) /\
  length (items (consume (do_group by_site (iterate parser None [e1; e2; e3])))) = 2%nat.
Proof.
  destruct (group_emits_adjacent_runs by_site (iterate parser None [e1; e2; e3])
              [(KStr "A", Series (mkIndex ["A2001.txt"] object_) [2001]);
               (KStr "A", Series (mkIndex ["A2002.txt"] object_) [2002]);
               (KStr "B", Series (mkIndex ["B2001.txt"] object_) [2001])])
    as (Hraised & Hout & _ & _ & _ & _ & _ & Hsorted & _).
  - reflexivity.
  - vm_compute. repeat constructor.
  - vm_compute. repeat constructor.
  - destruct (Hsorted key_le key_le_antisym) as (Hnd & _).
    + simpl. repeat constructor.
    + split; [exact Hraised |]. split; [exact Hnd |]. reflexivity.
Defined.

(** Grouping by site records whose payloads are plain integers: the
    two integers of site A come out as a tuple. *)
Lemma concat_failure_yields_tuple_witness :
  raised (consume (do_group by_site (iterate ints None [e1; e2; e3]))) = None /\
  items (consume (do_group by_site (iterate ints None [e1; e2; e3])))
  = [(KStr "A", PyTuple [PyInt 2001; PyInt 2002]); (KStr "B", PyInt 2001)].
Proof.
  destruct (concat_failure_yields_tuple by_site (iterate ints None [e1; e2; e3])
              [(KStr "A", PyInt 2001); (KStr "A", PyInt 2002); (KStr "B", PyInt 2001)])
    as (Hraised & _ & _).
  - reflexivity.
  - vm_compute. repeat constructor.
  - vm_compute. repeat constructor; intros e [= <-]; reflexivity.
  - split; [exact Hraised | reflexivity].
Defined.

(** Two tables that share their rows and three of their four columns
    (an overlap of exactly 0.75): a cube keyed by identity. *)
Lemma tables_merge_by_overlap_witness :
  snd (combine tables (accessor [e1; e3]) unchanged PyNone None [] [])
  = ([], v ← pd_Panel_from_dict [(KStr "A2001", table_A); (KStr "B2001", table_B)];
         mret (Value v)).
Proof.
  destruct (tables_merge_by_overlap tables (accessor [e1; e3])
              (set_progbar (accessor [e1; e3]) (Some [e1; e3]))
              (iterate tables None [e1; e3])
              unchanged PyNone None [] [] []
              [(KStr "A2001", table_A); (KStr "B2001", table_B)])
    as (_ & _ & Hrows).
  - vm_compute. reflexivity.
  - vm_compute. reflexivity.
  - simpl. lia.
  - repeat constructor.
  - vm_compute. lia.
  - destruct Hrows as (Hpanel & _).
    + vm_compute. lia.
    + apply Hpanel; vm_compute; discriminate.
Defined.

(** Two identities, the finisher refusing the first: its slot keeps
    the list of its one series. *)
Lemma finisher_failure_keeps_list_witness :
  exists evs results,
    finished ID (fun flat => no_2002 flat [] []) (iterate parser None [e2; e3])
    = ([] ++ evs, Ok results) /\
    map fst results = [KStr "A2002"; KStr "B2001"].
Proof.
  destruct (finisher_failure_keeps_list ID (fun flat => no_2002 flat [] [])
              (iterate parser None [e2; e3]) []
              [(KStr "A2002", [Series (mkIndex ["A2002.txt"] object_) [2002]]);
               (KStr "B2001", [Series (mkIndex ["B2001.txt"] object_) [2001]])])
    as (evs & results & Hfin & Hkeys & _).
  - vm_compute. reflexivity.
  - repeat constructor; intros e; vm_compute; discriminate.
  - by exists evs, results.
Defined.

(** The default identity of records with some, all, or none of the
    fields it looks at. *)
Example ID_site_year : ID (KEntry e1) = Ok (KStr "A2001").
Proof. reflexivity. Qed.

Example ID_all_fields :
  ID (KEntry (mkEntry {[ "unit" := "GRCA"; "site" := "A"; "year" := "2001";
                         "month" := "07"; "day" := "04"; "hour" := "13" ]}
                      "NVSPL_GRCAA_2001_07_04_13.txt"))
  = Ok (KStr "GRCAA2001 07-04 13:").
Proof. reflexivity. Qed.

Example ID_hour_only :
  ID (KEntry (mkEntry {[ "hour" := "13" ]} "13.txt")) = Ok (KStr "13:").
Proof. reflexivity. Qed.

Example ID_no_field : ID (KEntry (mkEntry ∅ "notes.txt")) = Ok (KStr "notes.txt").
Proof. reflexivity. Qed.

Example ID_of_group_key : ID (KStr "A") = Ok (KStr "A").
Proof. reflexivity. Qed.

(** The record with a day and no month. *)
Lemma ID_day_without_month_raises_witness :
  ID (KEntry e_day) = Raise UnboundLocalError.
Proof.
  apply (ID_day_without_month_raises e_day); vm_compute; reflexivity.
Defined.

(** A second use gives what the first gave. *)
Lemma second_use_repeats_first_witness :
  __iter__ parser (set_progbar (accessor [e1]) (Some [e1]))
  = Ok (set_progbar (accessor [e1]) (Some [e1]), iterate parser None [e1]).
Proof.
  apply (second_use_repeats_first parser (accessor [e1])
           (set_progbar (accessor [e1]) (Some [e1])) (iterate parser None [e1])
           unchanged PyNone None [] []).
  reflexivity.
Defined.

(** C9, as stated, fails: a pipeline over one record yields the pair of
    that record again at its second use. *)
Lemma second_iteration_not_empty :
  ~ second_iteration_is_empty parser (accessor [e1]).
Proof.
  intros H.
  specialize (H (set_progbar (accessor [e1]) (Some [e1])) (iterate parser None [e1])
                (set_progbar (accessor [e1]) (Some [e1])) (iterate parser None [e1])
                eq_refl eq_refl).
  vm_compute in H. discriminate H.
Qed.

(** C7, as stated, fails: two records of one site whose Structures are
    [None]; [pd.concat] refuses them with [ValueError], which the
    grouping stage does not catch, so the run ends with it. *)
Lemma concat_value_error_leaves_stage :
  pd_concat (Runtime := with_none_check) [PyNone; PyNone] = Raise ValueError /\
  ~ concat_failure_gives_tuple (rt := with_none_check) by_site
      (iterate nones None [e1; e2]).
Proof.
  split; [reflexivity |]. intros H.
  destruct (H [(KStr "A", PyNone); (KStr "A", PyNone)]) as [Hraised _].
  - reflexivity.
  - vm_compute. repeat constructor.
  - vm_compute in Hraised. discriminate Hraised.
Qed.

(** C6, as stated, fails: the finisher raises for the identity A2002,
    and the mapping [combine] returns holds that identity. *)
Lemma failed_slot_not_absent :
  no_2002 (Series (mkIndex ["A2002.txt"] object_) [2002]) [] []
  = Raise (Exception "2002") /\
  ~ slot_absent (snd (combine parser (accessor [e2; e3]) no_2002 PyNone None [] []))
                (KStr "A2002").
Proof.
  split; [reflexivity |]. intros H.
  apply (H [FinisherError (KStr "A2002") (Exception "2002")]
           [(KStr "A2002", PyList [Series (mkIndex ["A2002.txt"] object_) [2002]]);
            (KStr "B2001", Series (mkIndex ["B2001.txt"] object_) [2001])]).
  - vm_compute. reflexivity.
  - simpl. by left.
Qed.

End WorkedRuns.

(** * Further properties *)

(** ** Stages and whole runs *)

Section MoreRuns.

Context {rt : Runtime}.

Lemma consume_finalize {A B} (u : gen A) (after : gen B) :
  items (consume (finalize u after)) = items (consume after) /\
  raised (consume (finalize u after)) = raised (consume after).
Proof.
  induction u as [| e | ev k IH | a next _ close _]; simpl; try done.
Qed.

Lemma items_yield {A} (a : A) (next close : gen A) :
  items (consume (Yield a next close)) = a :: items (consume next).
Proof. reflexivity. Qed.

Lemma items_write {A} ev (k : gen A) :
  items (consume (Write ev k)) = items (consume k).
Proof. reflexivity. Qed.

Lemma raised_yield {A} (a : A) (next close : gen A) :
  raised (consume (Yield a next close)) = raised (consume next).
Proof. reflexivity. Qed.

Lemma raised_write {A} ev (k : gen A) :
  raised (consume (Write ev k)) = raised (consume k).
Proof. reflexivity. Qed.

Lemma per_pair_records op (g : gen Pair) :
  map fst (items (consume (per_pair op g))) `sublist_of` map fst (items (consume g)).
Proof.
  induction g as [| e | ev k IH | [entry data] next IHn close _].
  - done.
  - done.
  - cbn [per_pair]. by rewrite !items_write.
  - cbn [per_pair]. rewrite (items_yield (entry, data)). cbn [map fst].
    destruct (op data) as [v | e].
    + rewrite items_yield. cbn [map fst]. by constructor.
    + assert (Hskip : map fst (items (consume (Write (StageError entry e data)
                                                    (per_pair op next))))
                      `sublist_of` entry :: map fst (items (consume next))).
      { rewrite items_write. by constructor. }
      assert (Hend : map fst (items (consume (finalize close (@Throw Pair GeneratorExit))))
                     `sublist_of` entry :: map fst (items (consume next))).
      { rewrite (proj1 (consume_finalize close _)). apply sublist_nil_l. }
      by destruct e.
Qed.

Lemma stages_records (calls : list StageCall) (g : gen Pair) :
  map fst (items (consume (fold_left (fun iterate do => do iterate)
                                     (map (fun c => per_pair (op_of c)) calls) g)))
  `sublist_of` map fst (items (consume g)).
Proof.
  revert g. induction calls as [| c calls IH]; intros g; simpl; [done |].
  etrans; [apply IH | apply per_pair_records].
Qed.

Lemma iterate_records (P : Parser) state entries :
  map fst (items (consume (iterate P state entries))) `sublist_of` map KEntry entries.
Proof.
  revert state. induction entries as [| entry rest IH]; intros state; [done |].
  cbn [iterate map]. destruct (call_parse P state entry) as [r state'].
  destruct r as [data | e].
  - rewrite items_yield. cbn [map fst]. constructor. apply IH.
  - assert (Hskip : map fst (items (consume (Write (ParseError (path entry) e)
                                                    (iterate P state' rest))))
                    `sublist_of` KEntry entry :: map KEntry rest).
    { rewrite items_write. constructor. apply IH. }
    assert (Hend : map fst (items (consume (@Throw Pair GeneratorExit)))
                   `sublist_of` KEntry entry :: map KEntry rest)
      by apply sublist_nil_l.
    by destruct e.
Qed.

(** X1. Whatever [parse] and the operations of the stages return or
    raise, the records of the pairs a chain of attribute-get, index and
    call stages yields are a subsequence of the located records: no
    record is yielded twice, out of order, or without having been
    located. *)
Theorem records_form_subsequence
    (P : Parser) (self0 : Accessor) (calls : list StageCall)
    (state : option (State P)) (entries : list Entry) :
  _chain self0 = [] ->
  Forall (fun c => is_group c = false) calls ->
  prepareState P (_endpoint self0) (_filters self0) (_prepareStateParams self0) = Ok state ->
  _endpoint self0 (_sort self0) (_n self0) (_filters self0) = Ok entries ->
  exists (self self' : Accessor) (g : gen Pair),
    build self0 calls = Ok self /\
    __iter__ P self = Ok (self', g) /\
    map fst (items (consume g)) `sublist_of` map KEntry entries /\
    (length (items (consume g)) <= length entries)%nat.
Proof.
  intros Hchain Hcalls Hstate Hentries.
  set (stages := map (fun c => per_pair (op_of c)) calls).
  set (g := fold_left (fun iterate do => do iterate) stages (iterate P state entries)).
  exists (set_chain self0 stages), (set_progbar (set_chain self0 stages) (Some entries)), g.
  assert (Hsub : map fst (items (consume g)) `sublist_of` map KEntry entries).
  { etrans; [apply stages_records | apply iterate_records]. }
  split; [| split; [| split]].
  - rewrite build_per_pair by exact Hcalls. by rewrite Hchain.
  - unfold __iter__. simpl. by rewrite Hstate, Hentries.
  - exact Hsub.
  - apply sublist_length in Hsub. by rewrite !length_map in Hsub.
Qed.

Lemma item_of_and_then op1 op2 (o : obs Pair) :
  item_of (stage_obs op2 (stage_obs op1 o)) = item_of (stage_obs (and_then op1 op2) o).
Proof.
  destruct o as [ev | [entry data]]; simpl; [done |]. unfold and_then.
  destruct (op1 data) as [v | e]; simpl; [| done]. by destruct (op2 v).
Qed.

(** X2. Two stages one after the other yield the pairs one stage would
    yield with the two operations applied in turn: a pair is dropped
    when either operation raises, and the run ends as the iterator they
    read ends. *)
Theorem two_stages_compose
    (op1 op2 : Structure -> result Structure) (g : gen Pair) :
  (forall data, op1 data <> Raise GeneratorExit) ->
  (forall data, op2 data <> Raise GeneratorExit) ->
  items (consume (per_pair op2 (per_pair op1 g)))
  = items (consume (per_pair (and_then op1 op2) g)) /\
  raised (consume (per_pair op2 (per_pair op1 g))) = raised (consume g).
Proof.
  intros H1 H2.
  assert (H12 : forall data, and_then op1 op2 data <> Raise GeneratorExit).
  { intros data. unfold and_then. destruct (op1 data) as [v | e] eqn:E; simpl.
    - apply H2.
    - rewrite <- E. apply H1. }
  rewrite !consume_per_pair by done. simpl. split; [| done].
  unfold items. simpl. induction (trace (consume g)) as [| o t IH]; [done |].
  csimpl. by rewrite item_of_and_then, IH.
Qed.




(** Every stage a builder call appends has a property that the
    per-pair stages and the grouping stages have. *)
Lemma build_stages (Q : (gen Pair -> gen Pair) -> Prop) :
  (forall op, Q (per_pair op)) ->
  (forall groupFunc, Q (do_group groupFunc)) ->
  forall (calls : list StageCall) (self self' : Accessor),
    build self calls = Ok self' ->
    Forall Q (_chain self) -> Forall Q (_chain self').
Proof.
  intros Hpp Hgroup calls. induction calls as [| c calls IH]; intros self self'; simpl.
  - by intros [= ->].
  - destruct (append_stage self c) as [self1 |] eqn:E; [| discriminate].
    simpl. intros Hb Hself. apply (IH _ _ Hb). clear IH Hb.
    destruct c; simpl in E.
    + injection E as <-. simpl. apply Forall_app. split; [exact Hself |].
      apply Forall_singleton. apply Hpp.
    + injection E as <-. simpl. apply Forall_app. split; [exact Hself |].
      apply Forall_singleton. apply Hpp.
    + injection E as <-. simpl. apply Forall_app. split; [exact Hself |].
      apply Forall_singleton. apply Hpp.
    + unfold group in E. destruct (groupFunc_of groups) as [groupFunc |]; [| discriminate].
      simpl in E. injection E as <-. simpl. apply Forall_app. split; [exact Hself |].
      apply Forall_singleton. apply Hgroup.
Qed.

Lemma per_pair_itemless op (g : gen Pair) :
  items (consume g) = [] -> consume (per_pair op g) = consume g.
Proof.
  induction g as [| e | ev k IH | [entry data] next _ close _]; try done.
  - rewrite items_write. intros H. cbn [per_pair consume]. by rewrite IH.
Qed.

Lemma group_itemless groupFunc (g : gen Pair) :
  items (consume g) = [] -> consume (do_group groupFunc g) = consume g.
Proof.
  unfold do_group.
  induction g as [| e | ev k IH | [entry data] next _ close _]; try done.
  - rewrite items_write. intros H. cbn [group_runs consume]. by rewrite IH.
Qed.

Lemma chain_itemless (chain : list (gen Pair -> gen Pair)) (g : gen Pair) :
  Forall (fun do => forall g, items (consume g) = [] -> consume (do g) = consume g) chain ->
  items (consume g) = [] ->
  consume (fold_left (fun iterate do => do iterate) chain g) = consume g.
Proof.
  revert g. induction chain as [| do chain IH]; intros g Hchain Hg; simpl; [done |].
  apply Forall_cons in Hchain as [Hdo Hchain].
  rewrite IH; [by apply Hdo | exact Hchain |]. by rewrite Hdo.
Qed.

Lemma iterate_inherited entries :
  consume (iterate inherited None entries)
  = mkOutcome (map (fun entry => Logged (ParseError (path entry) NotImplementedError))
                   entries) None.
Proof.
  induction entries as [| entry rest IH]; [done |].
  cbn [iterate call_parse inherited parse Accessor_parse consume map]. by rewrite IH.
Qed.

(** X4. A subclass that overrides neither [parse] nor [prepareState]:
    whatever the stages of the chain, a run raises nothing and yields
    nothing; it reports one [NotImplementedError] per located record,
    in order. *)
Theorem inherited_parse_yields_nothing
    (self0 : Accessor) (calls : list StageCall) (self : Accessor)
    (entries : list Entry) :
  _chain self0 = [] ->
  build self0 calls = Ok self ->
  _endpoint self (_sort self) (_n self) (_filters self) = Ok entries ->
  exists (self' : Accessor) (g : gen Pair),
    __iter__ inherited self = Ok (self', g) /\
    raised (consume g) = None /\
    items (consume g) = [] /\
    events (consume g)
    = map (fun entry => ParseError (path entry) NotImplementedError) entries.
Proof.
  intros Hchain Hbuild Hentries.
  set (g := fold_left (fun iterate do => do iterate) (_chain self)
                      (iterate inherited None entries)).
  exists (set_progbar self (Some entries)), g.
  assert (Hnone : items (consume (iterate inherited None entries)) = []).
  { rewrite iterate_inherited. unfold items. simpl. clear.
    induction entries as [| entry rest IH]; [done |]. exact IH. }
  assert (Hg : consume g = consume (iterate inherited None entries)).
  { apply chain_itemless; [| exact Hnone].
    apply (build_stages _ per_pair_itemless group_itemless calls self0 self Hbuild).
    rewrite Hchain. constructor. }
  split; [| split; [| split]].
  - unfold __iter__. simpl. unfold Accessor_prepareState. simpl. by rewrite Hentries.
  - by rewrite Hg, iterate_inherited.
  - by rewrite Hg.
  - rewrite Hg, iterate_inherited. unfold events. simpl. clear.
    induction entries as [| entry rest IH]; [done |]. csimpl. by rewrite IH.
Qed.

End MoreRuns.

(** ** Building the chain *)

Section MoreBuilders.

Context {rt : Runtime}.

Lemma append_stage_keeps (self self1 : Accessor) (c : StageCall) :
  append_stage self c = Ok self1 ->
  _endpoint self1 = _endpoint self /\
  _filters self1 = _filters self /\
  _prepareStateParams self1 = _prepareStateParams self /\
  _n self1 = _n self /\
  _progbar self1 = _progbar self /\
  (exists stage, _chain self1 = _chain self ++ [stage]) /\
  match c with
  | Group groups =>
      exists groupFunc, groupFunc_of groups = Ok groupFunc /\
                        _sort self1 = Some (SortFunc groupFunc)
  | _ => _sort self1 = _sort self
  end.
Proof.
  destruct c; simpl.
  - intros [= <-]. simpl. eauto 10.
  - intros [= <-]. simpl. eauto 10.
  - intros [= <-]. simpl. eauto 10.
  - unfold group. destruct (groupFunc_of groups) as [groupFunc |]; [| discriminate].
    simpl. intros [= <-]. simpl. eauto 10.
Qed.

(** X5. Building a chain changes nothing of the record source of the
    pipeline: the endpoint, the filters, the keyword arguments of
    [prepareState] and the limit [n] stay as they were. The chain only
    grows, by one stage per call and at its end. The sort is touched
    by [group] alone: after the calls it is the key function of the
    last [group] call, or the sort the pipeline had when there is
    none. *)
Theorem build_keeps_source (calls : list StageCall) (self self' : Accessor) :
  build self calls = Ok self' ->
  _endpoint self' = _endpoint self /\
  _filters self' = _filters self /\
  _prepareStateParams self' = _prepareStateParams self /\
  _n self' = _n self /\
  _progbar self' = _progbar self /\
  (exists stages, _chain self' = _chain self ++ stages /\
                  length stages = length calls) /\
  match last_group calls with
  | Some groups =>
      exists groupFunc, groupFunc_of groups = Ok groupFunc /\
                        _sort self' = Some (SortFunc groupFunc)
  | None => _sort self' = _sort self
  end.
Proof.
  revert self. induction calls as [| c calls IH]; intros self; simpl.
  - intros [= <-]. repeat split; try done. exists []. by rewrite app_nil_r.
  - destruct (append_stage self c) as [self1 |] eqn:E; [| discriminate].
    simpl. intros Hb.
    destruct (append_stage_keeps _ _ _ E) as (E1 & E2 & E3 & E4 & E5 & [stage E6] & E7).
    destruct (IH _ Hb) as (H1 & H2 & H3 & H4 & H5 & (stages & H6 & Hlen) & H7).
    rewrite H1, H2, H3, H4, H5, E1, E2, E3, E4, E5.
    repeat split; try done.
    + exists (stage :: stages). rewrite H6, E6, <- app_assoc. simpl.
      split; [done | by rewrite Hlen].
    + destruct (last_group calls) as [groups |]; [exact H7 |].
      rewrite H7. by destruct c.
Qed.

Lemma getattrs_values (e : Key) (names vs : list string) :
  Forall2 (fun name v => key_getattr e name = Ok v) names vs ->
  getattrs e names = Ok vs.
Proof.
  induction 1 as [| name v names vs Hv _ IH]; simpl; [done |].
  by rewrite Hv, IH.
Qed.

(** X6. [group] with two field names or more sets the sort of the
    pipeline to a key function and appends the grouping stage by that
    function. On a record that has all these fields the key function
    returns the tuple of their values, in the order of the names. *)
Theorem group_by_fields (self : Accessor) (names : list string) :
  (2 <= length names)%nat ->
  exists groupFunc,
    group self (map ByField names)
    = Ok (set_chain (set_sort self (Some (SortFunc groupFunc)))
                    (_chain self ++ [do_group groupFunc])) /\
    (forall key vs,
        Forall2 (fun name v => key_getattr key name = Ok v) names vs ->
        groupFunc key = Ok (KTuple vs) /\ length vs = length names) /\
    (forall entry vs,
        "path" ∉ names ->
        Forall2 (fun name v => fields entry !! name = Some v) names vs ->
        groupFunc (KEntry entry) = Ok (KTuple vs)).
Proof.
  intros Hlen. destruct names as [| a [| b names]]; simpl in Hlen; try lia.
  assert (Hstr : forallb is_basestring (map ByField (a :: b :: names)) = true).
  { apply forallb_forall. intros g Hin. apply in_map_iff in Hin as (? & <- & _). done. }
  assert (Hnames : map field_name (map ByField (a :: b :: names)) = a :: b :: names).
  { rewrite map_map. apply map_id. }
  exists (fun e => vs ← getattrs e (map field_name (map ByField (a :: b :: names)));
                   mret (KTuple vs)).
  split; [| split].
  - unfold group, groupFunc_of. cbn [map]. cbn [map] in Hstr. by rewrite Hstr.
  - intros key vs Hvs. rewrite Hnames, (getattrs_values _ _ _ Hvs).
    split; [done |]. symmetry. by eapply Forall2_length.
  - intros entry vs Hpath Hvs. rewrite Hnames.
    rewrite (getattrs_values (KEntry entry) (a :: b :: names) vs); [done |].
    clear -Hpath Hvs. induction Hvs as [| name v names' vs' Hv _ IH]; [constructor |].
    apply not_elem_of_cons in Hpath as [Hne Hpath].
    constructor; [| by apply IH].
    unfold key_getattr. rewrite decide_False by done. by rewrite Hv.
Qed.

End MoreBuilders.

(** ** The label of a record *)

Section MoreIdentity.

Lemma append_empty_r (s : string) : s +:+ "" = s.
Proof.
  induction s as [| c s' IH]; [done |].
  change (String c (s' +:+ "") = String c s'). by f_equal.
Qed.

Lemma append_field_value (key : Entry) (name : string) (id_elems : list string) :
  name <> "path" ->
  append_field key name id_elems
  = Ok (id_elems ++ match fields key !! name with Some v => [v] | None => [] end).
Proof.
  intros Hname. unfold append_field, in_fields, key_getattr.
  rewrite decide_False by exact Hname.
  destruct (fields key !! name) as [v |] eqn:E.
  - rewrite bool_decide_eq_true_2 by by eexists. reflexivity.
  - rewrite bool_decide_eq_false_2 by (intros [? ?]; discriminate).
    by rewrite app_nil_r.
Qed.

Lemma in_fields_lookup (key : Entry) (name : string) :
  in_fields name key = match fields key !! name with Some _ => true | None => false end.
Proof.
  unfold in_fields. destruct (fields key !! name) eqn:E.
  - apply bool_decide_eq_true_2. by eexists.
  - apply bool_decide_eq_false_2. intros [? ?]. discriminate.
Qed.

Lemma key_getattr_lookup (key : Entry) (name : string) :
  name <> "path" ->
  key_getattr (KEntry key) name
  = match fields key !! name with Some v => Ok v | None => Raise AttributeError end.
Proof. intros Hname. unfold key_getattr. by rewrite decide_False. Qed.

(** X7. For every record but those with a day and no month, the
    default identity is a string made of the values of the fields the
    record has: unit, site and year run together, the month after a
    space, the day after a dash, the hour after a space and followed
    by a colon, a space being written only when something stands
    before it; a record with none of the six fields has its path as
    identity. *)
Theorem ID_is_label (key : Entry) :
  (in_fields "day" key = true -> in_fields "month" key = true) ->
  ID (KEntry key)
  = Ok (KStr (if has_head key || in_fields "month" key || in_fields "day" key
                 || in_fields "hour" key
              then label key else path key)).
Proof.
  intros Hday. unfold ID, label, has_head, field_or_empty.
  unfold append_field, key_getattr. rewrite !in_fields_lookup in *.
  destruct (fields key !! "unit") as [u |];
    destruct (fields key !! "site") as [s |];
    destruct (fields key !! "year") as [y |];
    destruct (fields key !! "month") as [m |];
    destruct (fields key !! "day") as [d |];
    try (by specialize (Hday eq_refl));
    destruct (fields key !! "hour") as [h |];
    cbn; first [reflexivity
               | rewrite <- (append_empty_r (h +:+ ":")); reflexivity].
Qed.

End MoreIdentity.

(** ** More of the combiner *)

Section MoreCombining.

Context {rt : Runtime}.

Lemma events_write {A} ev (k : gen A) :
  events (consume (Write ev k)) = ev :: events (consume k).
Proof. reflexivity. Qed.

Lemma events_yield {A} (a : A) (next close : gen A) :
  events (consume (Yield a next close)) = events (consume next).
Proof. reflexivity. Qed.

(** The first loop over a run that ends normally, the identity
    function returning on every pair. *)
Lemma bucket_normal (ID : Key -> result Key) (g : gen Pair) :
  forall acc named,
    raised (consume g) = None ->
    Forall2 (fun p nd => ID (fst p) = Ok (fst nd) /\ snd nd = snd p)
            (items (consume g)) named ->
    bucket ID g acc = (events (consume g), Ok (bucketed acc named)).
Proof.
  induction g as [| e | ev k IH | [key data] next IHn close _];
    intros acc named Hraised Hnamed.
  - apply Forall2_nil_inv_l in Hnamed as ->. reflexivity.
  - discriminate.
  - rewrite items_write in Hnamed. rewrite raised_write in Hraised.
    cbn [bucket]. rewrite (IH acc named Hraised Hnamed). by rewrite events_write.
  - rewrite items_yield in Hnamed. rewrite raised_yield in Hraised.
    apply Forall2_cons_inv_l in Hnamed as ([name d] & named' & [Hk Hd] & Hnamed & ->).
    simpl in Hk, Hd. subst d. cbn [bucket]. rewrite Hk.
    rewrite (IHn _ named' Hraised Hnamed). by rewrite events_yield.
Qed.

Lemma dict_append_keys acc name data :
  map fst (dict_append acc name data)
  = if decide (name ∈ map fst acc) then map fst acc else map fst acc ++ [name].
Proof.
  induction acc as [| [name' datas] acc IH]; cbn [dict_append map fst].
  - case_decide as H; [by apply elem_of_nil in H | done].
  - destruct (decide (name' = name)) as [-> | E]; cbn [map fst].
    + rewrite decide_True; [done | by left].
    + rewrite IH. destruct (decide (name ∈ map fst acc)) as [Hin | Hin].
      * rewrite decide_True; [done | by right].
      * rewrite decide_False; [done |].
        intros Hin'. apply elem_of_cons in Hin' as [-> | Hin']; done.
Qed.

Lemma first_seen_covers (seen names : list Key) (k : Key) :
  k ∈ names -> k ∈ seen \/ k ∈ first_seen seen names.
Proof.
  revert seen. induction names as [| n names IH]; intros seen Hin; simpl.
  - by apply elem_of_nil in Hin.
  - apply elem_of_cons in Hin as [-> | Hin].
    + case_decide; [by left | right; by left].
    + case_decide as E; [by apply IH |].
      destruct (IH (seen ++ [n]) Hin) as [H | H].
      * apply elem_of_app in H as [H | H]; [by left |].
        apply list_elem_of_singleton in H as ->. right. by left.
      * right. by right.
Qed.

Lemma dict_append_NoDup acc name data :
  NoDup (map fst acc) -> NoDup (map fst (dict_append acc name data)).
Proof.
  intros H. rewrite dict_append_keys. case_decide; [done |].
  apply NoDup_app. split; [done |]. split; [| apply NoDup_singleton].
  intros x Hx Hx'. apply list_elem_of_singleton in Hx' as ->. done.
Qed.

Lemma dict_append_mem acc name data k ds :
  NoDup (map fst acc) ->
  (k, ds) ∈ dict_append acc name data ->
  (k <> name /\ (k, ds) ∈ acc) \/
  (k = name /\ ((exists ds0, (name, ds0) ∈ acc /\ ds = ds0 ++ [data]) \/
                ((name ∉ map fst acc) /\ ds = [data]))).
Proof.
  induction acc as [| [name' datas] acc IH]; simpl; intros Hnd Hin.
  - apply list_elem_of_singleton in Hin as [= -> ->]. right.
    split; [done |]. right. split; [apply not_elem_of_nil | done].
  - apply NoDup_cons in Hnd as [Hfresh Hnd]. case_decide as E.
    + subst name'. apply elem_of_cons in Hin as [[= -> ->] | Hin].
      * right. split; [done |]. left. exists datas. split; [by left | done].
      * left. split; [| by right]. intros ->. apply Hfresh.
        apply list_elem_of_fmap. by exists (name, ds).
    + apply elem_of_cons in Hin as [[= -> ->] | Hin].
      * left. split; [done | by left].
      * destruct (IH Hnd Hin) as [[Hk Hin'] | [-> [(ds0 & Hin' & ->) | [Hout ->]]]].
        -- left. split; [done | by right].
        -- right. split; [done |]. left. exists ds0. split; [by right | done].
        -- right. split; [done |]. right. split; [| done].
           intros Hin'. apply elem_of_cons in Hin' as [-> | Hin']; done.
Qed.

Lemma bucketed_keys acc named :
  map fst (bucketed acc named)
  = map fst acc ++ first_seen (map fst acc) (map fst named).
Proof.
  revert acc. induction named as [| [name d] named IH]; intros acc; simpl.
  - by rewrite app_nil_r.
  - unfold bucketed in *. simpl. rewrite IH, dict_append_keys.
    case_decide; [done |]. by rewrite <- app_assoc.
Qed.

Lemma bucketed_NoDup acc named :
  NoDup (map fst acc) -> NoDup (map fst (bucketed acc named)).
Proof.
  revert acc. induction named as [| [name d] named IH]; intros acc H; [done |].
  unfold bucketed in *. simpl. apply IH. by apply dict_append_NoDup.
Qed.

Lemma filter_name_cons_ne (k name : Key) (d : Structure) named :
  k <> name ->
  filter (fun nd : Key * Structure => fst nd = k) ((name, d) :: named)
  = filter (fun nd => fst nd = k) named.
Proof. intros H. rewrite filter_cons. simpl. rewrite decide_False; [done | congruence]. Qed.

Lemma filter_name_cons_eq (k : Key) (d : Structure) named :
  filter (fun nd : Key * Structure => fst nd = k) ((k, d) :: named)
  = (k, d) :: filter (fun nd => fst nd = k) named.
Proof. rewrite filter_cons. simpl. by rewrite decide_True. Qed.

Lemma bucketed_mem acc named k ds :
  NoDup (map fst acc) ->
  (k, ds) ∈ bucketed acc named ->
  (exists ds0, (k, ds0) ∈ acc /\
               ds = ds0 ++ map snd (filter (fun nd => fst nd = k) named)) \/
  ((k ∉ map fst acc) /\ ds = map snd (filter (fun nd => fst nd = k) named)).
Proof.
  revert acc. induction named as [| [name d] named IH]; intros acc Hnd Hin.
  - left. exists ds. split; [exact Hin | by rewrite app_nil_r].
  - unfold bucketed in Hin. simpl in Hin. fold (bucketed (dict_append acc name d) named) in Hin.
    destruct (IH _ (dict_append_NoDup acc name d Hnd) Hin)
      as [(ds0 & Hin0 & ->) | [Hout ->]].
    + destruct (dict_append_mem _ _ _ _ _ Hnd Hin0)
        as [[Hk Hin'] | [-> [(ds1 & Hin' & ->) | [Hfresh ->]]]].
      * left. exists ds0. split; [done |]. by rewrite filter_name_cons_ne.
      * left. exists ds1. split; [done |].
        rewrite filter_name_cons_eq. simpl. by rewrite <- app_assoc.
      * right. split; [done |]. by rewrite filter_name_cons_eq.
    + right. rewrite dict_append_keys in Hout.
      assert (Hk : k <> name /\ k ∉ map fst acc).
      { case_decide as E.
        - split; [| done]. intros ->. done.
        - apply not_elem_of_app in Hout as [Hout Hne]. split; [| done].
          intros ->. apply Hne. by left. }
      destruct Hk as [Hk Hacc]. split; [done |]. by rewrite filter_name_cons_ne.
Qed.

(** X8. The first loop of [combine], over a run that ends normally
    and an identity function that returns on every pair: no identity
    has two buckets; the identities that have a bucket are those of
    the pairs of the run; and the bucket of an identity holds every
    Structure of that identity, in the order of the run, and at least
    one. What the run reported is reported. *)
Theorem buckets_by_identity
    (ID : Key -> result Key) (g : gen Pair) (named : list (Key * Structure)) :
  raised (consume g) = None ->
  Forall2 (fun p nd => ID (fst p) = Ok (fst nd) /\ snd nd = snd p)
          (items (consume g)) named ->
  exists buckets,
    bucket ID g [] = (events (consume g), Ok buckets) /\
    NoDup (map fst buckets) /\
    (forall k, k ∈ map fst buckets <-> k ∈ map fst named) /\
    (forall k ds, (k, ds) ∈ buckets ->
       ds = map snd (filter (fun nd => fst nd = k) named) /\ ds <> []).
Proof.
  intros Hraised Hnamed. exists (bucketed [] named).
  pose proof (bucket_normal ID g [] named Hraised Hnamed) as Hbucket.
  assert (Hmem : forall k ds, (k, ds) ∈ bucketed [] named ->
            ds = map snd (filter (fun nd => fst nd = k) named) /\ ds <> []).
  { intros k ds Hin. split.
    - destruct (bucketed_mem [] named k ds (NoDup_nil_2) Hin)
        as [(ds0 & Hin0 & _) | [_ ->]]; [by apply elem_of_nil in Hin0 | done].
    - assert (Hne : Forall (fun b : Key * list Structure => snd b <> []) (bucketed [] named)).
      { eapply bucket_nonempty; [exact Hbucket | constructor]. }
      rewrite Forall_forall in Hne. exact (Hne _ Hin). }
  split; [exact Hbucket |]. split; [apply bucketed_NoDup; constructor |].
  split; [| exact Hmem].
  intros k. split.
  - intros Hin. apply list_elem_of_fmap in Hin as ([k' ds] & -> & Hin). simpl.
    destruct (Hmem _ _ Hin) as [-> Hne].
    destruct (filter (fun nd : Key * Structure => fst nd = k') named) as [| nd l] eqn:E;
      [done |].
    assert (Hnd : nd ∈ filter (fun nd : Key * Structure => fst nd = k') named)
      by (rewrite E; by left).
    apply list_elem_of_filter in Hnd as [<- Hnd].
    apply list_elem_of_fmap. by exists nd.
  - intros Hin. rewrite bucketed_keys. simpl.
    destruct (first_seen_covers [] _ k Hin) as [H | H]; [| exact H].
    by apply elem_of_nil in H.
Qed.

Lemma bucketed_one_identity (k : Key) (ds : list Structure) named :
  Forall (fun nd : Key * Structure => fst nd = k) named ->
  bucketed [(k, ds)] named = [(k, ds ++ map snd named)].
Proof.
  revert ds. induction named as [| [name d] named IH]; intros ds H.
  - by rewrite app_nil_r.
  - apply Forall_cons in H as [Hk H]. simpl in Hk. subst name.
    unfold bucketed in *. simpl. rewrite decide_True by done.
    rewrite (IH _ H). simpl. by rewrite <- app_assoc.
Qed.

Lemma flatten_one_or_concat (datas : list Structure) (flat : Structure) :
  datas = [flat] \/ ((1 < length datas)%nat /\ pd_concat datas = Ok flat) ->
  flatten datas = ([], Ok flat).
Proof.
  intros [-> | [Hlen E]]; [done |]. unfold flatten.
  rewrite bool_decide_eq_true_2 by exact Hlen. by rewrite E.
Qed.

Section MoreCombined.

Variable P : Parser.

(** The parts of [combine]: the run, the two loops, the merge. *)
Lemma combine_run self self' g func into ID_arg args kwargs :
  __iter__ P self = Ok (self', g) ->
  snd (combine P self func into ID_arg args kwargs)
  = io_bind (finished (match ID_arg with None => ID | Some f => f end)
                      (fun flat => func flat args kwargs) g)
            (fun results =>
               match results with
               | [] => io_ret (Mapping results)
               | [(key, result)] => io_ret (Value result)
               | _ => lift (merge results)
               end).
Proof. intros H. unfold combine. by rewrite H. Qed.

(** X9. When every pair of a run that ends normally has the same
    identity, [combine] returns the finished value of that identity
    itself, not a mapping: the finisher applied to the one Structure
    of the run, or to the concatenation of all its Structures in the
    order of the run. *)
Theorem single_identity_value
    self self' g func into ID_arg args kwargs
    (named : list (Key * Structure)) (k : Key) (flat v : Structure) :
  __iter__ P self = Ok (self', g) ->
  raised (consume g) = None ->
  Forall2 (fun p nd => match ID_arg with None => ID | Some f => f end (fst p)
                       = Ok (fst nd) /\ snd nd = snd p)
          (items (consume g)) named ->
  named <> [] ->
  Forall (fun nd => fst nd = k) named ->
  map snd named = [flat] \/
  ((1 < length (map snd named))%nat /\ pd_concat (map snd named) = Ok flat) ->
  func flat args kwargs = Ok v ->
  snd (combine P self func into ID_arg args kwargs)
  = (events (consume g), Ok (Value v)).
Proof.
  intros Hiter Hraised Hnamed Hne Hsame Hflat Hfunc.
  rewrite (combine_run _ _ _ _ _ _ _ _ Hiter). unfold finished.
  rewrite (bucket_normal _ g [] named Hraised Hnamed).
  destruct named as [| [name d] named]; [done |].
  pose proof Hsame as Hk. apply Forall_cons in Hk as [Hk Hrest]. simpl in Hk. subst name.
  assert (Hb : bucketed [] ((k, d) :: named) = [(k, map snd ((k, d) :: named))]).
  { change (bucketed [] ((k, d) :: named)) with (bucketed [(k, [d])] named).
    by rewrite (bucketed_one_identity k [d] named Hrest). }
  rewrite Hb. cbn [io_bind finish].
  rewrite (flatten_one_or_concat _ _ Hflat). cbn [io_bind]. unfold finish_slot.
  rewrite Hfunc. cbn. by rewrite !app_nil_r.
Qed.

(** X10. A run that yields nothing and ends normally, because no
    record is located or because every record fails: [combine]
    returns the empty mapping and reports what the run reported. *)
Theorem nothing_to_combine self self' g func into ID_arg args kwargs :
  __iter__ P self = Ok (self', g) ->
  raised (consume g) = None ->
  items (consume g) = [] ->
  snd (combine P self func into ID_arg args kwargs)
  = (events (consume g), Ok (Mapping [])).
Proof.
  intros Hiter Hraised Hitems.
  rewrite (combine_run _ _ _ _ _ _ _ _ Hiter). unfold finished.
  rewrite (bucket_normal _ g [] [] Hraised); [| rewrite Hitems; constructor].
  cbn. by rewrite !app_nil_r.
Qed.

(** X11. When every pair of a run that ends normally has the same
    identity and [pd.concat] refuses its Structures: on a [TypeError],
    [combine] warns, gives the finisher the list of the Structures as
    they are, and returns what the finisher returns; on any other
    exception [combine] raises it, and the finisher is not called. *)
Theorem single_identity_concat_failure
    self self' g func into ID_arg args kwargs
    (named : list (Key * Structure)) (k : Key) (e : exn) :
  __iter__ P self = Ok (self', g) ->
  raised (consume g) = None ->
  Forall2 (fun p nd => match ID_arg with None => ID | Some f => f end (fst p)
                       = Ok (fst nd) /\ snd nd = snd p)
          (items (consume g)) named ->
  Forall (fun nd => fst nd = k) named ->
  (1 < length named)%nat ->
  pd_concat (map snd named) = Raise e ->
  (e = TypeError ->
   forall v, func (PyList (map snd named)) args kwargs = Ok v ->
     snd (combine P self func into ID_arg args kwargs)
     = (events (consume g) ++ [ConcatWarning], Ok (Value v))) /\
  (e <> TypeError ->
   snd (combine P self func into ID_arg args kwargs) = (events (consume g), Raise e)).
Proof.
  intros Hiter Hraised Hnamed Hsame Hlen Hconcat.
  rewrite (combine_run _ _ _ _ _ _ _ _ Hiter). unfold finished.
  rewrite (bucket_normal _ g [] named Hraised Hnamed).
  destruct named as [| [name d] named]; [simpl in Hlen; lia |].
  pose proof Hsame as Hk. apply Forall_cons in Hk as [Hk Hrest]. simpl in Hk. subst name.
  assert (Hb : bucketed [] ((k, d) :: named) = [(k, map snd ((k, d) :: named))]).
  { change (bucketed [] ((k, d) :: named)) with (bucketed [(k, [d])] named).
    by rewrite (bucketed_one_identity k [d] named Hrest). }
  rewrite Hb. cbn [io_bind finish]. unfold flatten.
  rewrite bool_decide_eq_true_2 by (by rewrite length_map). rewrite Hconcat.
  split.
  - intros -> v Hfunc. cbn [io_bind]. unfold finish_slot. rewrite Hfunc. cbn.
    by rewrite !app_nil_r.
  - intros He. assert (Hflat : match e with
                               | TypeError => ([ConcatWarning], Ok (PyList (map snd ((k, d) :: named))))
                               | _ => lift (Raise e)
                               end = (([] : list event), @Raise Structure e))
      by by destruct e.
    rewrite Hflat. cbn. by rewrite !app_nil_r.
Qed.

End MoreCombined.

End MoreCombining.

(** ** The merge of the combiner *)

Section MoreMerging.

Context {rt : Runtime}.

Lemma same_types_forallb (results : list (Key * Structure)) (example : Structure) :
  Forall (fun df => type_of df = type_of example) (map snd results) ->
  forallb (fun kv : Key * Structure => bool_decide (type_of (snd kv) = type_of example))
          results = true.
Proof.
  intros H. apply forallb_forall. intros kv Hin. apply bool_decide_eq_true.
  rewrite Forall_forall in H. apply H. apply list_elem_of_fmap. exists kv.
  split; [done |]. by apply list_elem_of_In.
Qed.

Lemma mixed_types_forallb (results : list (Key * Structure)) (example : Structure) :
  Exists (fun df => type_of df <> type_of example) (map snd results) ->
  forallb (fun kv : Key * Structure => bool_decide (type_of (snd kv) = type_of example))
          results = false.
Proof.
  intros H. apply not_true_is_false. intros Hall.
  rewrite forallb_forall in Hall. apply Exists_exists in H as (df & Hin & Hne).
  apply list_elem_of_fmap in Hin as (kv & -> & Hin). apply Hne.
  apply list_elem_of_In in Hin. specialize (Hall kv Hin).
  by apply bool_decide_eq_true in Hall.
Qed.

Lemma lens_axes attr dfs :
  Forall (fun df => exists ix, getter attr df = Ok (AxisAttr ix)) dfs ->
  mapM (fun df => v ← getter attr df; len_attr v) dfs
  = Ok (map (fun df => length (labels (axis_of attr df))) dfs).
Proof.
  induction 1 as [| df dfs [ix Hdf] _ IH]; simpl; [done |].
  unfold axis_of at 1. rewrite Hdf, IH. reflexivity.
Qed.

Lemma getters_axes attr dfs :
  Forall (fun df => exists ix, getter attr df = Ok (AxisAttr ix)) dfs ->
  mapM (getter attr) dfs = Ok (map AxisAttr (map (axis_of attr) dfs)).
Proof.
  induction 1 as [| df dfs [ix Hdf] _ IH]; simpl; [done |].
  unfold axis_of at 1. rewrite Hdf, IH. reflexivity.
Qed.

(** [percentIndexOverlap] on results that all have the axis: the
    overlap fraction of the axis, or a division by zero. *)
Lemma percentIndexOverlap_axes attr (results : list (Key * Structure)) :
  results <> [] ->
  Forall (fun df => exists ix, getter attr df = Ok (AxisAttr ix)) (map snd results) ->
  percentIndexOverlap attr results
  = if decide (largest (map (axis_of attr) (map snd results)) = 0%nat)
    then Raise ZeroDivisionError
    else Ok (overlap_fraction (map (axis_of attr) (map snd results))).
Proof.
  intros Hne Haxes. unfold percentIndexOverlap.
  rewrite (lens_axes _ _ Haxes), ?bind_Ok, (getters_axes _ _ Haxes).
  destruct results as [| [k df] results]; [done |]. simpl.
  rewrite ?bind_Ok, reduce_axes, ?bind_Ok. simpl. rewrite ?bind_Ok.
  unfold truediv, overlap_fraction, largest. simpl.
  rewrite !foldl_max, (map_map (axis_of attr) (fun ix => length (labels ix))).
  reflexivity.
Qed.

Lemma series_inv df :
  type_of df = TSeries -> exists index cells, df = Series index cells.
Proof. destruct df; try discriminate. intros _. by eexists _, _. Qed.

Lemma panel_inv df :
  type_of df = TPanel ->
  exists items major_axis minor_axis cells, df = Panel items major_axis minor_axis cells.
Proof. destruct df; try discriminate. intros _. by eexists _, _, _, _. Qed.

Lemma reduce_from_shrinks (acc : attr_value) (cols : list attr_value) m n :
  (forall a b, (length (labels (Index_intersection a b)) <= length (labels a))%nat) ->
  reduce_from intersection acc cols = Ok m ->
  len_attr m = Ok n ->
  exists a, acc = AxisAttr a /\ (n <= length (labels a))%nat.
Proof.
  intros Hshrink. revert acc. induction cols as [| c cols IH]; intros acc; simpl.
  - intros [= ->] Hn. destruct m as [a |]; [| discriminate].
    injection Hn as <-. by exists a.
  - destruct acc as [a |]; [| discriminate]. destruct c as [b |]; [| discriminate].
    simpl. intros Hred Hn. destruct (IH _ Hred Hn) as (a' & [= <-] & Hle).
    exists a. split; [done |]. specialize (Hshrink a b). lia.
Qed.

Section MoreMerged.

Variable P : Parser.

(** X12. In [combine], with two identities or more whose results all
    have the type of the first, a scalar ([np.isscalar], or a
    Timedelta, Timestamp or Period): the result is what [pd.Series]
    makes of the mapping. *)
Theorem scalars_merge_to_series
    self self' g func into ID_arg args kwargs evs
    (results : list (Key * Structure)) (example : Structure) :
  __iter__ P self = Ok (self', g) ->
  finished (match ID_arg with None => ID | Some f => f end)
           (fun flat => func flat args kwargs) g = (evs, Ok results) ->
  (2 <= length results)%nat ->
  head (map snd results) = Some example ->
  Forall (fun df => type_of df = type_of example) (map snd results) ->
  np_isscalar example || is_time_scalar example = true ->
  snd (combine P self func into ID_arg args kwargs)
  = (evs, v ← pd_Series results; mret (Value v)).
Proof.
  intros Hiter Hfin Hlen Hhead Htypes Hscalar.
  rewrite (combine_merges P _ _ _ _ _ _ _ _ _ _ Hiter Hfin Hlen).
  destruct results as [| [k ex] rest]; [done |]. injection Hhead as ->.
  unfold merge. by rewrite (same_types_forallb _ _ Htypes), Hscalar.
Qed.

(** X13. In [combine], with two identities or more: when a result has
    not the type of the first, or when all have the type of the first
    and it is one [combine] merges nothing of (None, a tuple, a
    Panel4D, any other object), the mapping of the results is returned
    as it is. *)
Theorem unmergeable_results_returned
    self self' g func into ID_arg args kwargs evs
    (results : list (Key * Structure)) (example : Structure) :
  __iter__ P self = Ok (self', g) ->
  finished (match ID_arg with None => ID | Some f => f end)
           (fun flat => func flat args kwargs) g = (evs, Ok results) ->
  (2 <= length results)%nat ->
  head (map snd results) = Some example ->
  Exists (fun df => type_of df <> type_of example) (map snd results) \/
  unmerged (type_of example) = true ->
  snd (combine P self func into ID_arg args kwargs) = (evs, Ok (Mapping results)).
Proof.
  intros Hiter Hfin Hlen Hhead Hcase.
  rewrite (combine_merges P _ _ _ _ _ _ _ _ _ _ Hiter Hfin Hlen).
  destruct results as [| [k ex] rest]; [done |]. injection Hhead as ->.
  unfold merge. destruct Hcase as [Hmixed | Hun].
  - by rewrite (mixed_types_forallb _ _ Hmixed).
  - destruct (forallb _ _); [| done].
    destruct example; try discriminate Hun; reflexivity.
Qed.

(** X14. In [combine], with two identities or more whose results are
    all lists (as when the finisher has raised for every identity):
    the attribute [index] of a list is its method, which has no
    length, and [combine] raises [TypeError]. *)
Theorem lists_raise_type_error
    self self' g func into ID_arg args kwargs evs (results : list (Key * Structure)) :
  __iter__ P self = Ok (self', g) ->
  finished (match ID_arg with None => ID | Some f => f end)
           (fun flat => func flat args kwargs) g = (evs, Ok results) ->
  (2 <= length results)%nat ->
  Forall (fun df => type_of df = TList) (map snd results) ->
  snd (combine P self func into ID_arg args kwargs) = (evs, Raise TypeError).
Proof.
  intros Hiter Hfin Hlen Hlists.
  rewrite (combine_merges P _ _ _ _ _ _ _ _ _ _ Hiter Hfin Hlen).
  destruct results as [| [k example] rest]; [simpl in Hlen; lia |].
  pose proof Hlists as Hex. apply Forall_cons in Hex as [Hex _]. simpl in Hex.
  destruct example; try discriminate Hex.
  unfold merge. rewrite (same_types_forallb _ (PyList elems) Hlists).
  reflexivity.
Qed.

(** X15. In [combine], with two identities or more whose results are
    all Series, the longest having a label: at an overlap of the
    indexes of 0.75 or more the result is what [pd.DataFrame.from_dict]
    makes of the mapping, below it what [pd.concat] makes of it; when
    that call raises [AttributeError] the mapping itself is returned,
    and any other exception is raised. *)
Theorem series_merge_by_overlap
    self self' g func into ID_arg args kwargs evs (results : list (Key * Structure)) :
  __iter__ P self = Ok (self', g) ->
  finished (match ID_arg with None => ID | Some f => f end)
           (fun flat => func flat args kwargs) g = (evs, Ok results) ->
  (2 <= length results)%nat ->
  Forall (fun df => type_of df = TSeries) (map snd results) ->
  let rows := overlap_fraction (map (axis_of "index") (map snd results)) in
  let run := snd (combine P self func into ID_arg args kwargs) in
  (0 < largest (map (axis_of "index") (map snd results)))%nat ->
  ((overlapThreshold <= rows)%Q ->
   run = (evs, or_mapping results (pd_DataFrame_from_dict results))) /\
  ((rows < overlapThreshold)%Q ->
   run = (evs, or_mapping results (pd_concat_dict results))).
Proof.
  intros Hiter Hfin Hlen Hseries rows run Hlong.
  assert (Hrun : run = (evs, merge results)) by by eapply combine_merges.
  assert (Hne : results <> []) by (destruct results; [simpl in Hlen; lia | done]).
  assert (Haxes : Forall (fun df => exists ix, getter "index" df = Ok (AxisAttr ix))
                         (map snd results)).
  { eapply Forall_impl; [exact Hseries |]. intros df Hdf.
    destruct (series_inv df Hdf) as (index & cells & ->). by eexists. }
  assert (Hrows : percentIndexOverlap "index" results = Ok rows).
  { rewrite (percentIndexOverlap_axes "index" _ Hne Haxes). case_decide; [lia | done]. }
  rewrite Hrun. destruct results as [| [k example] rest]; [done |].
  pose proof Hseries as Hex. apply Forall_cons in Hex as [Hex _]. simpl in Hex.
  destruct (series_inv example Hex) as (index & cells & ->).
  unfold merge. rewrite (same_types_forallb _ (Series index cells) Hseries).
  cbn [np_isscalar is_time_scalar orb]. rewrite Hrows, bind_Ok. split.
  - intros H. by rewrite (Qle_bool_true _ _ H).
  - intros H. by rewrite (Qle_bool_false _ _ H).
Qed.

(** X16. In [combine], with two identities or more whose results are
    all Panels, each of whose three axes has a label in some result:
    when the overlap is 0.75 or more on the three axes the result is
    what [pd.Panel4D.from_dict] makes of the mapping; when it is below
    0.75 on an axis the mapping is returned as it is. *)
Theorem panels_merge_by_overlap
    self self' g func into ID_arg args kwargs evs (results : list (Key * Structure)) :
  __iter__ P self = Ok (self', g) ->
  finished (match ID_arg with None => ID | Some f => f end)
           (fun flat => func flat args kwargs) g = (evs, Ok results) ->
  (2 <= length results)%nat ->
  Forall (fun df => type_of df = TPanel) (map snd results) ->
  let fraction attr := overlap_fraction (map (axis_of attr) (map snd results)) in
  let run := snd (combine P self func into ID_arg args kwargs) in
  (forall attr, attr ∈ ["items"; "major_axis"; "minor_axis"] ->
                (0 < largest (map (axis_of attr) (map snd results)))%nat) ->
  ((overlapThreshold <= fraction "items")%Q ->
   (overlapThreshold <= fraction "major_axis")%Q ->
   (overlapThreshold <= fraction "minor_axis")%Q ->
   run = (evs, v ← pd_Panel4D_from_dict results; mret (Value v))) /\
  ((fraction "items" < overlapThreshold)%Q \/
   (fraction "major_axis" < overlapThreshold)%Q \/
   (fraction "minor_axis" < overlapThreshold)%Q ->
   run = (evs, Ok (Mapping results))).
Proof.
  intros Hiter Hfin Hlen Hpanels fraction run Hlong.
  assert (Hrun : run = (evs, merge results)) by by eapply combine_merges.
  assert (Hne : results <> []) by (destruct results; [simpl in Hlen; lia | done]).
  assert (Hfrac : forall attr, attr ∈ ["items"; "major_axis"; "minor_axis"] ->
                    percentIndexOverlap attr results = Ok (fraction attr)).
  { intros attr Hattr.
    rewrite (percentIndexOverlap_axes attr _ Hne).
    - specialize (Hlong attr Hattr). case_decide; [lia | done].
    - eapply Forall_impl; [exact Hpanels |]. intros df Hdf.
      destruct (panel_inv df Hdf) as (i & ma & mi & cells & ->).
      apply elem_of_cons in Hattr as [-> | Hattr]; [by eexists |].
      apply elem_of_cons in Hattr as [-> | Hattr]; [by eexists |].
      apply list_elem_of_singleton in Hattr as ->. by eexists. }
  rewrite Hrun. destruct results as [| [k example] rest]; [done |].
  pose proof Hpanels as Hex. apply Forall_cons in Hex as [Hex _]. simpl in Hex.
  destruct (panel_inv example Hex) as (i & ma & mi & cells & ->).
  unfold merge. rewrite (same_types_forallb _ (Panel i ma mi cells) Hpanels).
  cbn [np_isscalar is_time_scalar orb all_of].
  rewrite (Hfrac "items") by (by left).
  rewrite (Hfrac "major_axis") by (right; by left).
  rewrite (Hfrac "minor_axis") by (right; right; by left).
  rewrite ?bind_Ok. unfold mret, result_ret. rewrite ?bind_Ok. split.
  - intros H1 H2 H3.
    rewrite (Qle_bool_true _ _ H1), ?bind_Ok, (Qle_bool_true _ _ H2), ?bind_Ok,
      (Qle_bool_true _ _ H3). reflexivity.
  - intros [H | [H | H]].
    + by rewrite (Qle_bool_false _ _ H).
    + rewrite (Qle_bool_false _ _ H).
      by destruct (Qle_bool overlapThreshold (fraction "items")).
    + rewrite (Qle_bool_false _ _ H).
      destruct (Qle_bool overlapThreshold (fraction "items")); [| done].
      by destruct (Qle_bool overlapThreshold (fraction "major_axis")).
Qed.

(** X17. In [combine], with two identities or more whose results are
    all tables without a single column: the overlap of the columns is
    a division by zero, and [combine] raises [ZeroDivisionError]. *)
Theorem empty_tables_divide_by_zero
    self self' g func into ID_arg args kwargs evs (results : list (Key * Structure)) :
  __iter__ P self = Ok (self', g) ->
  finished (match ID_arg with None => ID | Some f => f end)
           (fun flat => func flat args kwargs) g = (evs, Ok results) ->
  (2 <= length results)%nat ->
  Forall (fun df => type_of df = TDataFrame) (map snd results) ->
  Forall (fun df => labels (columns_of df) = []) (map snd results) ->
  snd (combine P self func into ID_arg args kwargs) = (evs, Raise ZeroDivisionError).
Proof.
  intros Hiter Hfin Hlen Htables Hempty.
  rewrite (combine_merges P _ _ _ _ _ _ _ _ _ _ Hiter Hfin Hlen).
  assert (Hne : results <> []) by (destruct results; [simpl in Hlen; lia | done]).
  rewrite (merge_tables _ Hne Htables).
  rewrite (percentIndexOverlap_tables "columns" columns_of getter_columns _ Hne Htables).
  assert (Hzero : largest (map columns_of (map snd results)) = 0%nat).
  { unfold largest. clear -Hempty. induction Hempty as [| df dfs Hdf _ IH]; [done |].
    simpl. rewrite Hdf, IH. reflexivity. }
  by rewrite decide_True.
Qed.

End MoreMerged.

(** X18. Whatever the axis and the results, when the intersection of
    two indexes has no more labels than the first of them, the
    fraction [percentIndexOverlap] returns lies between 0 and 1. *)
Theorem overlap_between_0_and_1 attr (results : list (Key * Structure)) (q : Q) :
  (forall a b, (length (labels (Index_intersection a b)) <= length (labels a))%nat) ->
  percentIndexOverlap attr results = Ok q ->
  (0 <= q)%Q /\ (q <= 1)%Q.
Proof.
  intros Hshrink. unfold percentIndexOverlap.
  destruct (mapM (fun df => v ← getter attr df; len_attr v) (map snd results))
    as [lens |] eqn:E1; [| discriminate]. rewrite ?bind_Ok.
  destruct (max_of lens) as [longest |] eqn:E2; [| discriminate]. rewrite ?bind_Ok.
  destruct (mapM (getter attr) (map snd results)) as [cols |] eqn:E3; [| discriminate].
  rewrite ?bind_Ok.
  destruct (reduce intersection cols) as [m |] eqn:E4; [| discriminate]. rewrite ?bind_Ok.
  destruct (len_attr m) as [n |] eqn:E5; [| discriminate]. rewrite ?bind_Ok.
  unfold truediv. case_decide as Hz; [discriminate |]. intros [= <-].
  assert (Hle : (n <= longest)%nat).
  { destruct (map snd results) as [| df dfs]; simpl in E1, E3.
    - injection E3 as <-. discriminate E4.
    - destruct (getter attr df) as [c |] eqn:Ec; [| discriminate].
      cbn [mbind result_bind] in E1, E3.
      destruct (len_attr c) as [l0 |] eqn:El; [| discriminate]. cbn [mbind result_bind] in E1.
      destruct (mapM _ dfs) as [ls |]; [| discriminate]. injection E1 as <-.
      destruct (mapM (getter attr) dfs) as [cs |]; [| discriminate]. injection E3 as <-.
      simpl in E2. injection E2 as <-. simpl in E4.
      destruct (reduce_from_shrinks c cs m n Hshrink E4 E5) as (a & -> & Hn).
      simpl in El. injection El as <-. rewrite foldl_max. lia. }
  assert (Hpos : (0 < inject_Z (Z.of_nat longest))%Q).
  { rewrite <- (Zlt_Qlt 0). lia. }
  split.
  - apply Qle_shift_div_l; [exact Hpos |]. rewrite Qmult_0_l.
    rewrite <- (Zle_Qle 0). lia.
  - apply Qle_shift_div_r; [exact Hpos |]. rewrite Qmult_1_l.
    rewrite <- Zle_Qle. lia.
Qed.

End MoreMerging.

(** ** What ends [combine] *)

Section MoreAborts.

Context {rt : Runtime}.

Lemma bucket_run_failure (ID : Key -> result Key) (g : gen Pair) :
  forall acc e,
    raised (consume g) = Some e ->
    Forall (fun q => is_Ok (ID (fst q)) = true) (items (consume g)) ->
    bucket ID g acc = (events (consume g), Raise e).
Proof.
  induction g as [| e0 | ev k IH | [key data] next IHn close _];
    intros acc e Hraised Hok.
  - discriminate.
  - injection Hraised as ->. reflexivity.
  - rewrite items_write in Hok. rewrite raised_write in Hraised.
    cbn [bucket]. rewrite (IH acc e Hraised Hok). by rewrite events_write.
  - rewrite items_yield in Hok. rewrite raised_yield in Hraised.
    apply Forall_cons in Hok as [Hkey Hok]. simpl in Hkey. cbn [bucket].
    destruct (ID key) as [name |]; [| discriminate].
    rewrite (IHn _ e Hraised Hok). by rewrite events_yield.
Qed.

Lemma bucket_ID_failure (ID : Key -> result Key) (g : gen Pair) :
  forall acc l1 p l2 e,
    items (consume g) = l1 ++ p :: l2 ->
    Forall (fun q => is_Ok (ID (fst q)) = true) l1 ->
    ID (fst p) = Raise e ->
    exists evs, bucket ID g acc = (evs, Raise e).
Proof.
  induction g as [| e0 | ev k IH | [key data] next IHn close _];
    intros acc l1 p l2 e Hitems Hok Hp.
  - by destruct l1.
  - by destruct l1.
  - rewrite items_write in Hitems. cbn [bucket].
    destruct (IH acc l1 p l2 e Hitems Hok Hp) as [evs ->]. by eexists.
  - rewrite items_yield in Hitems. cbn [bucket]. destruct l1 as [| q l1].
    + injection Hitems as <- _. simpl in Hp. rewrite Hp. by eexists.
    + injection Hitems as <- Hitems. apply Forall_cons in Hok as [Hkey Hok].
      simpl in Hkey. destruct (ID key) as [name |]; [| discriminate].
      by eapply IHn.
Qed.

(** X19. [combine] isolates nothing of what happens before its
    finishing loop: an exception that ends the run of the chain, and
    an exception the identity function raises on a pair, are raised by
    [combine] itself, whatever the finishing function. *)
Theorem combine_raises_run_and_identity_failures
    (P : Parser) self self' g func into ID_arg args kwargs :
  __iter__ P self = Ok (self', g) ->
  let identity := match ID_arg with None => ID | Some f => f end in
  (forall e,
      raised (consume g) = Some e ->
      Forall (fun q => is_Ok (identity (fst q)) = true) (items (consume g)) ->
      snd (combine P self func into ID_arg args kwargs)
      = (events (consume g), Raise e)) /\
  (forall l1 p l2 e,
      items (consume g) = l1 ++ p :: l2 ->
      Forall (fun q => is_Ok (identity (fst q)) = true) l1 ->
      identity (fst p) = Raise e ->
      exists evs, snd (combine P self func into ID_arg args kwargs) = (evs, Raise e)).
Proof.
  intros Hiter. cbv zeta. split.
  - intros e Hraised Hok. rewrite (combine_run P _ _ _ _ _ _ _ _ Hiter).
    unfold finished. by rewrite (bucket_run_failure _ g [] e Hraised Hok).
  - intros l1 p l2 e Hitems Hok Hp. rewrite (combine_run P _ _ _ _ _ _ _ _ Hiter).
    unfold finished.
    destruct (bucket_ID_failure _ g [] l1 p l2 e Hitems Hok Hp) as [evs ->].
    by exists evs.
Qed.

End MoreAborts.

(** ** Making an accessor *)

Section MoreConstruction.

Lemma dict_get_mem (d : Kwargs) (k : string) (v : Structure) :
  NoDup (map fst d) -> dict_get d k = Some v <-> (k, v) ∈ d.
Proof.
  induction d as [| [k' v'] d IH]; simpl; intros Hnd.
  - split; [discriminate | intros H; by apply elem_of_nil in H].
  - apply NoDup_cons in Hnd as [Hfresh Hnd]. case_decide as E.
    + subst k'. split.
      * intros [= ->]. by left.
      * intros Hin. apply elem_of_cons in Hin as [[= ->] | Hin]; [done |].
        exfalso. apply Hfresh. apply list_elem_of_fmap. by exists (k, v).
    + rewrite (IH Hnd). split.
      * intros Hin. by right.
      * intros Hin. apply elem_of_cons in Hin as [[= -> ->] | Hin]; done.
Qed.

Lemma dict_get_None (d : Kwargs) (k : string) :
  dict_get d k = None -> k ∉ map fst d.
Proof.
  induction d as [| [k' v'] d IH]; simpl; [intros _; apply not_elem_of_nil |].
  case_decide as E; [discriminate |]. intros H Hin.
  apply elem_of_cons in Hin as [-> | Hin]; [done |]. by apply IH.
Qed.

Lemma dict_set_fresh (d : Kwargs) (k : string) (v : Structure) :
  k ∉ map fst d -> dict_set d k v = d ++ [(k, v)].
Proof.
  induction d as [| [k' v'] d IH]; simpl; [done |]. intros H.
  apply not_elem_of_cons in H as [Hne H]. rewrite decide_False by done.
  by rewrite IH.
Qed.

Lemma dict_set_keys (d : Kwargs) (k : string) (v : Structure) :
  map fst (dict_set d k v)
  = if decide (k ∈ map fst d) then map fst d else map fst d ++ [k].
Proof.
  induction d as [| [k' v'] d IH]; cbn [dict_set map fst].
  - rewrite decide_False; [done | apply not_elem_of_nil].
  - destruct (decide (k' = k)) as [-> | E]; cbn [map fst].
    + rewrite decide_True; [done | by left].
    + rewrite IH. destruct (decide (k ∈ map fst d)) as [Hin | Hin].
      * rewrite decide_True; [done | by right].
      * rewrite decide_False; [done |].
        intros Hin'. apply elem_of_cons in Hin' as [-> | Hin']; done.
Qed.

Lemma dict_set_NoDup (d : Kwargs) (k : string) (v : Structure) :
  NoDup (map fst d) -> NoDup (map fst (dict_set d k v)).
Proof.
  intros H. rewrite dict_set_keys. case_decide; [done |].
  apply NoDup_app. split; [done |]. split; [| apply NoDup_singleton].
  intros x Hx Hx'. apply list_elem_of_singleton in Hx' as ->. done.
Qed.

Lemma dict_set_get (d : Kwargs) (k : string) (v : Structure) :
  dict_get (dict_set d k v) k = Some v.
Proof.
  induction d as [| [k' v'] d IH]; simpl.
  - by rewrite decide_True.
  - case_decide as E; simpl; [by rewrite decide_True |]. by rewrite decide_False.
Qed.

Lemma dict_pop_mem (d : Kwargs) (k k' : string) (v : Structure) :
  (k', v) ∈ dict_pop d k <-> (k', v) ∈ d /\ k' <> k.
Proof. unfold dict_pop. rewrite list_elem_of_filter. simpl. tauto. Qed.

Lemma dict_pop_NoDup (d : Kwargs) (k : string) :
  NoDup (map fst d) -> NoDup (map fst (dict_pop d k)).
Proof.
  unfold dict_pop, Kwargs. induction d as [| [k' v'] d IH]; intros Hnd; [done |].
  simpl in Hnd. apply NoDup_cons in Hnd as [Hfresh Hnd]. rewrite filter_cons.
  cbn [fst]. case_decide; [| by apply IH]. cbn [map fst].
  constructor; [| by apply IH].
  intros Hin. apply Hfresh. apply list_elem_of_fmap in Hin as ([k0 v0] & -> & Hin).
  apply list_elem_of_filter in Hin as [_ Hin]. apply list_elem_of_fmap. by exists (k0, v0).
Qed.

Lemma dict_pop_keys (d : Kwargs) (k0 k : string) :
  k ∈ map fst (dict_pop d k0) -> k ∈ map fst d /\ k <> k0.
Proof.
  intros Hin. apply list_elem_of_fmap in Hin as ([k' v] & -> & Hin).
  apply dict_pop_mem in Hin as [Hin Hne]. split; [| done].
  apply list_elem_of_fmap. by exists (k', v).
Qed.

(** What is left of the filters: those whose key is not a keyword
    argument of [prepareState]. *)
Lemma pop_params_into_rest (kwargs : list string) :
  forall (params filters : Kwargs),
    snd (pop_params_into params kwargs filters)
    = filter (fun kv => fst kv ∉ kwargs) filters.
Proof.
  unfold Kwargs.
  induction kwargs as [| kwarg kwargs IH]; intros params filters; cbn [pop_params_into].
  - cbn [snd]. induction filters as [| kv filters IHf]; [done |].
    rewrite filter_cons, decide_True; [by rewrite <- IHf | apply not_elem_of_nil].
  - destruct (dict_get filters kwarg) as [v |] eqn:E.
    + rewrite IH. unfold dict_pop, Kwargs. rewrite list_filter_filter.
      apply list_filter_iff. intros kv. rewrite not_elem_of_cons. tauto.
    + rewrite IH. apply dict_get_None in E. clear IH.
      induction filters as [| [k v] filters IHf]; [done |].
      simpl in E. apply not_elem_of_cons in E as [Hne E].
      rewrite !filter_cons. cbn [fst]. rewrite (IHf E).
      destruct (decide (k ∉ kwargs)) as [H1 | H1].
      * rewrite decide_True; [done |]. rewrite not_elem_of_cons. done.
      * rewrite decide_False; [done |]. rewrite not_elem_of_cons. tauto.
Qed.

Lemma pop_params_rest (kwargs : list string) (filters : Kwargs) :
  snd (pop_params kwargs filters) = filter (fun kv => fst kv ∉ kwargs) filters.
Proof. apply pop_params_into_rest. Qed.

(** What goes to [prepareState]: the filters whose key is one of its
    keyword arguments. *)
Lemma pop_params_into_params (kwargs : list string) :
  forall (params filters : Kwargs) (k : string) (v : Structure),
    NoDup (map fst filters) ->
    (forall k', k' ∈ map fst params -> k' ∉ map fst filters) ->
    (k, v) ∈ fst (pop_params_into params kwargs filters)
    <-> (k, v) ∈ params \/ ((k, v) ∈ filters /\ k ∈ kwargs).
Proof.
  induction kwargs as [| kwarg kwargs IH]; intros params filters k v Hnd Hdisj;
    cbn [pop_params_into].
  - cbn [fst]. split; [by left |]. intros [H | [_ H]]; [done |]. by apply elem_of_nil in H.
  - destruct (dict_get filters kwarg) as [v0 |] eqn:E.
    + apply (dict_get_mem _ _ _ Hnd) in E as Hin0.
      assert (Hfresh : kwarg ∉ map fst params).
      { intros Hin. apply (Hdisj _ Hin). apply list_elem_of_fmap. by exists (kwarg, v0). }
      rewrite IH; [| by apply dict_pop_NoDup |].
      * rewrite (dict_set_fresh _ _ _ Hfresh), elem_of_app, list_elem_of_singleton.
        rewrite dict_pop_mem, elem_of_cons. split.
        -- intros [[Hin | [= -> ->]] | [[Hin Hne] Hk]].
           ++ by left.
           ++ right. split; [done | by left].
           ++ right. split; [done | by right].
        -- intros [Hin | [Hin Hk]]; [by left; left |].
           destruct (decide (k = kwarg)) as [-> | Hne].
           ++ left. right. apply (dict_get_mem _ _ _ Hnd) in Hin. congruence.
           ++ right. destruct Hk as [-> | Hk]; done.
      * intros k' Hin' Hpop. apply dict_pop_keys in Hpop as [Hpop Hne].
        rewrite (dict_set_fresh _ _ _ Hfresh), map_app, elem_of_app in Hin'.
        destruct Hin' as [Hin' | Hin']; [by apply (Hdisj k') |].
        apply list_elem_of_singleton in Hin'. done.
    + rewrite (IH params filters k v Hnd Hdisj), elem_of_cons.
      apply dict_get_None in E. split.
      * intros [Hin | [Hin Hk]]; [by left |]. right. by split; [| right].
      * intros [Hin | [Hin [-> | Hk]]]; [by left | | by right].
        exfalso. apply E. apply list_elem_of_fmap. by exists (kwarg, v).
Qed.

Lemma pop_params_params (kwargs : list string) (filters : Kwargs)
    (k : string) (v : Structure) :
  NoDup (map fst filters) ->
  (k, v) ∈ fst (pop_params kwargs filters) <-> (k, v) ∈ filters /\ k ∈ kwargs.
Proof.
  intros Hnd. unfold pop_params. rewrite pop_params_into_params; [| done |].
  - split; [| by right]. intros [H | H]; [by apply elem_of_nil in H | done].
  - intros k' H. by apply elem_of_nil in H.
Qed.

Lemma dict_get_filter_keys (keep : list string) (d : Kwargs) (k : string) :
  k ∉ keep ->
  dict_get (filter (fun kv => fst kv ∉ keep) d) k = dict_get d k.
Proof.
  intros Hk. unfold Kwargs in *. induction d as [| [k' v'] d IH]; [done |].
  rewrite filter_cons. cbn [fst]. destruct (decide (k' ∉ keep)) as [H | H].
  - cbn [dict_get]. by rewrite IH.
  - cbn [dict_get]. rewrite decide_False; [exact IH |]. intros ->. done.
Qed.

Section MoreInit.

Variable columns_intersection : Index -> list string -> Index.
Variable Index_iterrows : Index -> result Structure.

Let init := __init__ columns_intersection Index_iterrows.

Lemma init_run cls ds n items sort filters name endpoint kws :
  endpointName cls = Some name ->
  ds name = Some endpoint ->
  _prepareStateKwargs cls = Some kws ->
  (forall it, items = Some it -> type_of it <> TDataFrame) ->
  init cls ds n items sort filters
  = Ok (mkAccessor (ep_call endpoint)
                   (snd (pop_params kws (given_filters items filters)))
                   (fst (pop_params kws (given_filters items filters)))
                   sort [] n None).
Proof.
  intros Hname Hds Hkws Hitems. unfold init, __init__. rewrite Hname, Hds, Hkws.
  rewrite bind_Ok.
  assert (E : match items with
              | None => Ok filters
              | Some (DataFrame _ columns _) =>
                  items ← Index_iterrows (columns_intersection columns (ep_fields endpoint));
                  mret (dict_set filters "items" items)
              | Some items => Ok (dict_set filters "items" items)
              end = Ok (given_filters items filters)).
  { destruct items as [it |]; [| done].
    destruct it; try reflexivity. by destruct (Hitems _ eq_refl). }
  rewrite E, !bind_Ok. by destruct (pop_params kws (given_filters items filters)).
Qed.

(** What [__init__] does with a DataFrame given as [items]: it calls
    [iterrows] on the Index of the columns that are fields of the
    endpoint, and what that call raises leaves [__init__]. *)
Lemma init_frame cls ds n sort filters name endpoint index columns cells e :
  endpointName cls = Some name ->
  ds name = Some endpoint ->
  Index_iterrows (columns_intersection columns (ep_fields endpoint)) = Raise e ->
  init cls ds n (Some (DataFrame index columns cells)) sort filters = Raise e.
Proof.
  intros Hname Hds Hrows. unfold init, __init__. rewrite Hname, Hds, bind_Ok.
  by rewrite Hrows.
Qed.

(** X20. When [items] is not given or is not a DataFrame, [__init__]
    splits the filters it is given (with [items] among them) in two:
    a filter goes to [prepareState] exactly when its name is a keyword
    argument of [prepareState], and to the endpoint otherwise. The
    chain of the new accessor is empty. When [items] is a DataFrame,
    what [iterrows] raises on the Index of its columns leaves
    [__init__]. *)
Theorem init_splits_filters cls ds n items sort filters name endpoint kws :
  endpointName cls = Some name ->
  ds name = Some endpoint ->
  _prepareStateKwargs cls = Some kws ->
  NoDup (map fst filters) ->
  ((forall it, items = Some it -> type_of it <> TDataFrame) ->
   exists self,
     init cls ds n items sort filters = Ok self /\
     _endpoint self = ep_call endpoint /\
     _chain self = [] /\ _n self = n /\ _sort self = sort /\
     (forall k v, (k, v) ∈ _prepareStateParams self
                  <-> (k, v) ∈ given_filters items filters /\ k ∈ kws) /\
     (forall k v, (k, v) ∈ _filters self
                  <-> (k, v) ∈ given_filters items filters /\ k ∉ kws)) /\
  (forall index columns cells e,
      items = Some (DataFrame index columns cells) ->
      Index_iterrows (columns_intersection columns (ep_fields endpoint)) = Raise e ->
      init cls ds n items sort filters = Raise e).
Proof.
  intros Hname Hds Hkws Hnd. split.
  - intros Hitems. eexists. split; [by eapply init_run |].
    cbn [_endpoint _chain _n _sort _filters _prepareStateParams].
    assert (Hnd' : NoDup (map fst (given_filters items filters))).
    { destruct items; [by apply dict_set_NoDup | done]. }
    split_and!; try reflexivity.
    + intros k v. by apply pop_params_params.
    + intros k v. rewrite pop_params_rest, list_elem_of_filter. cbn [fst]. tauto.
  - intros index columns cells e -> Hrows. by eapply init_frame.
Qed.

Section MoreMetaclass.

Variable formatargspec : list string -> list Structure -> string.
Variable cleandoc : string -> string.
Variable fill_template : string -> string -> string -> string -> string.

Let new := metaclass_new formatargspec cleandoc fill_template.

Lemma last_args_suffix (args : list string) (defaults : list Structure) :
  last_args args defaults `suffix_of` args.
Proof. unfold last_args. case_decide; [done |]. apply suffix_drop. Qed.

Lemma reserved_check (kws : list string) :
  existsb (fun reserved => bool_decide (reserved ∈ kws)) ["n"; "items"; "sort"] = false
  <-> forall reserved, reserved ∈ reserved_keywords -> reserved ∉ kws.
Proof.
  unfold reserved_keywords. cbn [existsb]. rewrite !orb_false_iff, !bool_decide_eq_false.
  split.
  - intros (Hn & Hi & Hs & _) reserved Hin.
    repeat (apply elem_of_cons in Hin as [-> | Hin]; [done |]). by apply elem_of_nil in Hin.
  - intros H. repeat split; apply H; repeat constructor.
Qed.

Lemma prepareState_kwargs_ok dct clsname doc kws :
  prepareState_kwargs formatargspec dct clsname = Ok (doc, kws) ->
  (forall reserved, reserved ∈ reserved_keywords -> reserved ∉ kws) /\
  match dct_prepareState dct with
  | Some (Ok spec) =>
      match spec_defaults spec with
      | Some defaults => kws = last_args (spec_args spec) defaults
      | None => kws = []
      end
  | Some (Raise _) => False
  | None => kws = []
  end.
Proof.
  unfold prepareState_kwargs.
  destruct (dct_prepareState dct) as [[spec | e] |]; [| discriminate |].
  - rewrite bind_Ok. destruct (spec_defaults spec) as [defaults |].
    + change (last_args (spec_args init_argspec) (default [] (spec_defaults init_argspec)))
        with ["n"; "items"; "sort"].
      destruct (existsb _ _) eqn:E; [discriminate |]. intros [= _ <-].
      split; [by apply reserved_check | done].
    + intros [= _ <-]. split; [| done]. intros r _. apply not_elem_of_nil.
  - intros [= _ <-]. split; [| done]. intros r _. apply not_elem_of_nil.
Qed.

(** What an accepted subclass has. *)
Lemma metaclass_accepts clsname dct cls :
  clsname <> "Accessor" ->
  new clsname dct = Ok cls ->
  exists name kws,
    endpointName cls = Some name /\ _prepareStateKwargs cls = Some kws /\
    forall reserved, reserved ∈ reserved_keywords -> reserved ∉ kws.
Proof.
  intros Hsub. unfold new, metaclass_new. rewrite decide_True by done.
  destruct (dct_endpointName dct) as [name |]; [| discriminate].
  destruct (prepareState_kwargs formatargspec dct clsname) as [[doc kws] |] eqn:E;
    [| discriminate].
  rewrite bind_Ok. intros [= <-]. exists name, kws.
  apply prepareState_kwargs_ok in E as [Hres _]. done.
Qed.

(** X21. A subclass the metaclass accepts has an endpoint name and a
    list of [prepareState] keyword arguments: the trailing parameters
    of its [prepareState] (none when it has no [prepareState] or no
    default), and never [n], [items] or [sort]. *)
Theorem metaclass_keeps_init_keywords clsname dct cls :
  clsname <> "Accessor" ->
  new clsname dct = Ok cls ->
  exists name kws,
    dct_endpointName dct = Some name /\
    endpointName cls = Some name /\
    _prepareStateKwargs cls = Some kws /\
    (forall reserved, reserved ∈ reserved_keywords -> reserved ∉ kws) /\
    (forall spec, dct_prepareState dct = Some (Ok spec) ->
                  kws `suffix_of` spec_args spec) /\
    (forall spec, dct_prepareState dct = Some (Ok spec) -> spec_defaults spec = None ->
                  kws = []) /\
    (dct_prepareState dct = None -> kws = []).
Proof.
  intros Hsub. unfold new, metaclass_new. rewrite decide_True by done.
  destruct (dct_endpointName dct) as [name |]; [| discriminate].
  destruct (prepareState_kwargs formatargspec dct clsname) as [[doc kws] |] eqn:E;
    [| discriminate].
  rewrite bind_Ok. intros [= <-]. exists name, kws.
  apply prepareState_kwargs_ok in E as [Hres Hkws].
  repeat split; try done.
  - intros spec Hspec. rewrite Hspec in Hkws.
    destruct (spec_defaults spec); subst kws; [apply last_args_suffix | apply suffix_nil].
  - intros spec Hspec Hnone. by rewrite Hspec, Hnone in Hkws.
  - intros Hnone. by rewrite Hnone in Hkws.
Qed.

(** X22. Up to the formatting of the docstring and the creation of the
    class by [type.__new__], which the model takes to return, the
    metaclass refuses a subclass in three cases only, in this order:
    with [NotImplementedError] when it names no endpoint, whatever
    else it defines; with the exception of [inspect.getargspec] when
    that call refuses its [prepareState]; and with [TypeError] when a
    parameter of its [prepareState] that has a default is named [n],
    [items] or [sort]. *)
Theorem metaclass_refusals clsname dct :
  clsname <> "Accessor" ->
  (dct_endpointName dct = None -> new clsname dct = Raise NotImplementedError) /\
  (forall e, dct_endpointName dct <> None -> dct_prepareState dct = Some (Raise e) ->
             new clsname dct = Raise e) /\
  (forall e, new clsname dct = Raise e ->
     (e = NotImplementedError /\ dct_endpointName dct = None) \/
     (dct_endpointName dct <> None /\ dct_prepareState dct = Some (Raise e)) \/
     (e = TypeError /\
      exists spec defaults reserved,
        dct_endpointName dct <> None /\
        dct_prepareState dct = Some (Ok spec) /\
        spec_defaults spec = Some defaults /\
        reserved ∈ reserved_keywords /\
        reserved ∈ last_args (spec_args spec) defaults)).
Proof.
  intros Hsub. unfold new, metaclass_new. rewrite decide_True by done. split_and!.
  - by intros ->.
  - intros e Hname Hspec. destruct (dct_endpointName dct) as [name |]; [| done].
    unfold prepareState_kwargs. by rewrite Hspec.
  - intros e. destruct (dct_endpointName dct) as [name |]; [| intros [= <-]; by left].
    unfold prepareState_kwargs.
    destruct (dct_prepareState dct) as [[spec | e'] |]; [| | discriminate].
    + rewrite bind_Ok. destruct (spec_defaults spec) as [defaults |] eqn:Ed;
        [| discriminate].
      change (last_args (spec_args init_argspec) (default [] (spec_defaults init_argspec)))
        with ["n"; "items"; "sort"].
      destruct (existsb _ _) eqn:E; [| discriminate]. intros [= <-]. right. right.
      split; [done |]. apply existsb_exists in E as (reserved & Hin & Hmem).
      apply bool_decide_eq_true in Hmem. exists spec, defaults, reserved.
      split_and!; try done. by apply list_elem_of_In.
    + intros [= <-]. right. left. done.
Qed.

(** X23. A subclass the metaclass accepts fails with [ValueError] on
    every dataset that lacks its endpoint. On a dataset that has it:
    when [items] is not given or is not a DataFrame the subclass is
    instantiated, [items] reaches the endpoint's filters, and nothing
    named [n], [items] or [sort] reaches [prepareState]; when [items]
    is a DataFrame, what [iterrows] raises on the Index of its columns
    leaves [__init__]. *)
Theorem accepted_class_instantiates clsname dct cls ds n items sort filters :
  clsname <> "Accessor" ->
  new clsname dct = Ok cls ->
  NoDup (map fst filters) ->
  exists name,
    endpointName cls = Some name /\
    (ds name = None -> init cls ds n items sort filters = Raise ValueError) /\
    (forall endpoint, ds name = Some endpoint ->
       ((forall it, items = Some it -> type_of it <> TDataFrame) ->
        exists self,
          init cls ds n items sort filters = Ok self /\
          (forall it, items = Some it -> dict_get (_filters self) "items" = Some it) /\
          (forall k v, (k, v) ∈ _prepareStateParams self -> k ∉ reserved_keywords)) /\
       (forall index columns cells e,
           items = Some (DataFrame index columns cells) ->
           Index_iterrows (columns_intersection columns (ep_fields endpoint)) = Raise e ->
           init cls ds n items sort filters = Raise e)).
Proof.
  intros Hsub Hnew Hnd.
  destruct (metaclass_accepts _ _ _ Hsub Hnew) as (name & kws & Hname & Hkws & Hres).
  exists name. split; [done |]. split.
  - intros Hds. unfold init, __init__. by rewrite Hname, Hds.
  - intros endpoint Hds. split.
    + intros Hitems. eexists. split; [by eapply init_run |].
      cbn [_filters _prepareStateParams]. split.
      * intros it ->. rewrite pop_params_rest, dict_get_filter_keys.
        -- apply dict_set_get.
        -- apply Hres. unfold reserved_keywords. by right; left.
      * intros k v Hin Hk. apply pop_params_params in Hin as [_ Hin].
        -- by apply (Hres k).
        -- destruct items; [by apply dict_set_NoDup | done].
    + intros index columns cells e -> Hrows. by eapply init_frame.
Qed.

(** X24. The base class itself cannot be instantiated: the metaclass
    gives it no list of [prepareState] keyword arguments, and
    [__init__] raises for every dataset and every argument. *)
Theorem base_class_never_instantiates dct ds n items sort filters :
  exists cls,
    new "Accessor" dct = Ok cls /\
    _prepareStateKwargs cls = None /\
    is_Ok (init cls ds n items sort filters) = false.
Proof.
  eexists. split; [reflexivity |]. split; [reflexivity |].
  unfold init, __init__. cbn [endpointName _prepareStateKwargs].
  destruct (dct_endpointName dct) as [name |]; [| done].
  destruct (ds name) as [endpoint |]; [| done]. rewrite bind_Ok.
  destruct items as [it |]; [| done].
  destruct it; try done.
  by destruct (Index_iterrows _).
Qed.

End MoreMetaclass.

End MoreInit.

End MoreConstruction.

(** ** The state of the NVSPL parser *)

Section MoreNVSPL.

Implicit Types columns : list Structure.

Lemma int_in_spec (x : Z) columns :
  int_in x columns = true <-> exists c, c ∈ columns /\ int_value c = x.
Proof.
  unfold int_in. rewrite existsb_exists. split.
  - intros (c & Hin & Hc). apply bool_decide_eq_true in Hc.
    exists c. split; [by apply list_elem_of_In | done].
  - intros (c & Hin & Hc). exists c. split; [by apply list_elem_of_In |].
    by apply bool_decide_eq_true.
Qed.

Lemma str_in_spec (s : string) columns :
  str_in s columns = true <-> PyStr s ∈ columns.
Proof.
  unfold str_in. rewrite existsb_exists. split.
  - intros (c & Hin & Hc). destruct c; try discriminate.
    apply bool_decide_eq_true in Hc. subst. by apply list_elem_of_In.
  - intros Hin. exists (PyStr s). split; [by apply list_elem_of_In |].
    by apply bool_decide_eq_true.
Qed.

Lemma insert_int_perm (x : Structure) columns : insert_int x columns ≡ₚ x :: columns.
Proof.
  induction columns as [| y rest IH]; simpl; [done |].
  case_bool_decide; [done |]. rewrite IH. apply Permutation_swap.
Qed.

Lemma sort_ints_perm columns : sort_ints columns ≡ₚ columns.
Proof.
  unfold sort_ints. induction columns as [| x rest IH]; simpl; [done |].
  by rewrite insert_int_perm, IH.
Qed.

Lemma insert_int_sorted (x : Structure) columns :
  StronglySorted by_value columns -> StronglySorted by_value (insert_int x columns).
Proof.
  induction 1 as [| y rest Hs IH Hall]; simpl.
  - repeat constructor.
  - case_bool_decide as E.
    + constructor; [by constructor |]. constructor; [exact E |].
      eapply Forall_impl; [exact Hall |]. unfold by_value. intros; simpl in *; lia.
    + constructor; [exact IH |]. rewrite insert_int_perm. constructor; [| exact Hall].
      unfold by_value. lia.
Qed.

Lemma sort_ints_sorted columns : StronglySorted by_value (sort_ints columns).
Proof.
  unfold sort_ints. induction columns as [| x rest IH]; simpl; [constructor |].
  by apply insert_int_sorted.
Qed.

(** [columns.index(x)] finds the first position of a value that is in
    the list. *)
Lemma int_index_first (x : Z) columns :
  int_in x columns = true ->
  exists i c,
    int_index x columns = Ok i /\
    columns !! i = Some c /\ int_value c = x /\
    forall j c', (j < i)%nat -> columns !! j = Some c' -> int_value c' <> x.
Proof.
  induction columns as [| y rest IH]; [discriminate |].
  unfold int_in. cbn [existsb int_index]. case_bool_decide as E.
  - intros _. exists 0%nat, y. repeat split; try done. intros j c' Hj. lia.
  - cbn [orb]. intros Hin. destruct (IH Hin) as (i & c & Hi & Hc & Hv & Hfirst).
    exists (S i), c. rewrite Hi. repeat split; try done.
    intros [| j] c' Hj; simpl.
    + by intros [= <-].
    + apply Hfirst. lia.
Qed.

(** X25. For a list of column names, [prepareState] reads the index
    in position 0 and makes sure [STime] is a column: it is put in
    front when it is missing and the list is kept as it is otherwise.
    Preparing the state again from the columns it returns changes
    nothing. *)
Theorem prepareState_string_columns (endpoint : Endpoint) (endpointParams : Kwargs)
    (timestamps : option Structure) columns :
  forallb is_basestring_value columns = true ->
  exists columns',
    NVSPL_prepareState endpoint endpointParams timestamps (Some columns)
    = Ok (timestamps, Some columns', 0%nat) /\
    PyStr "STime" ∈ columns' /\
    columns `suffix_of` columns' /\
    (PyStr "STime" ∈ columns -> columns' = columns) /\
    (PyStr "STime" ∉ columns -> columns' = PyStr "STime" :: columns) /\
    NVSPL_prepareState endpoint endpointParams timestamps (Some columns')
    = Ok (timestamps, Some columns', 0%nat).
Proof.
  intros Hstr. unfold NVSPL_prepareState. rewrite Hstr.
  destruct (str_in "STime" columns) eqn:E; cbn [negb].
  - apply str_in_spec in E as Hin. exists columns. split_and!; try done.
    rewrite Hstr, E. done.
  - assert (Hout : PyStr "STime" ∉ columns).
    { intros Hin. apply str_in_spec in Hin. congruence. }
    exists (PyStr "STime" :: columns). split_and!; try done.
    + by left.
    + by apply suffix_cons_r.
    + cbn [forallb is_basestring_value andb]. rewrite Hstr.
      unfold str_in. cbn [existsb]. by rewrite bool_decide_eq_true_2.
Qed.

(** X26. For a list of column numbers, [prepareState] makes sure
    column 1 is read and finds the index at its first position: a list
    that has column 1 is kept as it is, in its order; otherwise the
    columns returned are the given ones and column 1, in increasing
    order. It never fails to find the index. *)
Theorem prepareState_int_columns (endpoint : Endpoint) (endpointParams : Kwargs)
    (timestamps : option Structure) columns :
  forallb is_basestring_value columns = false ->
  forallb is_int_value columns = true ->
  exists columns' index_index c,
    NVSPL_prepareState endpoint endpointParams timestamps (Some columns)
    = Ok (timestamps, Some columns', index_index) /\
    columns' !! index_index = Some c /\ int_value c = 1 /\
    (forall j c', (j < index_index)%nat -> columns' !! j = Some c' -> int_value c' <> 1) /\
    (int_in 1 columns = true -> columns' = columns) /\
    (int_in 1 columns = false ->
       columns' ≡ₚ PyInt 1 :: columns /\ StronglySorted by_value columns').
Proof.
  intros Hstr Hint. unfold NVSPL_prepareState. rewrite Hstr, Hint.
  destruct (int_in 1 columns) eqn:E; cbn [negb].
  - destruct (int_index_first 1 columns E) as (i & c & Hi & Hc & Hv & Hfirst).
    exists columns, i, c. rewrite Hi. split_and!; try done.
  - assert (Hin : int_in 1 (sort_ints (PyInt 1 :: columns)) = true).
    { apply int_in_spec. exists (PyInt 1). split; [| done].
      rewrite sort_ints_perm. by left. }
    destruct (int_index_first 1 _ Hin) as (i & c & Hi & Hc & Hv & Hfirst).
    exists (sort_ints (PyInt 1 :: columns)), i, c. rewrite Hi. split_and!; try done.
    intros _. split; [apply sort_ints_perm | apply sort_ints_sorted].
Qed.

(** X27. [prepareState] fails in one way only: with [TypeError], on a
    list of columns that is neither all strings nor all ints. Without
    columns the index is read in position 1, and [timestamps] is
    returned as it was given. *)
Theorem prepareState_failures (endpoint : Endpoint) (endpointParams : Kwargs)
    (timestamps : option Structure) (given : option (list Structure)) :
  (forall e,
      NVSPL_prepareState endpoint endpointParams timestamps given = Raise e <->
      e = TypeError /\
      exists cols, given = Some cols /\
                   forallb is_basestring_value cols = false /\
                   forallb is_int_value cols = false) /\
  (given = None ->
   NVSPL_prepareState endpoint endpointParams timestamps given
   = Ok (timestamps, None, 1%nat)) /\
  (forall timestamps' returned index_index,
      NVSPL_prepareState endpoint endpointParams timestamps given
      = Ok (timestamps', returned, index_index) ->
      timestamps' = timestamps /\ (returned = None <-> given = None)).
Proof.
  split_and!.
  - intros e. destruct given as [cols |]; cbn [NVSPL_prepareState].
    + destruct (forallb is_basestring_value cols) eqn:Hstr.
      { split; [discriminate |]. intros (_ & cols' & [= <-] & H & _). congruence. }
      destruct (forallb is_int_value cols) eqn:Hint.
      * destruct (prepareState_int_columns endpoint endpointParams timestamps cols Hstr Hint)
          as (columns' & i & c & Hrun & _).
        unfold NVSPL_prepareState in Hrun. rewrite Hstr, Hint in Hrun. rewrite Hrun.
        split; [discriminate |]. intros (_ & cols' & [= <-] & _ & H). congruence.
      * split; [intros [= <-]; split; [done | by exists cols] | by intros [-> _]].
    + split; [discriminate |]. by intros (_ & cols & H & _).
  - by intros ->.
  - intros timestamps' returned index_index. destruct given as [cols |];
      cbn [NVSPL_prepareState].
    + destruct (forallb is_basestring_value cols) eqn:Hstr.
      { intros [= <- <- _]. done. }
      destruct (forallb is_int_value cols) eqn:Hint; [| discriminate].
      destruct (int_index 1 _); [| discriminate]. rewrite bind_Ok.
      intros [= <- <- _]. done.
    + by intros [= <- <- _].
Qed.

End MoreNVSPL.

(** ** The shipped parsers, as the engine calls them *)

Section MoreShipped.

Context {rt : Runtime}.

(** A run over a parser all of whose calls of [parse] raise. *)
Lemma iterate_failing (P : Parser) (e : exn) :
  e <> GeneratorExit ->
  forall (entries : list Entry) (state : option (State P)),
    (forall entry st, (st = None <-> state = None) ->
                      fst (call_parse P st entry) = Raise e) ->
    consume (iterate P state entries)
    = mkOutcome (map (fun entry => Logged (ParseError (path entry) e)) entries) None.
Proof.
  intros He. induction entries as [| entry rest IH]; intros state Hfail; [done |].
  cbn [iterate]. pose proof (Hfail entry state (conj (fun H => H) (fun H => H))) as Hr.
  destruct (call_parse P state entry) as [r state'] eqn:E. simpl in Hr. subst r.
  assert (Hstate : state' = None <-> state = None).
  { unfold call_parse in E. destruct state as [s |].
    - destruct (parse_with P entry s). injection E as _ <-. done.
    - injection E as _ <-. done. }
  destruct e; try done; cbn [consume map]; rewrite IH; try done;
    intros entry' st Hst; apply Hfail; by rewrite Hst.
Qed.

Lemma build_source (calls : list StageCall) (self self' : Accessor) :
  build self calls = Ok self' ->
  _endpoint self' = _endpoint self /\
  _filters self' = _filters self /\
  _prepareStateParams self' = _prepareStateParams self /\
  _n self' = _n self.
Proof.
  revert self. induction calls as [| c calls IH]; intros self; simpl.
  - by intros [= ->].
  - destruct (append_stage self c) as [self1 |] eqn:E; [| discriminate]. simpl.
    intros Hb. apply IH in Hb as (-> & -> & -> & ->).
    apply append_stage_keeps in E as (-> & -> & -> & -> & _). done.
Qed.

Lemma logged_items (e : exn) (entries : list Entry) :
  items (mkOutcome (A := Pair)
           (map (fun entry => Logged (ParseError (path entry) e)) entries) None) = [].
Proof. unfold items. simpl. induction entries as [| entry rest IH]; [done | exact IH]. Qed.

Lemma logged_events (e : exn) (entries : list Entry) :
  events (mkOutcome (A := Pair)
            (map (fun entry => Logged (ParseError (path entry) e)) entries) None)
  = map (fun entry => ParseError (path entry) e) entries.
Proof.
  unfold events. simpl. induction entries as [| entry rest IH]; [done |].
  csimpl. by rewrite IH.
Qed.

(** A run of a built chain over a parser all of whose calls of [parse]
    raise. *)
Lemma failing_run (P : Parser) (e : exn) (self0 self : Accessor) (calls : list StageCall)
    (state : option (State P)) (entries : list Entry) :
  e <> GeneratorExit ->
  _chain self0 = [] ->
  build self0 calls = Ok self ->
  prepareState P (_endpoint self) (_filters self) (_prepareStateParams self) = Ok state ->
  _endpoint self (_sort self) (_n self) (_filters self) = Ok entries ->
  (forall entry st, (st = None <-> state = None) ->
                    fst (call_parse P st entry) = Raise e) ->
  exists (self' : Accessor) (g : gen Pair),
    __iter__ P self = Ok (self', g) /\
    raised (consume g) = None /\
    items (consume g) = [] /\
    events (consume g) = map (fun entry => ParseError (path entry) e) entries.
Proof.
  intros He Hchain Hbuild Hstate Hentries Hfail.
  set (g := fold_left (fun iterate do => do iterate) (_chain self)
                      (iterate P state entries)).
  exists (set_progbar self (Some entries)), g.
  pose proof (iterate_failing P e He entries state Hfail) as Hrun.
  assert (Hg : consume g = consume (iterate P state entries)).
  { apply chain_itemless; [| by rewrite Hrun, logged_items].
    apply (build_stages _ per_pair_itemless group_itemless calls self0 self Hbuild).
    rewrite Hchain. constructor. }
  split_and!.
  - unfold __iter__. rewrite Hstate, bind_Ok, Hentries. done.
  - by rewrite Hg, Hrun.
  - by rewrite Hg, Hrun, logged_items.
  - by rewrite Hg, Hrun, logged_events.
Qed.

(** X28. No shipped parser ever parses a record: each defines [parse]
    without a parameter for the instance, so the engine's call cannot
    bind its arguments. With the signature of [SRCID.parse] or of
    [LoudEvents.parse] every call raises [TypeError]; with that of
    [NVSPL.parse] every call that passes a state does. Whatever the
    function would do and whatever the stages of the chain, a run
    yields nothing and reports one [TypeError] per located record. *)
Theorem shipped_parse_never_runs
    (St : Type) (parse_spec : ArgSpec)
    (parse_body : list (string * Arg) -> result Structure)
    (parse_body_with : list (string * Arg) -> St -> result Structure * St)
    (prepare : Endpoint -> Kwargs -> Kwargs -> result (option St))
    (self0 self : Accessor) (calls : list StageCall)
    (state : option St) (entries : list Entry) :
  let P := shipped St parse_spec parse_body parse_body_with prepare in
  parse_spec = SRCID_parse_argspec \/
  parse_spec = LoudEvents_parse_argspec \/
  (parse_spec = NVSPL_parse_argspec /\ state <> None) ->
  _chain self0 = [] ->
  build self0 calls = Ok self ->
  prepare (_endpoint self) (_filters self) (_prepareStateParams self) = Ok state ->
  _endpoint self (_sort self) (_n self) (_filters self) = Ok entries ->
  exists (self' : Accessor) (g : gen Pair),
    __iter__ P self = Ok (self', g) /\
    raised (consume g) = None /\
    items (consume g) = [] /\
    events (consume g) = map (fun entry => ParseError (path entry) TypeError) entries.
Proof.
  intros P Hspec Hchain Hbuild Hstate Hentries.
  apply (failing_run P TypeError self0 self calls state entries); try done.
  intros entry st Hst. unfold call_parse, P. cbn [parse parse_with shipped].
  destruct Hspec as [-> | [-> | [-> Hsome]]].
  - by destruct st.
  - by destruct st.
  - destruct st as [s |]; [done |]. destruct Hsome. by apply Hst.
Qed.

Section MoreNVSPLCalled.

Variable other_columns : Arg -> result (option (list Structure) * nat).

Let prepare := NVSPL_called_prepareState other_columns.

Lemma NVSPL_prepareState_timestamps {E P T : Type} (endpoint : E) (endpointParams : P)
    (timestamps timestamps' : option T) (given returned : option (list Structure))
    (index_index : nat) :
  NVSPL_prepareState endpoint endpointParams timestamps given
  = Ok (timestamps', returned, index_index) ->
  timestamps' = timestamps.
Proof.
  destruct given as [cols |]; cbn [NVSPL_prepareState].
  - destruct (forallb is_basestring_value cols); [by intros [= <- _ _] |].
    destruct (forallb is_int_value cols); [| discriminate].
    destruct (int_index 1 _); [| discriminate]. rewrite bind_Ok. by intros [= <- _ _].
  - by intros [= <- _ _].
Qed.

Lemma lookup_keyword_data (params : Kwargs) (k : string) :
  lookup_keyword (map (fun kv => (fst kv, ArgData (snd kv))) params) k
  = ArgData <$> dict_get params k.
Proof.
  induction params as [| [k' v] params IH]; [done |]. simpl. by case_decide.
Qed.

Lemma keyword_names (params : Kwargs) :
  map fst (map (fun kv : string * Structure => (fst kv, ArgData (snd kv))) params)
  = map fst params.
Proof. rewrite map_map. done. Qed.

Lemma keywords_expected (names : list string) (params : Kwargs) :
  (forall k, k ∈ map fst params -> k ∈ names) ->
  forallb (fun kv : string * Arg => bool_decide (fst kv ∈ names))
          (map (fun kv => (fst kv, ArgData (snd kv))) params) = true.
Proof.
  intros H. apply forallb_forall. intros [k a] Hin. apply bool_decide_eq_true. cbn [fst].
  apply H. apply list_elem_of_In in Hin.
  apply list_elem_of_fmap in Hin as ([k' v] & [= -> ->] & Hin).
  apply list_elem_of_fmap. by exists (k', v).
Qed.

Lemma bind_param_positional spec positional keywords i param v :
  positional !! i = Some v ->
  param ∉ map fst keywords ->
  bind_param spec positional keywords i param = Ok v.
Proof. intros Hv Hk. unfold bind_param. rewrite Hv. by rewrite decide_False. Qed.

Lemma bind_param_twice spec positional keywords i param v :
  positional !! i = Some v ->
  param ∈ map fst keywords ->
  bind_param spec positional keywords i param = Raise TypeError.
Proof. intros Hv Hk. unfold bind_param. rewrite Hv. by rewrite decide_True. Qed.

(** How the call binds when [timestamps] is not given by keyword: one
    parameter to the left of what the call intends. *)
Lemma NVSPL_prepareState_bound (endpoint : Endpoint) (filters params : Kwargs) :
  (forall k, k ∈ map fst params -> k ∈ ["timestamps"; "columns"]) ->
  "timestamps" ∉ map fst params ->
  method_call NVSPL_prepareState_argspec [ArgEndpoint endpoint; ArgFilters filters]
              (map (fun kv => (fst kv, ArgData (snd kv))) params)
  = Ok [("endpoint", ArgInstance);
        ("endpointParams", ArgEndpoint endpoint);
        ("timestamps", ArgFilters filters);
        ("columns", ArgData (default PyNone (dict_get params "columns")))].
Proof.
  intros Hsub Hts. unfold method_call, bind_call.
  cbn [spec_args NVSPL_prepareState_argspec length]. rewrite decide_False by lia.
  rewrite keywords_expected.
  2:{ intros k Hk. apply Hsub in Hk. by do 2 right. }
  assert (Hother : forall k, k <> "timestamps" -> k <> "columns" -> k ∉ map fst params).
  { intros k H1 H2 Hin. apply Hsub in Hin.
    apply elem_of_cons in Hin as [-> | Hin]; [done |].
    apply elem_of_cons in Hin as [-> | Hin]; [done |]. by apply elem_of_nil in Hin. }
  change (imap pair ["endpoint"; "endpointParams"; "timestamps"; "columns"])
    with [(0%nat, "endpoint"); (1%nat, "endpointParams");
          (2%nat, "timestamps"); (3%nat, "columns")].
  cbn [mapM].
  rewrite (bind_param_positional _ _ _ 0 "endpoint" ArgInstance);
    [| done | rewrite keyword_names; by apply Hother].
  rewrite (bind_param_positional _ _ _ 1 "endpointParams" (ArgEndpoint endpoint));
    [| done | rewrite keyword_names; by apply Hother].
  rewrite (bind_param_positional _ _ _ 2 "timestamps" (ArgFilters filters));
    [| done | by rewrite keyword_names].
  rewrite !bind_Ok. unfold bind_param. cbn [lookup list_lookup].
  rewrite lookup_keyword_data. by destruct (dict_get params "columns").
Qed.

Lemma NVSPL_prepareState_twice (endpoint : Endpoint) (filters params : Kwargs) :
  "timestamps" ∈ map fst params ->
  method_call NVSPL_prepareState_argspec [ArgEndpoint endpoint; ArgFilters filters]
              (map (fun kv => (fst kv, ArgData (snd kv))) params)
  = Raise TypeError.
Proof.
  intros Hts. unfold method_call, bind_call.
  cbn [spec_args NVSPL_prepareState_argspec length]. rewrite decide_False by lia.
  destruct (forallb _ _); [| done].
  change (imap pair ["endpoint"; "endpointParams"; "timestamps"; "columns"])
    with [(0%nat, "endpoint"); (1%nat, "endpointParams");
          (2%nat, "timestamps"); (3%nat, "columns")].
  cbn [mapM].
  destruct (bind_param _ _ _ 0 "endpoint") as [v0 | e0] eqn:E0.
  2:{ unfold bind_param in E0. cbn [lookup list_lookup] in E0.
      case_decide; [by injection E0 as <- | discriminate]. }
  destruct (bind_param _ _ _ 1 "endpointParams") as [v1 | e1] eqn:E1.
  2:{ unfold bind_param in E1. cbn [lookup list_lookup] in E1.
      case_decide; [by injection E1 as <- | discriminate]. }
  rewrite (bind_param_twice _ _ _ 2 "timestamps" (ArgFilters filters));
    [done | done | by rewrite keyword_names].
Qed.

(** X29. The engine's call of [NVSPL.prepareState] binds the accessor
    to [endpoint], the endpoint to [endpointParams] and the dictionary
    of filters to [timestamps]. So a [timestamps] given by keyword
    makes the call raise [TypeError]; without one, the state the call
    returns always holds the filters in the place of the timestamps,
    and the index position 1 when no columns are given. *)
Theorem NVSPL_state_holds_filters (endpoint : Endpoint) (filters params : Kwargs) :
  (forall k, k ∈ map fst params -> k ∈ ["timestamps"; "columns"]) ->
  ("timestamps" ∈ map fst params -> prepare endpoint filters params = Raise TypeError) /\
  ("timestamps" ∉ map fst params ->
   (forall state, prepare endpoint filters params = Ok state ->
                  exists columns index_index,
                    state = Some (Some (ArgFilters filters), columns, index_index)) /\
   (default PyNone (dict_get params "columns") = PyNone ->
    prepare endpoint filters params = Ok (Some (Some (ArgFilters filters), None, 1%nat))) /\
   (forall columns, dict_get params "columns" = Some (PyList columns) ->
      prepare endpoint filters params
      = state ← NVSPL_prepareState ArgInstance (ArgEndpoint endpoint)
                                   (Some (ArgFilters filters)) (Some columns);
        mret (Some state))).
Proof.
  intros Hsub. split.
  - intros Hts. unfold prepare, NVSPL_called_prepareState.
    by rewrite NVSPL_prepareState_twice.
  - intros Hts. unfold prepare, NVSPL_called_prepareState.
    rewrite (NVSPL_prepareState_bound _ _ _ Hsub Hts), bind_Ok. split_and!.
    + intros state Hstate.
      destruct (default PyNone (dict_get params "columns")) as
        [| | | | | columns | | | | | | | | |];
        try (destruct (other_columns _) as [[cols0 idx0] |];
             [rewrite !bind_Ok in Hstate; injection Hstate as <-; by eauto
             | discriminate]).
      * injection Hstate as <-. by eauto.
      * destruct (NVSPL_prepareState _ _ _ _) as [[[ts cols] i] |] eqn:E; [| discriminate].
        rewrite bind_Ok in Hstate. injection Hstate as <-.
        apply NVSPL_prepareState_timestamps in E as ->. by eauto.
    + by intros ->.
    + intros columns Hcols. by rewrite Hcols.
Qed.


Lemma NVSPL_called_state (endpoint : Endpoint) (filters params : Kwargs)
    (state : option NVSPL_State) :
  prepare endpoint filters params = Ok state -> state <> None.
Proof.
  unfold prepare, NVSPL_called_prepareState.
  destruct (method_call _ _ _) as [bound |]; [| discriminate]. rewrite bind_Ok.
  destruct bound as [| [? ?] [| [? ?] [| [? ?] [| [? ?] [| ? ?]]]]]; try discriminate.
  destruct (match a2 with ArgData PyNone => _ | _ => _ end) as [st |]; [| discriminate].
  rewrite bind_Ok. by intros [= <-].
Qed.

Lemma dict_set_mem_other (d : Kwargs) (k0 k : string) (v0 v : Structure) :
  k <> k0 -> (k, v) ∈ dict_set d k0 v0 <-> (k, v) ∈ d.
Proof.
  intros Hne. induction d as [| [k' v'] d IH]; simpl.
  - rewrite list_elem_of_singleton. split; [by intros [= -> _] |].
    intros H. by apply elem_of_nil in H.
  - case_decide as E.
    + subst k'. rewrite !elem_of_cons. split; (intros [[= -> _] | H]; [done | by right]).
    + rewrite !elem_of_cons, IH. done.
Qed.

Section MoreNVSPLClass.

Variable formatargspec : list string -> list Structure -> string.
Variable cleandoc : string -> string.
Variable fill_template : string -> string -> string -> string -> string.
Variable columns_intersection : Index -> list string -> Index.
Variable Index_iterrows : Index -> result Structure.
Variable parse_body : list (string * Arg) -> result Structure.
Variable parse_body_with :
  list (string * Arg) -> NVSPL_State -> result Structure * NVSPL_State.

Let NVSPL := NVSPL_parser other_columns parse_body parse_body_with.

(** X30. The class [NVSPL], from its making to a run. The metaclass
    accepts it with the keyword arguments [timestamps] and [columns].
    On a dataset that has an [nvspl] endpoint: when [items] is a
    DataFrame, what [iterrows] raises on the Index of its columns
    leaves [__init__]; when [items] is not given or is not a
    DataFrame, the class is instantiated. An accessor made with a
    [timestamps] filter raises [TypeError] each time it is iterated,
    whatever its chain; every other run that starts yields nothing,
    raises nothing and reports one [TypeError] per located record. *)
Theorem NVSPL_accessor_never_yields
    (doc : option string) (ds : Dataset) (endpoint : EndpointObject)
    (n : option nat) (items_arg : option Structure) (sort : option SortSpec)
    (filters : Kwargs) :
  ds "nvspl" = Some endpoint ->
  NoDup (map fst filters) ->
  exists cls : AccessorClass,
    metaclass_new formatargspec cleandoc fill_template "NVSPL" (NVSPL_dict doc) = Ok cls /\
    _prepareStateKwargs cls = Some ["timestamps"; "columns"] /\
    (forall index columns cells e,
        items_arg = Some (DataFrame index columns cells) ->
        Index_iterrows (columns_intersection columns (ep_fields endpoint)) = Raise e ->
        __init__ columns_intersection Index_iterrows cls ds n items_arg sort filters
        = Raise e) /\
    ((forall it, items_arg = Some it -> type_of it <> TDataFrame) ->
     exists self0 : Accessor,
       __init__ columns_intersection Index_iterrows cls ds n items_arg sort filters
       = Ok self0 /\
       forall (calls : list StageCall) (self : Accessor),
         build self0 calls = Ok self ->
         (dict_get filters "timestamps" <> None -> __iter__ NVSPL self = Raise TypeError) /\
         (forall self' g,
             __iter__ NVSPL self = Ok (self', g) ->
             raised (consume g) = None /\
             items (consume g) = [] /\
             exists entries,
               _endpoint self (_sort self) (_n self) (_filters self) = Ok entries /\
               events (consume g)
               = map (fun entry => ParseError (path entry) TypeError) entries)).
Proof.
  intros Hds Hnd.
  set (cls := mkClass "NVSPL" (Some "nvspl")
                (Some (fill_template "nvspl" (cleandoc (default "" doc)) "NVSPL"
                         (" " +:+ strip_ends (formatargspec ["timestamps"; "columns"]
                                                            [PyNone; PyNone]) +:+ ",")))
                (Some ["timestamps"; "columns"])).
  assert (Hnd' : NoDup (map fst (given_filters items_arg filters))).
  { destruct items_arg; [by apply dict_set_NoDup | done]. }
  set (self0 := mkAccessor (ep_call endpoint)
                  (snd (pop_params ["timestamps"; "columns"]
                                   (given_filters items_arg filters)))
                  (fst (pop_params ["timestamps"; "columns"]
                                   (given_filters items_arg filters)))
                  sort [] n None).
  exists cls. split; [reflexivity |]. split; [reflexivity |]. split.
  { intros index columns cells e -> Hrows.
    by apply (init_frame columns_intersection Index_iterrows cls ds n sort filters
                         "nvspl" endpoint index columns cells e). }
  intros Hitems. exists self0. split.
  - by apply (init_run columns_intersection Index_iterrows cls ds n items_arg sort filters
                       "nvspl" endpoint ["timestamps"; "columns"]).
  - intros calls self Hbuild.
    pose proof (build_source _ _ _ Hbuild) as (Hep & Hfilters & Hparams & Hn).
    cbn [_endpoint _filters _prepareStateParams _n] in Hep, Hfilters, Hparams, Hn.
    assert (Hsub : forall k, k ∈ map fst (_prepareStateParams self) ->
                             k ∈ ["timestamps"; "columns"]).
    { intros k Hk. rewrite Hparams in Hk.
      apply list_elem_of_fmap in Hk as ([k' v] & -> & Hk).
      by apply (pop_params_params _ _ _ _ Hnd') in Hk as [_ Hk]. }
    split.
    + intros Hts. unfold __iter__. cbn [prepareState NVSPL NVSPL_parser shipped].
      destruct (dict_get filters "timestamps") as [v |] eqn:E; [clear Hts | done].
      apply (dict_get_mem _ _ _ Hnd) in E.
      assert (Hin : ("timestamps", v) ∈ given_filters items_arg filters).
      { destruct items_arg; [by apply dict_set_mem_other | done]. }
      assert (Hk : "timestamps" ∈ map fst (_prepareStateParams self)).
      { rewrite Hparams. apply list_elem_of_fmap. exists ("timestamps", v).
        split; [done |]. apply (pop_params_params _ _ _ _ Hnd'). split; [done | by left]. }
      unfold NVSPL_called_prepareState. by rewrite (NVSPL_prepareState_twice _ _ _ Hk).
    + intros self' g Hiter.
      destruct (prepare (_endpoint self) (_filters self) (_prepareStateParams self))
        as [state |] eqn:Hstate.
      2:{ unfold __iter__ in Hiter. cbn [prepareState NVSPL NVSPL_parser shipped] in Hiter.
          fold prepare in Hiter. by rewrite Hstate in Hiter. }
      destruct (_endpoint self (_sort self) (_n self) (_filters self))
        as [entries |] eqn:Hentries.
      2:{ unfold __iter__ in Hiter. cbn [prepareState NVSPL NVSPL_parser shipped] in Hiter.
          fold prepare in Hiter. by rewrite Hstate, bind_Ok, Hentries in Hiter. }
      destruct (failing_run NVSPL TypeError self0 self calls state entries)
        as (self1 & g1 & Hiter1 & Hraised & Hitems1 & Hevents); try done.
      { intros entry st Hst. unfold call_parse. cbn [parse parse_with NVSPL NVSPL_parser shipped].
        destruct st as [s |]; [done |].
        destruct (NVSPL_called_state _ _ _ _ Hstate). by apply Hst. }
      rewrite Hiter in Hiter1. injection Hiter1 as <- <-. eauto.
Qed.

End MoreNVSPLClass.

End MoreNVSPLCalled.

End MoreShipped.

(** ** More worked runs *)

Section MoreWorkedRuns.

Import Toy Samples.

(** Three records, the second without a year, through a [size] stage. *)
Lemma records_form_subsequence_witness :
  exists (self self' : Accessor) (g : gen Pair),
    build (accessor [e1; e_day; e3]) [GetAttr "size"] = Ok self /\
    __iter__ parser self = Ok (self', g) /\
    map fst (items (consume g)) `sublist_of` map KEntry [e1; e_day; e3] /\
    (length (items (consume g)) <= 3)%nat.
Proof.
  apply (records_form_subsequence parser (accessor [e1; e_day; e3])
           [GetAttr "size"] None [e1; e_day; e3]).
  - reflexivity.
  - repeat constructor.
  - reflexivity.
  - reflexivity.
Defined.

Ltac by_computation := apply (bool_decide_unpack _); vm_compute; exact I.

(** Two [size] stages over two records. *)
Lemma two_stages_compose_witness :
  items (consume (per_pair (fun d => getattr d "size")
                    (per_pair (fun d => getattr d "size") (iterate parser None [e1; e2]))))
  = items (consume (per_pair (and_then (fun d => getattr d "size")
                                       (fun d => getattr d "size"))
                             (iterate parser None [e1; e2]))) /\
  raised (consume (per_pair (fun d => getattr d "size")
                     (per_pair (fun d => getattr d "size") (iterate parser None [e1; e2]))))
  = raised (consume (iterate parser None [e1; e2])).
Proof.
  apply two_stages_compose; intros data; apply toy_getattr_never_cancels.
Defined.


(** A subclass without [parse], over two records. *)
Lemma inherited_parse_yields_nothing_witness :
  exists (self self' : Accessor) (g : gen Pair),
    build (accessor [e1; e2]) [GetAttr "size"; Group [ByField "site"]] = Ok self /\
    __iter__ inherited self = Ok (self', g) /\
    items (consume g) = [] /\
    events (consume g) = [ParseError "A2001.txt" NotImplementedError;
                          ParseError "A2002.txt" NotImplementedError].
Proof.
  eexists.
  destruct (inherited_parse_yields_nothing (accessor [e1; e2])
              [GetAttr "size"; Group [ByField "site"]] _ [e1; e2]
              eq_refl eq_refl eq_refl)
    as (self' & g & Hiter & _ & Hitems & Hevents).
  exists self', g. split; [reflexivity |]. split; [exact Hiter |].
  split; [exact Hitems | exact Hevents].
Defined.

(** Two builder calls on a new accessor. *)
Lemma build_keeps_source_witness :
  exists self' : Accessor,
    build (accessor [e1; e2]) [GetAttr "size"; Group [ByField "site"]] = Ok self' /\
    _filters self' = _filters (accessor [e1; e2]) /\
    _n self' = _n (accessor [e1; e2]).
Proof.
  eexists.
  destruct (build_keeps_source [GetAttr "size"; Group [ByField "site"]]
              (accessor [e1; e2]) _ eq_refl)
    as (_ & Hfilters & _ & Hn & _).
  split; [reflexivity |]. split; [exact Hfilters | exact Hn].
Defined.

(** Grouping by site and year. *)
Lemma group_by_fields_witness :
  exists groupFunc,
    group (accessor [e1]) [ByField "site"; ByField "year"]
    = Ok (set_chain (set_sort (accessor [e1]) (Some (SortFunc groupFunc)))
                    (_chain (accessor [e1]) ++ [do_group groupFunc])) /\
    groupFunc (KEntry e1) = Ok (KTuple ["A"; "2001"]).
Proof.
  destruct (group_by_fields (accessor [e1]) ["site"; "year"])
    as (groupFunc & Hgroup & Hkeys & _).
  - simpl. lia.
  - exists groupFunc. split; [exact Hgroup |].
    apply (Hkeys (KEntry e1) ["A"; "2001"]). repeat constructor.
Defined.

(** The label of a record with a site and a year. *)
Lemma ID_is_label_witness : ID (KEntry e1) = Ok (KStr "A2001").
Proof. apply (ID_is_label e1). vm_compute. discriminate. Defined.

(** Three records bucketed by site. *)
Lemma buckets_by_identity_witness :
  exists buckets,
    bucket by_site (iterate parser None [e1; e2; e3]) [] = ([], Ok buckets) /\
    NoDup (map fst buckets) /\
    (forall ds, (KStr "A", ds) ∈ buckets -> ds = [series_A2001; series_A2002]).
Proof.
  destruct (buckets_by_identity by_site (iterate parser None [e1; e2; e3])
              [(KStr "A", series_A2001); (KStr "A", series_A2002);
               (KStr "B", series_B2001)])
    as (buckets & Hb & Hnd & _ & Hmem).
  - reflexivity.
  - vm_compute. repeat constructor.
  - exists buckets. split; [exact Hb |]. split; [exact Hnd |].
    intros ds Hin. by destruct (Hmem _ _ Hin) as [-> _].
Defined.

(** Two records of one site: their series, concatenated. *)
Lemma single_identity_value_witness :
  snd (combine parser (accessor [e1; e2]) unchanged PyNone (Some by_site) [] [])
  = ([], Ok (Value (Series (mkIndex ["A2001.txt"; "A2002.txt"] object_) [2001; 2002]))).
Proof.
  apply (single_identity_value parser (accessor [e1; e2])
           (set_progbar (accessor [e1; e2]) (Some [e1; e2]))
           (iterate parser None [e1; e2]) unchanged PyNone (Some by_site) [] []
           [(KStr "A", series_A2001); (KStr "A", series_A2002)] (KStr "A")
           (Series (mkIndex ["A2001.txt"; "A2002.txt"] object_) [2001; 2002])).
  - reflexivity.
  - reflexivity.
  - vm_compute. repeat constructor.
  - discriminate.
  - repeat constructor.
  - right. split; [simpl; lia | reflexivity].
  - reflexivity.
Defined.

(** No record located. *)
Lemma nothing_to_combine_witness :
  snd (combine parser (accessor []) unchanged PyNone None [] []) = ([], Ok (Mapping [])).
Proof.
  apply (nothing_to_combine parser (accessor []) (set_progbar (accessor []) (Some []))
           (iterate parser None [])); reflexivity.
Defined.

(** Two records of one site whose payloads are plain integers. *)
Lemma single_identity_concat_failure_witness :
  snd (combine ints (accessor [e1; e2]) unchanged PyNone (Some by_site) [] [])
  = ([ConcatWarning], Ok (Value (PyList [PyInt 2001; PyInt 2002]))).
Proof.
  destruct (single_identity_concat_failure ints (accessor [e1; e2])
              (set_progbar (accessor [e1; e2]) (Some [e1; e2]))
              (iterate ints None [e1; e2]) unchanged PyNone (Some by_site) [] []
              [(KStr "A", PyInt 2001); (KStr "A", PyInt 2002)] (KStr "A") TypeError)
    as [Htype _].
  - reflexivity.
  - reflexivity.
  - vm_compute. repeat constructor.
  - repeat constructor.
  - simpl. lia.
  - reflexivity.
  - apply (Htype eq_refl). reflexivity.
Defined.

(** Two identities, one integer each. *)
Lemma scalars_merge_to_series_witness :
  snd (combine ints (accessor [e1; e3]) unchanged PyNone None [] [])
  = ([], v ← pd_Series [(KStr "A2001", PyInt 2001); (KStr "B2001", PyInt 2001)];
         mret (Value v)).
Proof.
  apply (scalars_merge_to_series ints (accessor [e1; e3])
           (set_progbar (accessor [e1; e3]) (Some [e1; e3]))
           (iterate ints None [e1; e3]) unchanged PyNone None [] [] []
           [(KStr "A2001", PyInt 2001); (KStr "B2001", PyInt 2001)] (PyInt 2001)).
  - reflexivity.
  - vm_compute. reflexivity.
  - simpl. lia.
  - reflexivity.
  - repeat constructor.
  - reflexivity.
Defined.

(** Two identities, the finisher returning [None] for both. *)
Lemma unmergeable_results_returned_witness :
  snd (combine parser (accessor [e1; e3]) to_none PyNone None [] [])
  = ([], Ok (Mapping [(KStr "A2001", PyNone); (KStr "B2001", PyNone)])).
Proof.
  apply (unmergeable_results_returned parser (accessor [e1; e3])
           (set_progbar (accessor [e1; e3]) (Some [e1; e3]))
           (iterate parser None [e1; e3]) to_none PyNone None [] [] []
           [(KStr "A2001", PyNone); (KStr "B2001", PyNone)] PyNone).
  - reflexivity.
  - vm_compute. reflexivity.
  - simpl. lia.
  - reflexivity.
  - right. reflexivity.
Defined.

(** Two identities, the finisher raising for both. *)
Lemma lists_raise_type_error_witness :
  snd (combine parser (accessor [e1; e3]) refuse PyNone None [] [])
  = ([FinisherError (KStr "A2001") (Exception "refused");
      FinisherError (KStr "B2001") (Exception "refused")], Raise TypeError).
Proof.
  apply (lists_raise_type_error parser (accessor [e1; e3])
           (set_progbar (accessor [e1; e3]) (Some [e1; e3]))
           (iterate parser None [e1; e3]) refuse PyNone None [] []
           [FinisherError (KStr "A2001") (Exception "refused");
            FinisherError (KStr "B2001") (Exception "refused")]
           [(KStr "A2001", PyList [series_A2001]); (KStr "B2001", PyList [series_B2001])]).
  - reflexivity.
  - vm_compute. reflexivity.
  - simpl. lia.
  - repeat constructor.
Defined.

(** Two series that share no label. *)
Lemma series_merge_by_overlap_witness :
  snd (combine parser (accessor [e1; e3]) unchanged PyNone None [] [])
  = ([], or_mapping [(KStr "A2001", series_A2001); (KStr "B2001", series_B2001)]
           (pd_concat_dict [(KStr "A2001", series_A2001); (KStr "B2001", series_B2001)])).
Proof.
  destruct (series_merge_by_overlap parser (accessor [e1; e3])
              (set_progbar (accessor [e1; e3]) (Some [e1; e3]))
              (iterate parser None [e1; e3]) unchanged PyNone None [] [] []
              [(KStr "A2001", series_A2001); (KStr "B2001", series_B2001)])
    as [_ Hbelow].
  - reflexivity.
  - vm_compute. reflexivity.
  - simpl. lia.
  - repeat constructor.
  - vm_compute. lia.
  - apply Hbelow. vm_compute. reflexivity.
Defined.

(** Two cubes with the same axes. *)
Lemma panels_merge_by_overlap_witness :
  snd (combine panels (accessor [e1; e3]) unchanged PyNone None [] [])
  = ([], v ← pd_Panel4D_from_dict [(KStr "A2001", panel_A); (KStr "B2001", panel_B)];
         mret (Value v)).
Proof.
  destruct (panels_merge_by_overlap panels (accessor [e1; e3])
              (set_progbar (accessor [e1; e3]) (Some [e1; e3]))
              (iterate panels None [e1; e3]) unchanged PyNone None [] [] []
              [(KStr "A2001", panel_A); (KStr "B2001", panel_B)])
    as [Hall _].
  - reflexivity.
  - vm_compute. reflexivity.
  - simpl. lia.
  - repeat constructor.
  - intros attr Hattr.
    repeat (apply elem_of_cons in Hattr as [-> | Hattr]; [vm_compute; lia |]).
    by apply elem_of_nil in Hattr.
  - apply Hall; vm_compute; discriminate.
Defined.

(** Two tables without a column. *)
Lemma empty_tables_divide_by_zero_witness :
  snd (combine bares (accessor [e1; e3]) unchanged PyNone None [] [])
  = ([], Raise ZeroDivisionError).
Proof.
  apply (empty_tables_divide_by_zero bares (accessor [e1; e3])
           (set_progbar (accessor [e1; e3]) (Some [e1; e3]))
           (iterate bares None [e1; e3]) unchanged PyNone None [] [] []
           [(KStr "A2001", DataFrame (mkIndex ["A2001.txt"] object_) (mkIndex [] object_) [[]]);
            (KStr "B2001", DataFrame (mkIndex ["B2001.txt"] object_) (mkIndex [] object_) [[]])]).
  - reflexivity.
  - vm_compute. reflexivity.
  - simpl. lia.
  - repeat constructor.
  - repeat constructor.
Defined.

(** The columns of the two tables of [Toy.tables]: three of four. *)
Lemma overlap_between_0_and_1_witness : (0 <= 3 # 4)%Q /\ (3 # 4 <= 1)%Q.
Proof.
  apply (overlap_between_0_and_1 "columns" [(KStr "A", table_A); (KStr "B", table_B)]).
  - intros a b. simpl. apply length_filter.
  - vm_compute. reflexivity.
Defined.

(** An identity function that fails on the second of three pairs. *)
Lemma combine_raises_run_and_identity_failures_witness :
  exists evs,
    snd (combine parser (accessor [e1; e2; e3]) unchanged PyNone (Some site_until_2002) [] [])
    = (evs, Raise KeyError).
Proof.
  destruct (combine_raises_run_and_identity_failures parser (accessor [e1; e2; e3])
              (set_progbar (accessor [e1; e2; e3]) (Some [e1; e2; e3]))
              (iterate parser None [e1; e2; e3]) unchanged PyNone
              (Some site_until_2002) [] [] eq_refl)
    as [_ Hid].
  apply (Hid [(KEntry e1, series_A2001)] (KEntry e2, series_A2002)
             [(KEntry e3, series_B2001)] KeyError).
  - reflexivity.
  - repeat constructor.
  - reflexivity.
Defined.

(** [NVSPL(ds, site= "A", columns= ["dbA"])] *)
Lemma init_splits_filters_witness :
  exists self,
    __init__ columns_intersection Index_iterrows NVSPL_class dataset None None None
             site_and_columns = Ok self /\
    _filters self = [("site", PyStr "A")] /\
    _prepareStateParams self = [("columns", PyList [PyStr "dbA"])].
Proof.
  destruct (init_splits_filters columns_intersection Index_iterrows NVSPL_class dataset
              None None None site_and_columns "nvspl" nvspl_endpoint
              ["timestamps"; "columns"])
    as [Hsplit _].
  - reflexivity.
  - reflexivity.
  - reflexivity.
  - by_computation.
  - destruct Hsplit as (self & Hinit & _); [intros it; discriminate |].
    exists self. split; [exact Hinit |].
    vm_compute in Hinit. injection Hinit as <-. split; reflexivity.
Defined.

(** The class [NVSPL]. *)
Lemma metaclass_keeps_init_keywords_witness :
  exists cls name kws,
    metaclass_new formatargspec cleandoc fill_template "NVSPL" (NVSPL_dict None) = Ok cls /\
    endpointName cls = Some name /\
    _prepareStateKwargs cls = Some kws /\
    "items" ∉ kws.
Proof.
  eexists.
  destruct (metaclass_keeps_init_keywords formatargspec cleandoc fill_template
              "NVSPL" (NVSPL_dict None) _ ltac:(discriminate) eq_refl)
    as (name & kws & _ & Hname & Hkws & Hres & _).
  exists name, kws. split; [reflexivity |]. split; [exact Hname |].
  split; [exact Hkws |]. apply Hres. right. left.
Defined.

(** A subclass that names no endpoint. *)
Lemma metaclass_refusals_witness :
  metaclass_new formatargspec cleandoc fill_template "Broken"
                (mkClassDict None (Some (Raise ValueError)) None)
  = Raise NotImplementedError /\
  metaclass_new formatargspec cleandoc fill_template "Broken"
                (mkClassDict (Some "nvspl") (Some (Raise ValueError)) None)
  = Raise ValueError.
Proof.
  split.
  - destruct (metaclass_refusals formatargspec cleandoc fill_template "Broken"
                (mkClassDict None (Some (Raise ValueError)) None))
      as (Hname & _ & _); [discriminate |].
    by apply Hname.
  - destruct (metaclass_refusals formatargspec cleandoc fill_template "Broken"
                (mkClassDict (Some "nvspl") (Some (Raise ValueError)) None))
      as (_ & Hspec & _); [discriminate |].
    by apply Hspec.
Defined.

(** [NVSPL(ds, items= [], site= "A", columns= ["dbA"])] *)
Lemma accepted_class_instantiates_witness :
  exists cls self,
    metaclass_new formatargspec cleandoc fill_template "NVSPL" (NVSPL_dict None) = Ok cls /\
    __init__ columns_intersection Index_iterrows cls dataset None (Some (PyList [])) None
             site_and_columns = Ok self /\
    dict_get (_filters self) "items" = Some (PyList []).
Proof.
  eexists.
  destruct (accepted_class_instantiates columns_intersection Index_iterrows
              formatargspec cleandoc fill_template "NVSPL" (NVSPL_dict None) _
              dataset None (Some (PyList [])) None site_and_columns
              ltac:(discriminate) eq_refl)
    as (name & Hname & _ & Hmade).
  - by_computation.
  - injection Hname as <-.
    destruct (Hmade nvspl_endpoint eq_refl) as [Hlist _].
    destruct Hlist as (self & Hinit & Hitems & _); [intros it [= <-]; discriminate |].
    exists self. split; [reflexivity |]. split; [exact Hinit |]. by apply Hitems.
Defined.

(** The base class, on the sample dataset. *)
Lemma base_class_never_instantiates_witness :
  exists cls,
    metaclass_new formatargspec cleandoc fill_template "Accessor"
                  (mkClassDict None None None) = Ok cls /\
    _prepareStateKwargs cls = None /\
    is_Ok (__init__ columns_intersection Index_iterrows cls dataset None None None []) = false.
Proof.
  apply (base_class_never_instantiates columns_intersection Index_iterrows
           formatargspec cleandoc fill_template).
Defined.

(** [columns= ["dbA"]] *)
Lemma prepareState_string_columns_witness :
  exists columns',
    NVSPL_prepareState (ep_call nvspl_endpoint) ([] : Kwargs) (@None Structure)
                       (Some [PyStr "dbA"])
    = Ok (None, Some columns', 0%nat) /\
    columns' = [PyStr "STime"; PyStr "dbA"].
Proof.
  destruct (prepareState_string_columns (ep_call nvspl_endpoint) [] None [PyStr "dbA"]
              eq_refl)
    as (columns' & Hrun & _ & _ & _ & Hfront & _).
  exists columns'. split; [exact Hrun |]. apply Hfront.
  intros Hin. apply list_elem_of_singleton in Hin. discriminate.
Defined.

(** [columns= [5, 3]] *)
Lemma prepareState_int_columns_witness :
  exists columns' index_index,
    NVSPL_prepareState (ep_call nvspl_endpoint) ([] : Kwargs) (@None Structure)
                       (Some [PyInt 5; PyInt 3])
    = Ok (None, Some columns', index_index) /\
    columns' ≡ₚ [PyInt 1; PyInt 5; PyInt 3].
Proof.
  destruct (prepareState_int_columns (ep_call nvspl_endpoint) [] None [PyInt 5; PyInt 3]
              eq_refl eq_refl)
    as (columns' & index_index & c & Hrun & _ & _ & _ & _ & Hsorted).
  exists columns', index_index. split; [exact Hrun |]. by apply Hsorted.
Defined.

(** [columns= [1, "dbA"]] *)
Lemma prepareState_failures_witness :
  NVSPL_prepareState (ep_call nvspl_endpoint) ([] : Kwargs) (@None Structure)
                     (Some [PyInt 1; PyStr "dbA"])
  = Raise TypeError.
Proof.
  destruct (prepareState_failures (ep_call nvspl_endpoint) [] None
              (Some [PyInt 1; PyStr "dbA"]))
    as (Hraise & _ & _).
  apply Hraise. split; [reflexivity |]. eexists. split; [reflexivity |].
  split; reflexivity.
Defined.

(** A subclass with the signature of [SRCID.parse], over two records. *)
Lemma shipped_parse_never_runs_witness :
  exists (self self' : Accessor) (g : gen Pair),
    build (accessor [e1; e2]) [GetAttr "size"] = Ok self /\
    __iter__ (shipped unit SRCID_parse_argspec unread unread_with (fun _ _ _ => Ok None))
             self = Ok (self', g) /\
    items (consume g) = [] /\
    events (consume g) = [ParseError "A2001.txt" TypeError; ParseError "A2002.txt" TypeError].
Proof.
  eexists.
  destruct (shipped_parse_never_runs unit SRCID_parse_argspec unread unread_with
              (fun _ _ _ => Ok None) (accessor [e1; e2]) _ [GetAttr "size"] None [e1; e2]
              (or_introl eq_refl) eq_refl eq_refl eq_refl eq_refl)
    as (self' & g & Hiter & _ & Hitems & Hevents).
  exists self', g. split; [reflexivity |]. split; [exact Hiter |].
  split; [exact Hitems | exact Hevents].
Defined.

(** [timestamps] given by keyword. *)
Lemma NVSPL_state_holds_filters_witness :
  NVSPL_called_prepareState rejected (ep_call nvspl_endpoint) [("site", PyStr "A")]
                            [("timestamps", PyInt 0)]
  = Raise TypeError.
Proof.
  destruct (NVSPL_state_holds_filters rejected (ep_call nvspl_endpoint)
              [("site", PyStr "A")] [("timestamps", PyInt 0)])
    as [Htwice _].
  - intros k Hk. simpl in Hk. apply list_elem_of_singleton in Hk as ->. left.
  - apply Htwice. left.
Defined.

(** [NVSPL(ds, site= "A", columns= ["dbA"])], iterated: three records
    located, none parsed. *)
Lemma NVSPL_accessor_never_yields_witness :
  exists cls self0 self' g,
    metaclass_new formatargspec cleandoc fill_template "NVSPL" (NVSPL_dict None) = Ok cls /\
    __init__ columns_intersection Index_iterrows cls dataset None None None
             site_and_columns = Ok self0 /\
    __iter__ (NVSPL_parser rejected unread unread_with) self0 = Ok (self', g) /\
    items (consume g) = [] /\
    length (events (consume g)) = 3%nat.
Proof.
  destruct (NVSPL_accessor_never_yields rejected formatargspec cleandoc fill_template
              columns_intersection Index_iterrows unread unread_with
              None dataset nvspl_endpoint None None None site_and_columns eq_refl)
    as (cls & Hnew & _ & _ & Hmade).
  - by_computation.
  - destruct Hmade as (self0 & Hinit & Hruns); [intros it; discriminate |].
    destruct (Hruns [] self0 eq_refl) as [_ Hrun].
    assert (Hself0 : self0 = mkAccessor (ep_call nvspl_endpoint) [("site", PyStr "A")]
                                        [("columns", PyList [PyStr "dbA"])]
                                        None [] None None).
    { injection Hnew as <-. by injection Hinit as <-. }
    assert (Hiter : exists self' g,
               __iter__ (NVSPL_parser rejected unread unread_with) self0 = Ok (self', g)).
    { rewrite Hself0. eexists _, _. reflexivity. }
    destruct Hiter as (self' & g & Hiter).
    destruct (Hrun self' g Hiter) as (_ & Hitems & entries & Hentries & Hevents).
    exists cls, self0, self', g. split_and!; try done.
    rewrite Hevents, length_map. rewrite Hself0 in Hentries. by injection Hentries as <-.
Defined.

End MoreWorkedRuns.
